(** * Synology Cloud Sync decryption core (package [core])

    A shallow embedding of the container decoder ([decoder.go]), the key
    derivation and padding helpers ([crypto.go]) and the streaming driver
    ([decrypt.go]), followed by the properties checked against them.

    Conventions.
    - A Go [[]byte] is a [list byte]; where the code tests a slice against
      [nil] the model uses [option (list byte)].
    - A Go [string] is a [string] (a sequence of 8-bit characters).
    - Go's [int] is the 64-bit signed integer of the amd64 and arm64 builds
      the README describes; [int64_wrap] is its wrap-around.
    - A call can return normally, return an error, or panic: [outcome].
    - Go's standard library (crypto/md5, crypto/aes, crypto/cipher,
      encoding/hex, encoding/base64) is modelled by executable reference
      definitions checked against the published test vectors; crypto/rsa,
      crypto/x509 and the external [lz4 -d] process are parameters. *)

From Stdlib Require Import ZArith List Strings.String Strings.Byte Strings.Ascii.
From Stdlib Require Import Lia Permutation.
From stdpp Require Import gmap strings list.

Local Open Scope Z_scope.

(* ================================================================= *)
(** ** Bytes, strings and machine integers *)

Module GoBytes.

Definition Z_of_byte (b : byte) : Z := Z.of_N (Byte.to_N b).

Definition byte_of_Z (z : Z) : byte :=
  match Byte.of_N (Z.to_N (z mod 256)) with
  | Some b => b
  | None => x00
  end.

Definition to_Zs (bs : list byte) : list Z := List.map Z_of_byte bs.
Definition of_Zs (zs : list Z) : list byte := List.map byte_of_Z zs.

(** [string(data)] and [[]byte(str)] *)
Definition string_of_bytes (bs : list byte) : string := string_of_list_byte bs.
Definition bytes_of_string (s : string) : list byte := list_byte_of_string s.

(** Go's [int] on a 64-bit target. *)
Definition int64_wrap (z : Z) : Z := (z + 2 ^ 63) mod 2 ^ 64 - 2 ^ 63.

End GoBytes.
Export GoBytes.

(* ================================================================= *)
(** ** encoding/hex *)

Module Hex.

Definition digit (n : Z) : byte :=
  byte_of_Z (if n <? 10 then 48 + n else 87 + n).

(** [hex.EncodeToString]: lower-case digits. *)
Definition EncodeToString (bs : list byte) : string :=
  string_of_bytes
    (List.flat_map (fun b => let z := Z_of_byte b in [digit (z / 16); digit (z mod 16)]) bs).

(** [reverseHexTable]: the value of a digit of either case. *)
Definition value (b : byte) : option Z :=
  let z := Z_of_byte b in
  if (48 <=? z) && (z <=? 57) then Some (z - 48)
  else if (97 <=? z) && (z <=? 102) then Some (z - 87)
  else if (65 <=? z) && (z <=? 70) then Some (z - 55)
  else None.

(** [hex.Decode]: [None] stands for [InvalidByteError] and [ErrLength]. *)
Fixpoint Decode (src : list byte) : option (list byte) :=
  match src with
  | [] => Some []
  | [_] => None
  | p :: q :: rest =>
      match value p, value q with
      | Some a, Some b =>
          match Decode rest with
          | Some d => Some (byte_of_Z (a * 16 + b) :: d)
          | None => None
          end
      | _, _ => None
      end
  end.

(** Constants of the model are written as hexadecimal text. *)
Definition of_text (s : string) : list byte :=
  match Decode (bytes_of_string s) with Some d => d | None => [] end.

End Hex.

(* ================================================================= *)
(** ** encoding/base64, [StdEncoding.DecodeString] *)

Module Base64.

(** [decodeMap] of the standard alphabet. *)
Definition sextet (b : byte) : option Z :=
  let z := Z_of_byte b in
  if (65 <=? z) && (z <=? 90) then Some (z - 65)
  else if (97 <=? z) && (z <=? 122) then Some (z - 71)
  else if (48 <=? z) && (z <=? 57) then Some (z + 4)
  else if z =? 43 then Some 62
  else if z =? 47 then Some 63
  else None.

Definition is_newline (b : byte) : bool :=
  let z := Z_of_byte b in (z =? 10) || (z =? 13).

Definition is_pad (b : byte) : bool := Z_of_byte b =? 61.

(** The quanta of the input once CR and LF are skipped.  A quantum is four
    alphabet characters, or (last only) two or three of them padded with
    [=] to four; anything else is a [CorruptInputError] ([None]). *)
Fixpoint quanta (src : list byte) : option (list byte) :=
  match src with
  | [] => Some []
  | a :: b :: c :: d :: rest =>
      match sextet a, sextet b with
      | Some x, Some y =>
          match sextet c, sextet d with
          | Some z, Some w =>
              let v := x * 262144 + y * 4096 + z * 64 + w in
              match quanta rest with
              | Some out =>
                  Some (byte_of_Z (v / 65536) :: byte_of_Z (v / 256) :: byte_of_Z v :: out)
              | None => None
              end
          | Some z, None =>
              if is_pad d && (match rest with [] => true | _ => false end) then
                let v := x * 262144 + y * 4096 + z * 64 in
                Some [byte_of_Z (v / 65536); byte_of_Z (v / 256)]
              else None
          | None, _ =>
              if is_pad c && is_pad d && (match rest with [] => true | _ => false end) then
                let v := x * 262144 + y * 4096 in
                Some [byte_of_Z (v / 65536)]
              else None
          end
      | _, _ => None
      end
  | _ => None
  end.

Definition DecodeString (s : string) : option (list byte) :=
  quanta (List.filter (fun b => negb (is_newline b)) (bytes_of_string s)).

End Base64.

(* ================================================================= *)
(** ** crypto/md5 (RFC 1321) *)

Module MD5.

Definition w32 (z : Z) : Z := Z.land z 4294967295.
Definition not32 (x : Z) : Z := Z.lxor x 4294967295.
Definition rotl (x s : Z) : Z := w32 (Z.lor (Z.shiftl x s) (Z.shiftr x (32 - s))).

(** Little-endian words. *)
Definition le32 (w : Z) : list Z :=
  [Z.land w 255; Z.land (Z.shiftr w 8) 255; Z.land (Z.shiftr w 16) 255;
   Z.land (Z.shiftr w 24) 255].

Fixpoint words (fuel : nat) (bs : list Z) : list Z :=
  match fuel, bs with
  | S f, a :: b :: c :: d :: rest =>
      (a + 256 * b + 65536 * c + 16777216 * d) :: words f rest
  | _, _ => []
  end.

Fixpoint words_be (fuel : nat) (bs : list Z) : list Z :=
  match fuel, bs with
  | S f, a :: b :: c :: d :: rest =>
      (16777216 * a + 65536 * b + 256 * c + d) :: words_be f rest
  | _, _ => []
  end.

(** [T[i] = floor (2^32 * |sin (i + 1)|)]. *)
Definition T : list Z := Eval vm_compute in
  (words_be 64 (to_Zs (Hex.of_text
    ("d76aa478e8c7b756242070dbc1bdceeef57c0faf4787c62aa8304613fd469501" ++
     "698098d88b44f7afffff5bb1895cd7be6b901122fd987193a679438e49b40821" ++
     "f61e2562c040b340265e5a51e9b6c7aad62f105d02441453d8a1e681e7d3fbc8" ++
     "21e1cde6c33707d6f4d50d87455a14eda9e3e905fcefa3f8676f02d98d2a4c8a" ++
     "fffa39428771f6816d9d6122fde5380ca4beea444bdecfa9f6bb4b60bebfbc70" ++
     "289b7ec6eaa127fad4ef308504881d05d9d4d039e6db99e51fa27cf8c4ac5665" ++
     "f4292244432aff97ab9423a7fc93a039655b59c38f0ccc92ffeff47d85845dd1" ++
     "6fa87e4ffe2ce6e0a30143144e0811a1f7537e82bd3af2352ad7d2bbeb86d391")))).

(** Per-round rotation amounts. *)
Definition shifts : list Z :=
  let four (l : list Z) := l ++ l ++ l ++ l in
  four [7; 12; 17; 22] ++ four [5; 9; 14; 20] ++ four [4; 11; 16; 23] ++ four [6; 10; 15; 21].

Definition mix (i b c d : Z) : Z * Z :=
  if i <? 16 then (Z.lor (Z.land b c) (Z.land (not32 b) d), i)
  else if i <? 32 then (Z.lor (Z.land d b) (Z.land (not32 d) c), (5 * i + 1) mod 16)
  else if i <? 48 then (Z.lxor b (Z.lxor c d), (3 * i + 5) mod 16)
  else (Z.lxor c (Z.lor b (not32 d)), (7 * i) mod 16).

Definition round (M : list Z) (st : Z * Z * Z * Z) (i : nat) : Z * Z * Z * Z :=
  let '(a, b, c, d) := st in
  let '(f, g) := mix (Z.of_nat i) b c d in
  let f' := w32 (f + a + nth i T 0 + nth (Z.to_nat g) M 0) in
  (d, w32 (b + rotl f' (nth i shifts 0)), b, c).

Definition compress (h : Z * Z * Z * Z) (block : list Z) : Z * Z * Z * Z :=
  let '(a0, b0, c0, d0) := h in
  let '(a, b, c, d) := fold_left (round (words 16 block)) (seq 0 64) h in
  (w32 (a0 + a), w32 (b0 + b), w32 (c0 + c), w32 (d0 + d)).

Definition pad (msg : list Z) : list Z :=
  let n := Z.of_nat (List.length msg) in
  msg ++ [128] ++ repeat 0 (Z.to_nat ((55 - n) mod 64))
      ++ le32 (w32 (8 * n)) ++ le32 (w32 (Z.shiftr (8 * n) 32)).

Fixpoint absorb (fuel : nat) (h : Z * Z * Z * Z) (bs : list Z) : Z * Z * Z * Z :=
  match fuel, bs with
  | S f, _ :: _ => absorb f (compress h (firstn 64 bs)) (skipn 64 bs)
  | _, _ => h
  end.

Definition init : Z * Z * Z * Z := (1732584193, 4023233417, 2562383102, 271733878).

(** [md5.Sum]: always 16 bytes. *)
Definition Sum (data : list byte) : list byte :=
  let p := pad (to_Zs data) in
  let '(a, b, c, d) := absorb (List.length p) init p in
  of_Zs (le32 a ++ le32 b ++ le32 c ++ le32 d).

End MD5.

(* ================================================================= *)
(** ** crypto/aes and crypto/cipher: the inverse cipher of FIPS-197 in
       CBC mode *)

Module AES.

Definition sbox : list Z := Eval vm_compute in to_Zs (Hex.of_text
  ("637c777bf26b6fc53001672bfed7ab76ca82c97dfa5947f0add4a2af9ca472c0" ++
   "b7fd9326363ff7cc34a5e5f171d8311504c723c31896059a071280e2eb27b275" ++
   "09832c1a1b6e5aa0523bd6b329e32f8453d100ed20fcb15b6acbbe394a4c58cf" ++
   "d0efaafb434d338545f9027f503c9fa851a3408f929d38f5bcb6da2110fff3d2" ++
   "cd0c13ec5f974417c4a77e3d645d197360814fdc222a908846eeb814de5e0bdb" ++
   "e0323a0a4906245cc2d3ac629195e479e7c8376d8dd54ea96c56f4ea657aae08" ++
   "ba78252e1ca6b4c6e8dd741f4bbd8b8a703eb5664803f60e613557b986c11d9e" ++
   "e1f8981169d98e949b1e87e9ce5528df8ca1890dbfe6426841992d0fb054bb16")).

Definition inv_sbox : list Z := Eval vm_compute in to_Zs (Hex.of_text
  ("52096ad53036a538bf40a39e81f3d7fb7ce339829b2fff87348e4344c4dee9cb" ++
   "547b9432a6c2233dee4c950b42fac34e082ea16628d924b2765ba2496d8bd125" ++
   "72f8f66486689816d4a45ccc5d65b6926c704850fdedb9da5e154657a78d9d84" ++
   "90d8ab008cbcd30af7e45805b8b34506d02c1e8fca3f0f02c1afbd0301138a6b" ++
   "3a9111414f67dcea97f2cfcef0b4e67396ac7422e7ad3585e2f937e81c75df6e" ++
   "47f11a711d29c5896fb7620eaa18be1bfc563e4bc6d279209adbc0fe78cd5af4" ++
   "1fdda8338807c731b11210592780ec5f60517fa919b54a0d2de57a9f93c99cef" ++
   "a0e03b4dae2af5b0c8ebbb3c83539961172b047eba77d626e169146355210c7d")).

Definition SubByte (z : Z) : Z := nth (Z.to_nat z) sbox 0.
Definition InvSubByte (z : Z) : Z := nth (Z.to_nat z) inv_sbox 0.

(** Multiplication by [x] in GF(2^8) modulo [x^8 + x^4 + x^3 + x + 1]. *)
Definition xtime (a : Z) : Z :=
  let b := Z.land (Z.shiftl a 1) 255 in
  if Z.testbit a 7 then Z.lxor b 27 else b.

Definition mul9 (a : Z) : Z := Z.lxor (xtime (xtime (xtime a))) a.
Definition mul11 (a : Z) : Z := Z.lxor (xtime (xtime (xtime a))) (Z.lxor (xtime a) a).
Definition mul13 (a : Z) : Z := Z.lxor (xtime (xtime (xtime a))) (Z.lxor (xtime (xtime a)) a).
Definition mul14 (a : Z) : Z :=
  Z.lxor (xtime (xtime (xtime a))) (Z.lxor (xtime (xtime a)) (xtime a)).

Fixpoint xor_bytes (a b : list Z) : list Z :=
  match a, b with
  | x :: a', y :: b' => Z.lxor x y :: xor_bytes a' b'
  | _, _ => []
  end.

(** The key schedule, as a list of 4-byte words. *)
Fixpoint key_words (fuel : nat) (key : list Z) : list (list Z) :=
  match fuel, key with
  | S f, a :: b :: c :: d :: rest => [a; b; c; d] :: key_words f rest
  | _, _ => []
  end.

Definition RotWord (w : list Z) : list Z :=
  match w with
  | a :: rest => rest ++ [a]
  | [] => []
  end.

Fixpoint expand (fuel nk i : nat) (rcon : Z) (w : list (list Z)) : list (list Z) :=
  match fuel with
  | O => w
  | S f =>
      let prev := nth (i - 1) w [] in
      let first := Nat.eqb (i mod nk) 0 in
      let temp :=
        if first then xor_bytes (List.map SubByte (RotWord prev)) [rcon; 0; 0; 0]
        else if Nat.ltb 6 nk && Nat.eqb (i mod nk) 4 then List.map SubByte prev
        else prev in
      expand f nk (S i) (if first then xtime rcon else rcon)
             (w ++ [xor_bytes (nth (i - nk) w []) temp])
  end.

Fixpoint round_keys (fuel : nat) (w : list (list Z)) : list (list Z) :=
  match fuel, w with
  | S f, a :: b :: c :: d :: rest => (a ++ b ++ c ++ d) :: round_keys f rest
  | _, _ => []
  end.

(** [aes.NewCipher]: [None] is [KeySizeError]. *)
Definition NewCipher (key : list byte) : option (list (list Z)) :=
  let nk := (List.length key / 4)%nat in
  if Nat.eqb (List.length key) 16 || Nat.eqb (List.length key) 24
     || Nat.eqb (List.length key) 32
  then Some (round_keys (nk + 7)
               (expand (4 * (nk + 7) - nk) nk nk 1 (key_words nk (to_Zs key))))
  else None.

Definition InvShiftRows (s : list Z) : list Z :=
  List.map (fun i => nth i s 0) [0; 13; 10; 7; 4; 1; 14; 11; 8; 5; 2; 15; 12; 9; 6; 3]%nat.

Fixpoint InvMixColumns (fuel : nat) (s : list Z) : list Z :=
  match fuel, s with
  | S f, a :: b :: c :: d :: rest =>
      Z.lxor (mul14 a) (Z.lxor (mul11 b) (Z.lxor (mul13 c) (mul9 d)))
      :: Z.lxor (mul9 a) (Z.lxor (mul14 b) (Z.lxor (mul11 c) (mul13 d)))
      :: Z.lxor (mul13 a) (Z.lxor (mul9 b) (Z.lxor (mul14 c) (mul11 d)))
      :: Z.lxor (mul11 a) (Z.lxor (mul13 b) (Z.lxor (mul9 c) (mul14 d)))
      :: InvMixColumns f rest
  | _, _ => []
  end.

(** The rounds from the last round key down to the second. *)
Fixpoint inv_rounds (rks : list (list Z)) (s : list Z) : list Z :=
  match rks with
  | [] => s
  | rk :: rest =>
      inv_rounds rest (InvMixColumns 4 (xor_bytes (List.map InvSubByte (InvShiftRows s)) rk))
  end.

(** [Block.Decrypt] on one 16-byte block. *)
Definition InvCipher (rks : list (list Z)) (block : list Z) : list Z :=
  match rev rks with
  | last :: middle =>
      let s := inv_rounds (removelast middle) (xor_bytes block last) in
      xor_bytes (List.map InvSubByte (InvShiftRows s)) (nth 0 rks [])
  | [] => block
  end.

(** [cipher.BlockMode] of [cipher.NewCBCDecrypter]: the key schedule and
    the chaining value carried from one [CryptBlocks] call to the next. *)
Record BlockMode : Type := mkBlockMode { schedule : list (list Z); iv : list Z }.

Fixpoint cbc (fuel : nat) (rks : list (list Z)) (prev src : list Z) : list Z * list Z :=
  match fuel, src with
  | S f, _ :: _ =>
      let c := firstn 16 src in
      let '(out, last) := cbc f rks c (skipn 16 src) in
      (xor_bytes (InvCipher rks c) prev ++ out, last)
  | _, _ => ([], prev)
  end.

(** [CryptBlocks]: [None] is the panic "input not full blocks". *)
Definition CryptBlocks (bm : BlockMode) (src : list byte) : option (list byte * BlockMode) :=
  if Nat.eqb (List.length src mod 16) 0 then
    let '(out, last) := cbc (List.length src) (schedule bm) (iv bm) (to_Zs src) in
    Some (of_Zs out, mkBlockMode (schedule bm) last)
  else None.

End AES.

(* ================================================================= *)
(** ** Errors, panics and outcomes *)

(** One constructor per error the package creates ([errors.New],
    [fmt.Errorf]) or passes on from the standard library. *)
Inductive error : Type :=
(* decoder.go *)
| EOF                                   (* io.EOF *)
| ErrIncompleteMagicHeader              (* "incomplete magic header" *)
| ErrInvalidMagicHeader (got : string)  (* "invalid magic header: ..." *)
| ErrIncompleteMagicHash                (* "incomplete magic hash" *)
| ErrInvalidMagicHash (got : string)    (* "invalid magic hash: ..." *)
| ErrUnknownTypeByte (b : byte)         (* "unknown type byte: 0x%02X" *)
| ErrDictKeyNotString                   (* "ordered dict key must be string" *)
| ErrIncompleteLengthField              (* "incomplete length field" *)
| ErrIncompleteData                     (* "incomplete data" *)
| ErrIncompleteLengthByte               (* "incomplete length byte" *)
| ErrIntegerTooLarge                    (* "integer too large" *)
| ErrIncompleteIntegerData              (* "incomplete integer data" *)
| ErrExpectedDictionary                 (* "expected dictionary object" *)
| ErrMissingTypeField                   (* "missing type field" *)
(* crypto.go *)
| ErrInvalidLength                      (* "invalid length" *)
| ErrInvalidPaddingByte (pad : byte)    (* "invalid padding byte: %d" *)
| ErrInvalidPaddingAt (pos : nat)       (* "invalid padding at position %d" *)
| ErrKeySize                            (* aes.KeySizeError *)
| ErrParsePrivateKey                    (* "failed to parse private key: %v" *)
| ErrNotRSAPrivateKey                   (* "not an RSA private key" *)
| ErrOAEPDecryption                     (* rsa.ErrDecryption *)
(* decrypt.go *)
| ErrDecodeStream (cause : error)       (* "failed to decode stream: %v" *)
| ErrUnexpectedDigest                   (* "unexpected digest: %v" *)
| ErrDecodeEncKey1                      (* "failed to decode enc_key1: %v" *)
| ErrDecodeEncKey2                      (* "failed to decode enc_key2: %v" *)
| ErrPasswordHashMismatch               (* "password hash mismatch" *)
| ErrMajorVersionType                   (* "unexpected major version type: %T" *)
| ErrMinorVersionType                   (* "unexpected minor version type: %T" *)
| ErrUnsupportedVersion (major minor : Z) (* "unsupported version: %d.%d" *)
| ErrSessionKeyPassword (cause : error) (* "failed to decrypt session key with password: %v" *)
| ErrSessionKeyPrivateKey (cause : error) (* "failed to decrypt session key with private key: %v" *)
| ErrNotEnoughInformation               (* "not enough information to decrypt data" *)
| ErrSessionKeyHashMismatch             (* "session key hash mismatch" *)
| ErrCreateDecryptor (cause : error)    (* "failed to create decryptor: %v" *)
| ErrStripPadding (cause : error).      (* "failed to strip padding: %v" *)

(** Run-time panics the package can raise. *)
Inductive panic : Type :=
| PanicIndexOutOfRange        (* data[len(data)-1] on an empty slice *)
| PanicSliceBounds            (* s[:10], fd[:keySize] out of range *)
| PanicTypeAssertion          (* item.Value.(string) on another dynamic type *)
| PanicInputNotFullBlocks     (* cipher: CryptBlocks on a partial block *)
| PanicIVLength.              (* cipher.NewCBCDecrypter: IV length *)

Inductive outcome (A : Type) : Type :=
| Ret (a : A)
| Err (e : error)
| Panics (p : panic).
Arguments Ret {A} a.
Arguments Err {A} e.
Arguments Panics {A} p.

#[global] Instance outcome_ret : MRet outcome := fun A a => Ret a.
#[global] Instance outcome_bind : MBind outcome := fun A B k m =>
  match m with
  | Ret a => k a
  | Err e => Err e
  | Panics p => Panics p
  end.

(** [wrap f m]: [if err != nil { return fmt.Errorf("...: %v", err) }]. *)
Definition wrap {A : Type} (f : error -> error) (m : outcome A) : outcome A :=
  match m with
  | Err e => Err (f e)
  | _ => m
  end.

(** The error kinds of the specification's section 7, for the errors that
    have one. *)
Inductive kind : Type :=
| BadMagic | Truncated | UnknownTag | InvalidInteger | MissingHeader
| UnsupportedVersion (major minor : Z) | PasswordHashMismatch
| SessionKeyHashMismatch | CryptoFailure | BadPadding | TypeMismatch | EndOfInput.

Fixpoint kind_of (e : error) : kind :=
  match e with
  | EOF => EndOfInput
  | ErrIncompleteMagicHeader | ErrInvalidMagicHeader _
  | ErrIncompleteMagicHash | ErrInvalidMagicHash _ => BadMagic
  | ErrUnknownTypeByte _ => UnknownTag
  | ErrIncompleteLengthField | ErrIncompleteData
  | ErrIncompleteLengthByte | ErrIncompleteIntegerData => Truncated
  | ErrIntegerTooLarge => InvalidInteger
  | ErrDictKeyNotString | ErrExpectedDictionary | ErrMissingTypeField
  | ErrUnexpectedDigest | ErrMajorVersionType | ErrMinorVersionType => TypeMismatch
  | ErrInvalidLength | ErrInvalidPaddingByte _ | ErrInvalidPaddingAt _ => BadPadding
  | ErrKeySize | ErrParsePrivateKey | ErrNotRSAPrivateKey | ErrOAEPDecryption
  | ErrDecodeEncKey1 | ErrDecodeEncKey2 => CryptoFailure
  | ErrDecodeStream c => match c with EOF => BadMagic | _ => kind_of c end
  | ErrPasswordHashMismatch => PasswordHashMismatch
  | ErrUnsupportedVersion a b => UnsupportedVersion a b
  | ErrSessionKeyPassword c | ErrSessionKeyPrivateKey c | ErrCreateDecryptor c => kind_of c
  | ErrNotEnoughInformation => MissingHeader
  | ErrSessionKeyHashMismatch => SessionKeyHashMismatch
  | ErrStripPadding _ => BadPadding
  end.

(* ================================================================= *)
(** ** crypto.go *)

Definition MD5Hash (data : list byte) : list byte := MD5.Sum data.

(** The [for len(fd) < keySize+ivSize] loop of [OpenSSLKDF]; [fuel] bounds
    the number of iterations. *)
Fixpoint kdf_loop (fuel count : nat) (password salt : list byte) (need : Z)
         (temp fd : list byte) : list byte :=
  match fuel with
  | O => fd
  | S f =>
      if Z.of_nat (List.length fd) <? need then
        let hashedCountTimes := Nat.iter count MD5Hash (temp ++ password ++ salt) in
        kdf_loop f count password salt need hashedCountTimes (fd ++ hashedCountTimes)
      else fd
  end.

(** [OpenSSLKDF].  The slice expressions [fd[:keySize]] and
    [fd[keySize:keySize+ivSize]] panic on a negative size. *)
Definition OpenSSLKDF (password salt : list byte) (keySize ivSize : Z)
  : outcome (list byte * list byte) :=
  let count := if Nat.ltb 0 (List.length salt) then 1000%nat else 1%nat in
  let fd := kdf_loop (Z.to_nat (keySize + ivSize)) count password salt
                     (keySize + ivSize) [] [] in
  if (keySize <? 0) || (ivSize <? 0) then Panics PanicSliceBounds
  else Ret (firstn (Z.to_nat keySize) fd,
            firstn (Z.to_nat ivSize) (skipn (Z.to_nat keySize) fd)).

(** The padding check loop: the first position from [i] on whose byte is
    not [pad]. *)
Fixpoint first_bad_padding (pad : byte) (i : nat) (tail : list byte) : option nat :=
  match tail with
  | [] => None
  | b :: t => if Byte.eqb b pad then first_bad_padding pad (S i) t else Some i
  end.

Definition StripPKCS7Padding (data : list byte) : outcome (list byte) :=
  let n := List.length data in
  if negb (Nat.eqb (n mod 16) 0) then Err ErrInvalidLength
  else
    match List.last (List.map Some data) None with
    | None => Panics PanicIndexOutOfRange
    | Some pad =>
        if 16 <? Z_of_byte pad then Err (ErrInvalidPaddingByte pad)
        else
          let start := (n - Z.to_nat (Z_of_byte pad))%nat in
          match first_bad_padding pad start (skipn start data) with
          | Some i => Err (ErrInvalidPaddingAt i)
          | None => Ret (firstn start data)
          end
    end.

(** [addPKCS7Padding], the helper of crypto_test.go. *)
Definition addPKCS7Padding (data : list byte) : list byte :=
  let blockSize := 16%nat in
  let padding := (blockSize - List.length data mod blockSize)%nat in
  data ++ repeat (byte_of_Z (Z.of_nat padding)) padding.

Definition CSENCPBKDF (password salt : list byte) : outcome (list byte * list byte) :=
  OpenSSLKDF password salt (256 / 8) 16.

Definition DecryptorWithKeyIV (key iv : list byte) : outcome AES.BlockMode :=
  match AES.NewCipher key with
  | None => Err ErrKeySize
  | Some block =>
      if Nat.eqb (List.length iv) 16 then Ret (AES.mkBlockMode block (to_Zs iv))
      else Panics PanicIVLength
  end.

Definition DecryptorWithPassword (password salt : list byte) : outcome AES.BlockMode :=
  '(key, iv) ← CSENCPBKDF password salt;
  DecryptorWithKeyIV key iv.

(** [decryptor.CryptBlocks(dst, src)] with a fresh [dst]. *)
Definition CryptBlocks (bm : AES.BlockMode) (src : list byte)
  : outcome (list byte * AES.BlockMode) :=
  match AES.CryptBlocks bm src with
  | Some r => Ret r
  | None => Panics PanicInputNotFullBlocks
  end.

Definition DecryptWithPassword (ciphertext password salt : list byte) : outcome (list byte) :=
  decryptor ← DecryptorWithPassword password salt;
  '(decrypted, _) ← CryptBlocks decryptor ciphertext;
  StripPKCS7Padding decrypted.

Definition SaltedHashOf (salt : string) (data : list byte) : string :=
  salt +:+ Hex.EncodeToString (MD5.Sum (bytes_of_string salt ++ data)).

(** [s[:n]] on a string whose length is at least [n]. *)
Definition string_prefix (n : nat) (s : string) : string := String.substring 0 n s.

Definition IsSaltedHashCorrect (saltedHash : string) (data : list byte) : bool :=
  if Nat.ltb (String.length saltedHash) 10 then false
  else if Nat.ltb (String.length saltedHash) (10 + 32) then false
  else
    let saltLen := (String.length saltedHash - 32)%nat in
    let saltLen := if Nat.ltb 10 saltLen then 10%nat else saltLen in
    String.eqb (SaltedHashOf (string_prefix saltLen saltedHash) data) saltedHash.

(* ================================================================= *)
(** ** decoder.go *)

(** The dynamic values [ReadObject] returns as [interface{}]: [nil],
    [int], [[]byte], [string] and [map[string]interface{}]. *)
#[warnings="-register-all"]
Inductive Value : Type :=
| VNil
| VInt (n : Z)
| VBytes (b : list byte)
| VString (s : string)
| VMap (m : gmap string Value).

Record StreamItem : Type := mkStreamItem {
  Key : string;
  Val : Value;
  Data : option (list byte);
  Error : option error;
}.

Definition ItemError (e : error) : StreamItem := mkStreamItem "" VNil None (Some e).
Definition ItemKV (k : string) (v : Value) : StreamItem := mkStreamItem k v None None.
Definition ItemData (d : list byte) : StreamItem := mkStreamItem "" VNil (Some d) None.

(** What the package takes from its surroundings.
    - [x509.ParsePKCS1PrivateKey], [x509.ParsePKCS8PrivateKey] (whose key
      may be of another algorithm: [Some None]) and [rsa.DecryptOAEP] with
      SHA-1.
    - The order in which [for k, v := range dict] visits a Go map, which
      the language leaves unspecified: [range_order n m] is the order taken
      for the [n]-th object of the stream, some arrangement of the entries
      of [m].
    - The external [lz4 -d] process, as the function from everything
      written to its standard input to everything it writes to its
      standard output; the process is assumed to start. *)
Class Platform : Type := {
  rsa_key : Type;
  ParsePKCS1PrivateKey : list byte -> option rsa_key;
  ParsePKCS8PrivateKey : list byte -> option (option rsa_key);
  DecryptOAEP : rsa_key -> list byte -> option (list byte);
  range_order : nat -> gmap string Value -> list (string * Value);
  range_order_perm : forall n m, Permutation (range_order n m) (map_to_list m);
  lz4_d : list byte -> list byte;
}.

Definition MagicHeader : string := "__CLOUDSYNC_ENC__".

(** The input is the reader of a regular file, as [files.DecryptFile]
    opens it: [Read] fills the buffer with the bytes that are left, at most
    [n] of them; at the end of the file it returns [0, io.EOF], and
    [0, nil] for an empty buffer.  A successful read returns the bytes read
    and the rest of the input. *)
Definition Read (n : nat) (input : list byte) : error + (list byte * list byte) :=
  match n, input with
  | O, _ => inr ([], input)
  | _, [] => inl EOF
  | _, _ => inr (firstn n input, skipn n input)
  end.

(** A decoding step either fails or returns a value and the rest of the
    input. *)
Definition decoded (A : Type) : Type := error + (A * list byte).

(** [read_exactly n short]: the pattern
    [n, err := sd.reader.Read(buf); if err != nil { return err };
     if n != len(buf) { return short }]. *)
Definition read_exactly (n : nat) (short : error) (input : list byte) : decoded (list byte) :=
  match Read n input with
  | inl e => inl e
  | inr (got, rest) => if Nat.eqb (List.length got) n then inr (got, rest) else inl short
  end.

Definition ValidateHeader (input : list byte) : decoded unit :=
  match read_exactly (String.length MagicHeader) ErrIncompleteMagicHeader input with
  | inl e => inl e
  | inr (magic, rest) =>
      if negb (String.eqb (string_of_bytes magic) MagicHeader)
      then inl (ErrInvalidMagicHeader (string_of_bytes magic))
      else
        match read_exactly 32 ErrIncompleteMagicHash rest with
        | inl e => inl e
        | inr (hashBytes, rest') =>
            let expectedHashStr := Hex.EncodeToString (MD5.Sum (bytes_of_string MagicHeader)) in
            if negb (String.eqb (string_of_bytes hashBytes) expectedHashStr)
            then inl (ErrInvalidMagicHash (string_of_bytes hashBytes))
            else inr (tt, rest')
        end
  end.

(** [binary.BigEndian.Uint16] *)
Definition Uint16 (b : list byte) : Z :=
  match b with
  | [hi; lo] => Z_of_byte hi * 256 + Z_of_byte lo
  | _ => 0
  end.

Definition readBytes (input : list byte) : decoded (list byte) :=
  match read_exactly 2 ErrIncompleteLengthField input with
  | inl e => inl e
  | inr (lengthBytes, rest) =>
      read_exactly (Z.to_nat (Uint16 lengthBytes)) ErrIncompleteData rest
  end.

Definition readString (input : list byte) : decoded string :=
  match readBytes input with
  | inl e => inl e
  | inr (data, rest) => inr (string_of_bytes data, rest)
  end.

(** [result = result<<8 | int(data[i])] on Go's [int]. *)
Definition int_shift_or (result : Z) (b : byte) : Z :=
  int64_wrap (Z.lor (Z.shiftl result 8) (Z_of_byte b)).

Definition readInt (input : list byte) : decoded Z :=
  match read_exactly 1 ErrIncompleteLengthByte input with
  | inl e => inl e
  | inr (lengthByte, rest) =>
      let length := Z.to_nat (Z_of_byte (nth 0 lengthByte x00)) in
      if Nat.ltb 8 length then inl ErrIntegerTooLarge
      else if Nat.eqb length 0 then inr (0, rest)
      else
        match read_exactly length ErrIncompleteIntegerData rest with
        | inl e => inl e
        | inr (data, rest') => inr (fold_left int_shift_or data 0, rest')
        end
  end.

(** The loop of [readOrderedDict] over a reader of objects; [None] when
    [fuel] runs out. *)
Fixpoint dict_loop (read_object : list byte -> option (decoded Value)) (fuel : nat)
         (result : gmap string Value) (input : list byte)
  : option (decoded (gmap string Value)) :=
  match fuel with
  | O => None
  | S f =>
      match read_object input with
      | None => None
      | Some (inl e) => Some (inl e)
      | Some (inr (VNil, rest)) => Some (inr (result, rest))
      | Some (inr (VString keyStr, rest)) =>
          match read_object rest with
          | None => None
          | Some (inl e) => Some (inl e)
          | Some (inr (value, rest')) => dict_loop read_object f (<[keyStr := value]> result) rest'
          end
      | Some (inr (_, _)) => Some (inl ErrDictKeyNotString)
      end
  end.

(** [ReadObject]; nested maps recurse, so the definition carries [fuel],
    and [None] means it ran out. *)
Fixpoint ReadObject (fuel : nat) (input : list byte) : option (decoded Value) :=
  match fuel with
  | O => None
  | S f =>
      match read_exactly 1 EOF input with
      | inl e => Some (inl e)
      | inr (headerByte, rest) =>
          match nth 0 headerByte x00 with
          | x42 =>
              match dict_loop (ReadObject f) f ∅ rest with
              | None => None
              | Some (inl e) => Some (inl e)
              | Some (inr (m, rest')) => Some (inr (VMap m, rest'))
              end
          | x40 => Some (inr (VNil, rest))
          | x11 =>
              match readBytes rest with
              | inl e => Some (inl e)
              | inr (b, rest') => Some (inr (VBytes b, rest'))
              end
          | x10 =>
              match readString rest with
              | inl e => Some (inl e)
              | inr (s, rest') => Some (inr (VString s, rest'))
              end
          | x01 =>
              match readInt rest with
              | inl e => Some (inl e)
              | inr (n, rest') => Some (inr (VInt n, rest'))
              end
          | b => Some (inl (ErrUnknownTypeByte b))
          end
      end
  end.

Definition readOrderedDict (fuel : nat) (input : list byte)
  : option (decoded (gmap string Value)) :=
  dict_loop (ReadObject fuel) fuel ∅ input.

(** Fuel that is enough for any object at the head of [input] (see
    [ReadObject_returns]). *)
Definition object_fuel (input : list byte) : nat := S (List.length input).

Section Stream.
Context `{Platform}.

(** What one object of the stream puts on the channel, and whether the
    goroutine goes on ([true]) or returns. *)
Definition emit (n : nat) (obj : Value) : list StreamItem * bool :=
  match obj with
  | VNil => ([], true)
  | VMap dict =>
      match dict !! "type"%string with
      | Some (VString itemType) =>
          if String.eqb itemType "metadata" then
            (List.map (fun kv => ItemKV (fst kv) (snd kv))
               (List.filter (fun kv => negb (String.eqb (fst kv) "type")) (range_order n dict)),
             true)
          else if String.eqb itemType "data" then
            match dict !! "data"%string with
            | Some (VBytes data) => ([ItemData data], true)
            | _ => ([], true)
            end
          else ([], true)
      | _ => ([ItemError ErrMissingTypeField], false)
      end
  | _ => ([ItemError ErrExpectedDictionary], false)
  end.

(** The goroutine of [DecodeCSEncStream]: everything it sends before it
    closes the channel.  [n] counts the objects read so far. *)
Fixpoint stream_loop (fuel n : nat) (input : list byte) : option (list StreamItem) :=
  match fuel with
  | O => None
  | S f =>
      match ReadObject (object_fuel input) input with
      | None => None
      | Some (inl EOF) => Some []
      | Some (inl err) => Some [ItemError err]
      | Some (inr (obj, rest)) =>
          let '(items, continue) := emit n obj in
          if continue then
            match stream_loop f (S n) rest with
            | Some more => Some (items ++ more)
            | None => None
            end
          else Some items
      end
  end.

(** [DecodeCSEncStream]: the error of [ValidateHeader], or the items of
    the channel. *)
Definition DecodeCSEncStream (input : list byte) : option (error + list StreamItem) :=
  match ValidateHeader input with
  | inl err => Some (inl err)
  | inr (_, rest) =>
      match stream_loop (S (List.length rest)) 0 rest with
      | Some items => Some (inr items)
      | None => None
      end
  end.

End Stream.

(* ================================================================= *)
(** ** decrypt.go *)

Record DecryptConfig : Type := mkDecryptConfig {
  Password : option (list byte);
  PrivateKey : option (list byte);
  PublicKey : option (list byte);
}.

(** The local variables of [DecryptStreamWithFilename], and the bytes
    written so far to the decompressor. *)
Record state : Type := mkState {
  sessionKey : option (list byte);
  decryptor : option AES.BlockMode;
  md5Digestor : bool;
  expectedMD5Digest : string;
  encKey1Bytes : option (list byte);
  encKey2Bytes : option (list byte);
  salt : list byte;
  sessionKeyHash : string;
  decryptedChunk : option (list byte);
  lz4_stdin : list byte;
}.

Definition initial : state := mkState None None false "" None None [] "" None [].

Definition set_md5Digestor (st : state) : state :=
  mkState (sessionKey st) (decryptor st) true (expectedMD5Digest st) (encKey1Bytes st)
          (encKey2Bytes st) (salt st) (sessionKeyHash st) (decryptedChunk st) (lz4_stdin st).
Definition set_expectedMD5Digest (v : string) (st : state) : state :=
  mkState (sessionKey st) (decryptor st) (md5Digestor st) v (encKey1Bytes st)
          (encKey2Bytes st) (salt st) (sessionKeyHash st) (decryptedChunk st) (lz4_stdin st).
Definition set_encKey1Bytes (v : list byte) (st : state) : state :=
  mkState (sessionKey st) (decryptor st) (md5Digestor st) (expectedMD5Digest st) (Some v)
          (encKey2Bytes st) (salt st) (sessionKeyHash st) (decryptedChunk st) (lz4_stdin st).
Definition set_encKey2Bytes (v : list byte) (st : state) : state :=
  mkState (sessionKey st) (decryptor st) (md5Digestor st) (expectedMD5Digest st)
          (encKey1Bytes st) (Some v) (salt st) (sessionKeyHash st) (decryptedChunk st)
          (lz4_stdin st).
Definition set_salt (v : list byte) (st : state) : state :=
  mkState (sessionKey st) (decryptor st) (md5Digestor st) (expectedMD5Digest st)
          (encKey1Bytes st) (encKey2Bytes st) v (sessionKeyHash st) (decryptedChunk st)
          (lz4_stdin st).
Definition set_sessionKeyHash (v : string) (st : state) : state :=
  mkState (sessionKey st) (decryptor st) (md5Digestor st) (expectedMD5Digest st)
          (encKey1Bytes st) (encKey2Bytes st) (salt st) v (decryptedChunk st) (lz4_stdin st).
Definition set_keys (key : list byte) (bm : AES.BlockMode) (st : state) : state :=
  mkState (Some key) (Some bm) (md5Digestor st) (expectedMD5Digest st)
          (encKey1Bytes st) (encKey2Bytes st) (salt st) (sessionKeyHash st)
          (decryptedChunk st) (lz4_stdin st).
Definition set_chunk (bm : AES.BlockMode) (chunk : list byte) (st : state) : state :=
  mkState (sessionKey st) (Some bm) (md5Digestor st) (expectedMD5Digest st)
          (encKey1Bytes st) (encKey2Bytes st) (salt st) (sessionKeyHash st)
          (Some chunk) (lz4_stdin st).
(** [decompressor.Write(data)]; its error is not looked at. *)
Definition decompressor_Write (data : list byte) (st : state) : state :=
  mkState (sessionKey st) (decryptor st) (md5Digestor st) (expectedMD5Digest st)
          (encKey1Bytes st) (encKey2Bytes st) (salt st) (sessionKeyHash st)
          (decryptedChunk st) (lz4_stdin st ++ data).

Section Driver.
Context `{Platform}.

Definition DecryptWithPrivateKey (ciphertext privateKey : list byte) : outcome (list byte) :=
  let decrypt (privKey : rsa_key) :=
    match DecryptOAEP privKey ciphertext with
    | Some plaintext => Ret plaintext
    | None => Err ErrOAEPDecryption
    end in
  match ParsePKCS1PrivateKey privateKey with
  | Some privKey => decrypt privKey
  | None =>
      match ParsePKCS8PrivateKey privateKey with
      | None => Err ErrParsePrivateKey
      | Some None => Err ErrNotRSAPrivateKey
      | Some (Some privKey) => decrypt privKey
      end
  end.

(** [case "version":] *)
Definition on_version (value : Value) : outcome unit :=
  match value with
  | VMap version =>
      match version !! "major"%string with
      | Some (VInt major) =>
          match version !! "minor"%string with
          | Some (VInt minor) =>
              if negb (major =? 1) && negb (major =? 3)
              then Err (ErrUnsupportedVersion major minor)
              else Ret tt
          | _ => Err ErrMinorVersionType
          end
      | _ => Err ErrMajorVersionType
      end
  | _ => Ret tt
  end.

(** [case "key1_hash":] with its unchecked type assertion and slice. *)
Definition on_key1_hash (config : DecryptConfig) (st : state) (value : Value) : outcome unit :=
  match Password config, encKey1Bytes st with
  | Some password, Some _ =>
      match value with
      | VString s =>
          if Nat.ltb (String.length s) 10 then Panics PanicSliceBounds
          else
            let actualPasswordHash := SaltedHashOf (string_prefix 10 s) password in
            if negb (String.eqb actualPasswordHash s) then Err ErrPasswordHashMismatch
            else Ret tt
      | _ => Panics PanicTypeAssertion
      end
  | _, _ => Ret tt
  end.

(** [if item.Key != "" { switch item.Key { ... } }] *)
Definition on_header (config : DecryptConfig) (st : state) (key : string) (value : Value)
  : outcome state :=
  if String.eqb key "digest" then
    match value with
    | VString s => if String.eqb s "md5" then Ret (set_md5Digestor st)
                   else Err ErrUnexpectedDigest
    | _ => Err ErrUnexpectedDigest
    end
  else if String.eqb key "enc_key1" then
    match value with
    | VString str =>
        match Base64.DecodeString str with
        | Some b => Ret (set_encKey1Bytes b st)
        | None => Err ErrDecodeEncKey1
        end
    | _ => Ret st
    end
  else if String.eqb key "enc_key2" then
    match value with
    | VString str =>
        match Base64.DecodeString str with
        | Some b => Ret (set_encKey2Bytes b st)
        | None => Err ErrDecodeEncKey2
        end
    | _ => Ret st
    end
  else if String.eqb key "key1_hash" then
    _ ← on_key1_hash config st value; Ret st
  else if String.eqb key "salt" then
    match value with
    | VString str => Ret (set_salt (bytes_of_string str) st)
    | _ => Ret st
    end
  else if String.eqb key "session_key_hash" then
    match value with
    | VString str => Ret (set_sessionKeyHash str st)
    | _ => Ret st
    end
  else if String.eqb key "version" then
    _ ← on_version value; Ret st
  else if String.eqb key "file_md5" then
    match value with
    | VString str => Ret (set_expectedMD5Digest str st)
    | _ => Ret st
    end
  else Ret st.

(** The session key: by password, else by private key, else [nil]. *)
Definition unwrap_session_key (config : DecryptConfig) (st : state)
  : outcome (option (list byte)) :=
  match Password config, encKey1Bytes st with
  | Some password, Some encKey1 =>
      key ← wrap ErrSessionKeyPassword (DecryptWithPassword encKey1 password (salt st));
      Ret (Some key)
  | _, _ =>
      match PrivateKey config, encKey2Bytes st with
      | Some privateKey, Some encKey2 =>
          key ← wrap ErrSessionKeyPrivateKey (DecryptWithPrivateKey encKey2 privateKey);
          Ret (Some key)
      | _, _ => Ret (sessionKey st)
      end
  end.

Definition check_session_key_hash (sessionKeyHash : string) (sessionKey : list byte)
  : outcome unit :=
  if negb (String.eqb sessionKeyHash "") then
    let saltLen := String.length sessionKeyHash in
    let saltLen := if Nat.ltb 10 saltLen then 10%nat else saltLen in
    if Nat.ltb 0 saltLen then
      let actualSessionKeyHash := SaltedHashOf (string_prefix saltLen sessionKeyHash) sessionKey in
      if negb (String.eqb sessionKeyHash actualSessionKeyHash)
      then Err ErrSessionKeyHashMismatch
      else Ret tt
    else Ret tt
  else Ret tt.

(** The bytes handed to [DecryptorWithPassword] for the data stream. *)
Definition stream_key_material (salt sessionKey : list byte) : list byte :=
  if Nat.ltb 0 (List.length salt) then
    match Hex.Decode sessionKey with
    | None => sessionKey
    | Some sessionKeyHex => sessionKeyHex
    end
  else sessionKey.

(** [if decryptor == nil { ... }]: unwrap the key, check its hash, build
    the block decryptor.  Returns the decryptor to use. *)
Definition ensure_decryptor (config : DecryptConfig) (st : state)
  : outcome (state * AES.BlockMode) :=
  match decryptor st with
  | Some blockMode => Ret (st, blockMode)
  | None =>
      unwrapped ← unwrap_session_key config st;
      match unwrapped with
      | None => Err ErrNotEnoughInformation
      | Some key =>
          _ ← check_session_key_hash (sessionKeyHash st) key;
          blockMode ← wrap ErrCreateDecryptor
                      (DecryptorWithPassword (stream_key_material (salt st) key) []);
          Ret (set_keys key blockMode st, blockMode)
      end
  end.

(** A step leaves a state behind and either goes on ([Ret]) or is the
    function's return ([Err], [Panics]). *)
Definition stepped : Type := state * outcome unit.

Definition lift (st : state) (m : outcome state) : stepped :=
  match m with
  | Ret st' => (st', Ret tt)
  | Err e => (st, Err e)
  | Panics p => (st, Panics p)
  end.

(** [else if item.Data != nil { ... }] *)
Definition on_data (config : DecryptConfig) (st : state) (data : list byte) : stepped :=
  match ensure_decryptor config st with
  | Ret (st, blockMode) =>
      let st := match decryptedChunk st with
                | Some chunk => decompressor_Write chunk st
                | None => st
                end in
      lift st ('(plaintext, blockMode') ← CryptBlocks blockMode data;
               Ret (set_chunk blockMode' plaintext st))
  | Err e => (st, Err e)
  | Panics p => (st, Panics p)
  end.

(** One iteration of [for item := range ch]. *)
Definition step (config : DecryptConfig) (st : state) (item : StreamItem) : stepped :=
  match Error item with
  | Some err => (st, Err err)
  | None =>
      if negb (String.eqb (Key item) "")
      then lift st (on_header config st (Key item) (Val item))
      else
        match Data item with
        | Some data => on_data config st data
        | None => (st, Ret tt)
        end
  end.

(** The state at the return, and what is returned. *)
Record result : Type := mkResult { at_return : state; returned : outcome unit }.

Fixpoint consume (config : DecryptConfig) (items : list StreamItem) (st : state) : stepped :=
  match items with
  | [] => (st, Ret tt)
  | item :: rest =>
      match step config st item with
      | (st', Ret _) => consume config rest st'
      | failure => failure
      end
  end.

(** After the loop: the held-back chunk loses its padding and is written. *)
Definition flush_last (st : state) : stepped :=
  match decryptedChunk st with
  | Some chunk =>
      lift st (padded ← wrap ErrStripPadding (StripPKCS7Padding chunk);
               Ret (decompressor_Write padded st))
  | None => (st, Ret tt)
  end.

(** What the output writer has received: the output of [lz4 -d]. *)
Definition written (st : state) : list byte := lz4_d (lz4_stdin st).

(** The digest comparison.  The handler feeds the digest with what it
    writes; a difference changes nothing. *)
Definition verify_md5 (st : state) : outcome unit :=
  if md5Digestor st && negb (String.eqb (expectedMD5Digest st) "") then
    let actualMD5Digest := Hex.EncodeToString (MD5.Sum (written st)) in
    if negb (String.eqb actualMD5Digest (expectedMD5Digest st)) then Ret tt
    else Ret tt
  else Ret tt.

Definition drive (config : DecryptConfig) (items : list StreamItem) : result :=
  match consume config items initial with
  | (st, Ret _) =>
      match flush_last st with
      | (st', Ret _) => mkResult st' (verify_md5 st')
      | (st', failure) => mkResult st' failure
      end
  | (st, failure) => mkResult st failure
  end.

(** [DecryptStreamWithFilename]; the file name only labels diagnostics of
    the decompressor.  [None] would mean the decoder ran out of fuel
    (it never does: [DecryptStreamWithFilename_returns]). *)
Definition DecryptStreamWithFilename (input : list byte) (config : DecryptConfig)
  : option result :=
  match DecodeCSEncStream input with
  | None => None
  | Some (inl err) => Some (mkResult initial (Err (ErrDecodeStream err)))
  | Some (inr items) => Some (drive config items)
  end.

Definition DecryptStream (input : list byte) (config : DecryptConfig) : option result :=
  DecryptStreamWithFilename input config.

End Driver.

(* ================================================================= *)
(** ** Writing containers

    The wire format of the specification's section 4.1, used to write the
    inputs of the examples below (the package itself has no encoder). *)

Module Wire.

Definition be16 (n : nat) : list byte :=
  [byte_of_Z (Z.of_nat n / 256); byte_of_Z (Z.of_nat n)].

Definition text (s : string) : list byte :=
  x10 :: be16 (String.length s) ++ bytes_of_string s.

Definition blob (b : list byte) : list byte :=
  x11 :: be16 (List.length b) ++ b.

(** An integer on [width] bytes. *)
Definition int (width : list byte) (body : list byte) : list byte :=
  x01 :: width ++ body.

Definition small (n : Z) : list byte := int [x01] [byte_of_Z n].

Definition map (entries : list (string * list byte)) : list byte :=
  x42 :: List.flat_map (fun kv => text (fst kv) ++ snd kv) entries ++ [x40].

Definition preamble : list byte :=
  bytes_of_string MagicHeader
    ++ bytes_of_string (Hex.EncodeToString (MD5.Sum (bytes_of_string MagicHeader))).

Definition metadata (key : string) (value : list byte) : list byte :=
  map [("type"%string, text "metadata"); (key, value)].

Definition data (chunk : list byte) : list byte :=
  map [("type"%string, text "data"); ("data"%string, blob chunk)].

Definition version (major minor : Z) : list byte :=
  metadata "version" (map [("major"%string, small major); ("minor"%string, small minor)]).

End Wire.

(** A configuration with the password ["pw"]. *)
Definition config_pw : DecryptConfig :=
  mkDecryptConfig (Some (bytes_of_string "pw")) None None.

(** The session key of the sample containers: 64 characters that are also
    hexadecimal digits, wrapped under the password ["pw"] and no salt. *)
Definition sample_session_key : list byte :=
  bytes_of_string "00112233445566778899aabbccddeeff00112233445566778899aabbccddeeff".

Definition sample_enc_key1 : string :=
  "CjKPRKj0OwYSVK+kMBZCkWUIcl5GOx4K+3Ul/Qqfa69nneecUPh2ONIY3WtdWlg2" ++
  "RJJ4LG2ooELEiBIzmLNWM1h3fqzfo7xLzOa/vt2vCoM=".

(** The plaintext of the sample data chunk: an LZ4 frame that stores
    ["hello world"] in one uncompressed block. *)
Definition sample_frame : list byte :=
  Hex.of_text "04224d186040820b00008068656c6c6f20776f726c6400000000".

(** A container without salt that declares the version [major.minor] and
    the digest [file_md5]: the data chunk is [sample_frame], padded, under
    the key and IV derived from the raw session key. *)
Definition sample_container (major minor : Z) (file_md5 : string) : list byte :=
  Wire.preamble
    ++ Wire.version major minor
    ++ Wire.metadata "digest" (Wire.text "md5")
    ++ Wire.metadata "enc_key1" (Wire.text sample_enc_key1)
    ++ Wire.metadata "key1_hash" (Wire.text "0123456789e02608cd2b6dc077e53a2090f1c35397")
    ++ Wire.metadata "session_key_hash"
         (Wire.text "abcdefghij7863c1bb6c2468f2a68053c0e1b424ae")
    ++ Wire.data (Hex.of_text "4d8c42bfd3c4d948f562bd52c683b9c8d0f59f9d46a83c260990678a9045fcec")
    ++ Wire.metadata "file_md5" (Wire.text file_md5).

(** Version 1.0 with the MD5 of ["hello world"]. *)
Definition sample_v1 : list byte :=
  sample_container 1 0 "5eb63bbbe01eeed093cb22bb8f5acdc3".

(** The same container with one wrong character in [file_md5]. *)
Definition sample_v1_wrong_md5 : list byte :=
  sample_container 1 0 "5eb63bbbe01eeed093cb22bb8f5acdc4".

(** The same container declaring version 3.1. *)
Definition sample_v3 : list byte :=
  sample_container 3 1 "5eb63bbbe01eeed093cb22bb8f5acdc3".

(* ================================================================= *)
(** ** Platforms to run the model on *)

Module Lz4Stored.

(** The LZ4 frames whose blocks are all stored uncompressed, with the
    7-byte header of a frame without content size or dictionary id;
    nothing is printed for any other input. *)
Definition le32 (b : list byte) : Z :=
  match to_Zs b with
  | [a0; a1; a2; a3] => a0 + 256 * a1 + 65536 * a2 + 16777216 * a3
  | _ => 0
  end.

Fixpoint blocks (fuel : nat) (input : list byte) : list byte :=
  match fuel with
  | O => []
  | S f =>
      let size := le32 (firstn 4 input) in
      if size =? 0 then []
      else if size <? 2147483648 then []
      else
        let n := Z.to_nat (size - 2147483648) in
        firstn n (skipn 4 input) ++ blocks f (skipn (4 + n) input)
  end.

Definition decompress (input : list byte) : list byte :=
  if Z.eqb (le32 (firstn 4 input)) 407708164
  then blocks (List.length input) (skipn 7 input)
  else [].

End Lz4Stored.

(** A platform on which no private key parses, [range] visits a map in
    the order of [map_to_list], and lz4 is [Lz4Stored.decompress]. *)
Definition platform_sorted : Platform := {|
  rsa_key := Empty_set;
  ParsePKCS1PrivateKey := fun _ => None;
  ParsePKCS8PrivateKey := fun _ => None;
  DecryptOAEP := fun _ _ => None;
  range_order := fun _ m => map_to_list m;
  range_order_perm := fun _ m => Permutation_refl (map_to_list m);
  lz4_d := Lz4Stored.decompress;
|}.

(** The same platform, but [range] visits a map in the opposite order. *)
Definition platform_reversed : Platform := {|
  rsa_key := Empty_set;
  ParsePKCS1PrivateKey := fun _ => None;
  ParsePKCS8PrivateKey := fun _ => None;
  DecryptOAEP := fun _ _ => None;
  range_order := fun _ m => rev (map_to_list m);
  range_order_perm := fun _ m => Permutation_sym (Permutation_rev (map_to_list m));
  lz4_d := Lz4Stored.decompress;
|}.

(** Objects that put the same items on the channel whatever the order of
    [range]: a map with at most one entry besides [type]. *)
Definition one_header (obj : Value) : bool :=
  match obj with
  | VMap dict =>
      Nat.leb (List.length (List.filter (fun kv => negb (String.eqb (fst kv) "type"))
                                        (map_to_list dict))) 1
  | _ => true
  end.

Fixpoint one_header_each (fuel : nat) (input : list byte) : bool :=
  match fuel with
  | O => true
  | S f =>
      match ReadObject (object_fuel input) input with
      | Some (inr (obj, rest)) => one_header obj && one_header_each f rest
      | _ => true
      end
  end.

(** The items of the channel for [input], when there are any. *)
Definition items_of `{Platform} (input : list byte) : list StreamItem :=
  match DecodeCSEncStream input with
  | Some (inr items) => items
  | _ => []
  end.

(** Inputs with a valid preamble followed by such objects only. *)
Definition one_header_per_map (input : list byte) : bool :=
  match ValidateHeader input with
  | inl _ => true
  | inr (_, rest) => one_header_each (S (List.length rest)) rest
  end.

(* ================================================================= *)
(** ** Definitions the properties are stated with *)

(** The value the specification gives an integer body: its bytes read as
    a big-endian unsigned number. *)
Definition big_endian_unsigned (body : list byte) : Z :=
  fold_left (fun acc b => acc * 256 + Z_of_byte b) body 0.

(** The derivation as the specification words it (section 4.2): the count
    is 1 for an empty salt and 1000 otherwise; block [i] is MD5 applied
    [count] times to the previous block followed by the password and the
    salt, the block before the first being empty; the blocks are
    concatenated until there are at least [Kn + Vn] bytes; the key is the
    first [Kn] bytes and the IV the next [Vn]. *)
Module EVP.

Definition count (S : list byte) : nat :=
  match S with
  | [] => 1%nat
  | _ :: _ => 1000%nat
  end.

Definition block (count : nat) (previous P S : list byte) : list byte :=
  Nat.iter count MD5.Sum (previous ++ P ++ S).

Fixpoint blocks (n count : nat) (previous P S : list byte) : list (list byte) :=
  match n with
  | O => []
  | Datatypes.S n' =>
      let h := block count previous P S in
      h :: blocks n' count h P S
  end.

(** The least number of 16-byte blocks that hold [total] bytes. *)
Definition blocks_for (total : Z) : nat := Z.to_nat ((total + 15) / 16).

Definition BytesToKey (P S : list byte) (Kn Vn : nat) : list byte * list byte :=
  let fd := List.concat (blocks (blocks_for (Z.of_nat Kn + Z.of_nat Vn)) (count S) [] P S) in
  (firstn Kn fd, firstn Vn (skipn Kn fd)).

End EVP.

(** The unwrap path the specification names for a configuration and the
    headers decoded so far. *)
Inductive unwrap_path : Type := ByPassword | ByPrivateKey | NoPath.

Definition key_unwrap_path (config : DecryptConfig) (st : state) : unwrap_path :=
  if bool_decide (Password config <> None) && bool_decide (encKey1Bytes st <> None)
  then ByPassword
  else if bool_decide (PrivateKey config <> None) && bool_decide (encKey2Bytes st <> None)
       then ByPrivateKey
       else NoPath.

(** The AES key schedule of the data-stream decryptor built from
    [material]. *)
Definition key_schedule_from (material : list byte) : option (list (list Z)) :=
  match DecryptorWithPassword material [] with
  | Ret blockMode => Some (AES.schedule blockMode)
  | _ => None
  end.

(** The container of the specification's fourth scenario. *)
Definition sample_version_2_0 : list byte := Wire.preamble ++ Wire.version 2 0.

Definition version_2_0 : gmap string Value :=
  <["major"%string := VInt 2]> (<["minor"%string := VInt 0]> ∅).

(** One metadata map with two headers, [enc_key1] before [key1_hash] (the
    salted hash of the password ["pw"]). *)
Definition sample_two_headers : list byte :=
  Wire.preamble
    ++ Wire.map [("type"%string, Wire.text "metadata");
                 ("enc_key1"%string, Wire.text sample_enc_key1);
                 ("key1_hash"%string, Wire.text "0123456789e02608cd2b6dc077e53a2090f1c35397")].

Definition config_other_password : DecryptConfig :=
  mkDecryptConfig (Some (bytes_of_string "other")) None None.

(** [enc_key1], then a [key1_hash] of five characters. *)
Definition sample_short_key1_hash : list byte :=
  Wire.preamble
    ++ Wire.metadata "enc_key1" (Wire.text sample_enc_key1)
    ++ Wire.metadata "key1_hash" (Wire.text "short").

(** [enc_key1], then a [key1_hash] that is a byte string. *)
Definition sample_bytes_key1_hash : list byte :=
  Wire.preamble
    ++ Wire.metadata "enc_key1" (Wire.text sample_enc_key1)
    ++ Wire.metadata "key1_hash" (Wire.blob (bytes_of_string "0123456789e02608cd2b6dc077e53a2090f1c35397")).

(** An empty [enc_key1], then a data chunk. *)
Definition sample_empty_enc_key1 : list byte :=
  Wire.preamble
    ++ Wire.metadata "enc_key1" (Wire.text "")
    ++ Wire.data (Hex.of_text "4d8c42bfd3c4d948f562bd52c683b9c8").

(** A successful step of the decoder leaves at most [List.length input - c]
    bytes. *)
Definition consumes {A : Type} (c : nat) (input : list byte) (r : decoded A) : Prop :=
  match r with
  | inl _ => True
  | inr (_, rest) => (List.length rest + c <= List.length input)%nat
  end.

(** What enough fuel buys: a result, which on success has consumed a byte. *)
Definition returns {A : Type} (input : list byte) (o : option (decoded A)) : Prop :=
  exists r, o = Some r /\ consumes 1 input r.

(** States that differ at most in the expected digest. *)
Definition same_but_digest (st1 st2 : state) : Prop :=
  exists d, st2 = set_expectedMD5Digest d st1.

(** Before the first data chunk there is no session key. *)
Definition no_key_yet (st : state) : Prop := decryptor st = None -> sessionKey st = None.







(** ** Encoded objects

    The objects of the wire format as trees, their encoding, and the value
    the decoder is to return for them: a map is filled in the order of its
    pairs, so the last pair of a repeated key wins. *)
Module Encoded.

#[warnings="-register-all"]
Inductive obj : Type :=
| ONull
| OInt (body : list byte)
| OBytes (b : list byte)
| OText (s : string)
| OMap (entries : list (string * obj)).

Fixpoint encode (o : obj) : list byte :=
  match o with
  | ONull => [x40]
  | OInt body => Wire.int [byte_of_Z (Z.of_nat (List.length body))] body
  | OBytes b => Wire.blob b
  | OText s => Wire.text s
  | OMap entries =>
      x42 :: (fix pairs (l : list (string * obj)) : list byte :=
                match l with
                | [] => [x40]
                | (k, v) :: rest => Wire.text k ++ encode v ++ pairs rest
                end) entries
  end.

(** The encoding of the pairs of a map, with its terminator. *)
Fixpoint encode_pairs (l : list (string * obj)) : list byte :=
  match l with
  | [] => [x40]
  | (k, v) :: rest => Wire.text k ++ encode v ++ encode_pairs rest
  end.

Fixpoint value_of (o : obj) : Value :=
  match o with
  | ONull => VNil
  | OInt body => VInt (fold_left int_shift_or body 0)
  | OBytes b => VBytes b
  | OText s => VString s
  | OMap entries =>
      VMap ((fix fill (l : list (string * obj)) (m : gmap string Value) : gmap string Value :=
               match l with
               | [] => m
               | (k, v) :: rest => fill rest (<[k := value_of v]> m)
               end) entries ∅)
  end.

Fixpoint fill (l : list (string * obj)) (m : gmap string Value) : gmap string Value :=
  match l with
  | [] => m
  | (k, v) :: rest => fill rest (<[k := value_of v]> m)
  end.

(** Objects the format can carry: lengths fit their fields. *)
Fixpoint fits (o : obj) : Prop :=
  match o with
  | ONull => True
  | OInt body => Z.of_nat (List.length body) <= 8
  | OBytes b => Z.of_nat (List.length b) < 65536
  | OText s => Z.of_nat (String.length s) < 65536
  | OMap entries =>
      (fix all (l : list (string * obj)) : Prop :=
         match l with
         | [] => True
         | (k, v) :: rest => Z.of_nat (String.length k) < 65536 /\ fits v /\ all rest
         end) entries
  end.

Fixpoint fit_pairs (l : list (string * obj)) : Prop :=
  match l with
  | [] => True
  | (k, v) :: rest => Z.of_nat (String.length k) < 65536 /\ fits v /\ fit_pairs rest
  end.

(** The value of a [version] header. *)
Definition version_3_1 : obj :=
  OMap [("major"%string, OInt [x03]); ("minor"%string, OInt [x01])].

(** The two kinds of top-level map. *)
Inductive record : Type :=
| Metadata (key : string) (value : obj)
| Chunk (data : list byte).

Definition encode_record (r : record) : list byte :=
  match r with
  | Metadata key value => Wire.metadata key (encode value)
  | Chunk data => Wire.data data
  end.

Definition item_of (r : record) : StreamItem :=
  match r with
  | Metadata key value => ItemKV key (value_of value)
  | Chunk data => ItemData data
  end.

(** The object a record is written as. *)
Definition object_of (r : record) : obj :=
  match r with
  | Metadata key value => OMap [("type"%string, OText "metadata"); (key, value)]
  | Chunk data => OMap [("type"%string, OText "data"); ("data"%string, OBytes data)]
  end.

Definition fits_record (r : record) : Prop :=
  match r with
  | Metadata key value =>
      key <> "type"%string /\ Z.of_nat (String.length key) < 65536 /\ fits value
  | Chunk data => Z.of_nat (List.length data) < 65536
  end.

End Encoded.

(** A block decryptor whose first round key and chaining value are one
    block long. *)
Definition block_sized (blockMode : AES.BlockMode) : Prop :=
  AES.schedule blockMode <> []
  /\ List.length (nth 0 (AES.schedule blockMode) []) = 16%nat
  /\ List.length (AES.iv blockMode) = 16%nat.

(** Byte strings that are a whole number of blocks, and at least one. *)
Definition whole_blocksb (b : list byte) : bool :=
  negb (Nat.eqb (List.length b) 0) && Nat.eqb (List.length b mod 16) 0.

(** Items on which the driver indexes and slices within bounds: a
    [key1_hash] that is a string of at least ten characters, an [enc_key1]
    that decodes to whole blocks, data chunks of whole blocks. *)
Definition tame (item : StreamItem) : bool :=
  (if String.eqb (Key item) "key1_hash"
   then match Val item with
        | VString s => Nat.leb 10 (String.length s)
        | _ => false
        end
   else true)
  && (if String.eqb (Key item) "enc_key1"
      then match Val item with
           | VString s =>
               match Base64.DecodeString s with
               | Some b => whole_blocksb b
               | None => true
               end
           | _ => true
           end
      else true)
  && match Data item with
     | Some d => whole_blocksb d
     | None => true
     end.

(** What the driver keeps true on such items. *)
Definition kept (st : state) : Prop :=
  (forall b, encKey1Bytes st = Some b -> whole_blocksb b = true)
  /\ (forall blockMode, decryptor st = Some blockMode -> block_sized blockMode)
  /\ (forall chunk, decryptedChunk st = Some chunk -> chunk <> []).

(** The chunk held back until the next one arrives. *)
Definition pending (st : state) : list byte :=
  match decryptedChunk st with
  | Some chunk => chunk
  | None => []
  end.

(** The data chunks among the items, as the loop tells them apart. *)
Definition chunks_of (items : list StreamItem) : list (list byte) :=
  flat_map (fun item =>
              match Error item, String.eqb (Key item) "", Data item with
              | None, true, Some data => [data]
              | _, _, _ => []
              end) items.

(** The decryptor of the sample session key, and a state that holds it. *)
Definition sample_decryptor : AES.BlockMode :=
  match DecryptorWithPassword sample_session_key [] with
  | Ret blockMode => blockMode
  | _ => AES.mkBlockMode [] []
  end.

Definition sample_keyed : state := set_keys sample_session_key sample_decryptor initial.

(** Two data chunks of one and two blocks around a header. *)
Definition sample_chunks : list StreamItem :=
  [ItemData (Hex.of_text "4d8c42bfd3c4d948f562bd52c683b9c8");
   ItemKV "file_md5" (VString "5eb63bbbe01eeed093cb22bb8f5acdc3");
   ItemData (Hex.of_text "d0f59f9d46a83c260990678a9045fcec00112233445566778899aabbccddeeff")].

(** The items the goroutine sends before an error: a header other than
    [type], or a data chunk. *)
Definition payload_item (item : StreamItem) : Prop :=
  (exists key value, item = ItemKV key value /\ key <> "type"%string)
  \/ (exists data, item = ItemData data).

(** A metadata map with the two headers [digest] and [salt]. *)
Definition sample_headers : gmap string Value :=
  <["salt"%string := VString "0123456789"]>
    (<["digest"%string := VString "md5"]> (<["type"%string := VString "metadata"]> ∅)).

(** The records of a small container. *)
Definition sample_records : list Encoded.record :=
  [Encoded.Metadata "version" Encoded.version_3_1;
   Encoded.Metadata "digest" (Encoded.OText "md5");
   Encoded.Chunk (Hex.of_text "00112233445566778899aabbccddeeff");
   Encoded.Metadata "file_md5" (Encoded.OText "5eb63bbbe01eeed093cb22bb8f5acdc3")].

(* ================================================================= *)
(** ** pkg/files: results.go *)

Module files.

(** [DecryptResult], without its three time fields. *)
Record DecryptResult : Type := mkDecryptResult {
  InputFile : string;
  OutputFile : string;
  Success : bool;
  ErrorText : string;
  FileSize : Z;
  FileCount : Z;
  FileSuccessCount : Z;
  FileFailedCount : Z;
}.

(** [DecryptResults], without its mutex and time fields; the counters
    are Go [int]s. *)
Record DecryptResults : Type := mkDecryptResults {
  Results : list DecryptResult;
  TotalFiles : Z;
  SuccessCount : Z;
  FailedCount : Z;
}.

Definition NewDecryptResults : DecryptResults := mkDecryptResults [] 0 0 0.

(** [AddResult], which runs under the mutex from start to end. *)
Definition AddResult (dr : DecryptResults) (result : DecryptResult) : DecryptResults :=
  let dr := mkDecryptResults (Results dr ++ [result]) (TotalFiles dr) (SuccessCount dr)
                             (FailedCount dr) in
  let dr := if Success result
            then mkDecryptResults (Results dr) (TotalFiles dr)
                                  (int64_wrap (SuccessCount dr + 1)) (FailedCount dr)
            else mkDecryptResults (Results dr) (TotalFiles dr) (SuccessCount dr)
                                  (int64_wrap (FailedCount dr + 1)) in
  mkDecryptResults (Results dr) (int64_wrap (TotalFiles dr + 1)) (SuccessCount dr)
                   (FailedCount dr).

(** The number of results with the given outcome. *)
Definition count (success : bool) (results : list DecryptResult) : Z :=
  Z.of_nat (List.length (List.filter (fun r => Bool.eqb (Success r) success) results)).

Definition sample_results : list DecryptResult :=
  [mkDecryptResult "a.cse" "a" true "" 11 0 0 0;
   mkDecryptResult "b.cse" "b" false "decryption failed" 0 0 0 0;
   mkDecryptResult "c.cse" "c" true "" 5 0 0 0].

(** ** pkg/files: file names

    [filepath.Ext] and [filepath.Base] on a system whose only path
    separator is the slash and that has no volume names. *)

Definition IsPathSeparator (c : Ascii.ascii) : bool := Ascii.eqb c (Ascii.ascii_of_byte "/"%byte).

(** The loop of [filepath.Ext], from the last character down: [acc] is
    what has been passed. *)
Fixpoint ext_scan (reversed acc : list Ascii.ascii) : list Ascii.ascii :=
  match reversed with
  | [] => []
  | c :: before =>
      if IsPathSeparator c then []
      else if Ascii.eqb c (Ascii.ascii_of_byte "."%byte) then c :: acc
      else ext_scan before (c :: acc)
  end.

Definition dot : Ascii.ascii := Ascii.ascii_of_byte "."%byte.

(** The characters the loop passes over. *)
Definition plain (c : Ascii.ascii) : Prop :=
  IsPathSeparator c = false /\ Ascii.eqb c dot = false.

Definition Ext (path : string) : string :=
  string_of_list_ascii (ext_scan (rev (list_ascii_of_string path)) []).

(** [filepath.Base]: strip the trailing separators, keep what follows
    the last separator left. *)
Fixpoint strip_trailing (reversed : list Ascii.ascii) : list Ascii.ascii :=
  match reversed with
  | [] => []
  | c :: before => if IsPathSeparator c then strip_trailing before else reversed
  end.

Fixpoint last_element (reversed acc : list Ascii.ascii) : list Ascii.ascii :=
  match reversed with
  | [] => acc
  | c :: before => if IsPathSeparator c then acc else last_element before (c :: acc)
  end.

Definition Base (path : string) : string :=
  if String.eqb path "" then "."%string
  else
    let path := last_element (strip_trailing (rev (list_ascii_of_string path))) [] in
    match path with
    | [] => "/"%string
    | _ => string_of_list_ascii path
    end.

Definition IsEncryptedFile (filename : string) : bool :=
  let ext := Ext filename in
  String.eqb ext ".cse" || String.eqb ext ".enc" || String.eqb ext ".cloudsync".

(** [baseName[:len(baseName)-len(ext)]] is within bounds, [ext] being
    an end of [baseName]. *)
Definition GenerateOutputFilename (inputFile : string) : string :=
  let baseName := Base inputFile in
  let ext := Ext baseName in
  if String.eqb ext ".cse" || String.eqb ext ".enc" || String.eqb ext ".cloudsync"
  then string_prefix (String.length baseName - String.length ext) baseName
  else baseName +:+ ".decrypted".

End files.

(* ================================================================= *)
(** * Properties *)

Section ByteFacts.

Lemma Z_of_byte_range (b : byte) : 0 <= Z_of_byte b < 256.
Proof.
  unfold Z_of_byte. pose proof (Byte.to_N_bounded b). lia.
Qed.

Lemma Z_of_byte_of_Z (z : Z) : Z_of_byte (byte_of_Z z) = z mod 256.
Proof.
  unfold Z_of_byte, byte_of_Z.
  assert (Hr : 0 <= z mod 256 < 256) by (apply Z.mod_pos_bound; lia).
  destruct (Byte.of_N (Z.to_N (z mod 256))) as [b|] eqn:E.
  - apply Byte.to_of_N in E. rewrite E. lia.
  - apply Byte.of_N_None_iff in E. lia.
Qed.

Lemma byte_of_Z_of_byte (b : byte) : byte_of_Z (Z_of_byte b) = b.
Proof.
  unfold byte_of_Z. pose proof (Z_of_byte_range b) as Hr.
  rewrite Z.mod_small by lia. unfold Z_of_byte.
  rewrite N2Z.id, Byte.of_to_N. reflexivity.
Qed.

Lemma byte_eqb_refl (b : byte) : Byte.eqb b b = true.
Proof. apply Byte.byte_dec_lb. reflexivity. Qed.

End ByteFacts.

Section Padding.

Lemma first_bad_padding_repeat (pad : byte) (k i : nat) :
  first_bad_padding pad i (repeat pad k) = None.
Proof.
  revert i. induction k as [|k IH]; intros i; simpl; [reflexivity|].
  rewrite byte_eqb_refl. apply IH.
Qed.

Lemma last_some_app_repeat (s : list byte) (b : byte) (k : nat) :
  List.last (List.map Some (s ++ repeat b (S k))) None = Some b.
Proof.
  replace (repeat b (S k)) with (repeat b k ++ [b]).
  - rewrite app_assoc, map_app. simpl. apply last_last.
  - change [b] with (repeat b 1). rewrite <- repeat_app. f_equal. lia.
Qed.

(** The padding never needs more than one block. *)
Lemma strip_pad (s : list byte) : StripPKCS7Padding (addPKCS7Padding s) = Ret s.
Proof.
  unfold StripPKCS7Padding, addPKCS7Padding.
  set (n := List.length s).
  assert (Hm : (n mod 16 < 16)%nat) by (apply Nat.mod_upper_bound; lia).
  set (p := (16 - n mod 16)%nat).
  assert (Hp : (1 <= p <= 16)%nat) by (unfold p; lia).
  rewrite length_app, repeat_length. fold n.
  assert (Hz : ((n + p) mod 16 = 0)%nat).
  { unfold p. rewrite (Nat.div_mod_eq n 16) at 1.
    replace (16 * (n / 16) + n mod 16 + (16 - n mod 16))%nat
      with ((1 + n / 16) * 16)%nat by lia.
    apply Nat.Div0.mod_mul. }
  rewrite Hz. simpl negb. cbv iota.
  destruct p as [|k] eqn:Ep; [lia|].
  rewrite last_some_app_repeat.
  rewrite Z_of_byte_of_Z, Z.mod_small by lia.
  destruct (16 <? Z.of_nat (S k)) eqn:E; [apply Z.ltb_lt in E; lia|].
  rewrite Nat2Z.id.
  replace (n + S k - S k)%nat with n by lia. subst n.
  rewrite skipn_app, skipn_all, Nat.sub_diag. rewrite skipn_O, app_nil_l.
  rewrite first_bad_padding_repeat.
  rewrite firstn_app, firstn_all, Nat.sub_diag. simpl. rewrite app_nil_r. reflexivity.
Qed.

(** C5.  [StripPKCS7Padding] undoes [addPKCS7Padding] on every byte
    string shorter than 16 * 2^16 bytes. *)
Theorem StripPKCS7Padding_left_inverse (s : list byte) :
  Z.of_nat (List.length s) < 16 * 2 ^ 16 ->
  StripPKCS7Padding (addPKCS7Padding s) = Ret s.
Proof. intros _. apply strip_pad. Qed.

Lemma StripPKCS7Padding_left_inverse_witness :
  Z.of_nat (List.length (bytes_of_string "hello world")) < 16 * 2 ^ 16 /\
  StripPKCS7Padding (addPKCS7Padding (bytes_of_string "hello world"))
  = Ret (bytes_of_string "hello world").
Proof.
  split.
  - reflexivity.
  - apply StripPKCS7Padding_left_inverse. reflexivity.
Defined.

End Padding.

Section Integers.

Lemma two64 : 2 ^ 64 = 2 * 2 ^ 63 /\ 0 < 2 ^ 63.
Proof. split; reflexivity. Qed.

Ltac word := pose proof two64; lia.

Lemma int64_wrap_mod (z : Z) : int64_wrap z mod 2 ^ 64 = z mod 2 ^ 64.
Proof.
  unfold int64_wrap.
  rewrite <- Zminus_mod_idemp_l, Z.mod_mod by word.
  rewrite Zminus_mod_idemp_l. f_equal. lia.
Qed.

Lemma int64_wrap_congr (a b : Z) : a mod 2 ^ 64 = b mod 2 ^ 64 -> int64_wrap a = int64_wrap b.
Proof.
  intros E. unfold int64_wrap.
  rewrite <- (Zplus_mod_idemp_l a), <- (Zplus_mod_idemp_l b), E. reflexivity.
Qed.

Lemma int64_wrap_small (z : Z) : - 2 ^ 63 <= z < 2 ^ 63 -> int64_wrap z = z.
Proof. intros Hz. unfold int64_wrap. rewrite Z.mod_small; word. Qed.

Lemma shift_or_add (acc : Z) (b : byte) :
  Z.lor (Z.shiftl acc 8) (Z_of_byte b) = acc * 256 + Z_of_byte b.
Proof.
  pose proof (Z_of_byte_range b) as Hb.
  rewrite Z.shiftl_mul_pow2 by lia. change (2 ^ 8) with 256.
  pose proof (Z.add_lor_land (acc * 256) (Z_of_byte b)) as Hadd.
  assert (E : Z.land (acc * 256) (Z_of_byte b) = 0).
  { apply Z.bits_inj'. intros n Hn. rewrite Z.land_spec, Z.bits_0.
    destruct (Z.ltb_spec n 8).
    - change 256 with (2 ^ 8). rewrite Z.mul_pow2_bits_low by lia. reflexivity.
    - rewrite (Z.bits_above_log2 (Z_of_byte b) n), andb_false_r; [reflexivity|lia|].
      destruct (Z.eq_dec (Z_of_byte b) 0) as [->|]; [simpl; lia|].
      apply Z.log2_lt_pow2; [lia|].
      apply Z.lt_le_trans with (2 ^ 8); [simpl; lia|]. apply Z.pow_le_mono_r; lia. }
  rewrite E in Hadd. lia.
Qed.

Lemma fold_int_shift_or (body : list byte) (acc acc' : Z) :
  acc mod 2 ^ 64 = acc' mod 2 ^ 64 ->
  (fold_left int_shift_or body acc) mod 2 ^ 64
  = (fold_left (fun a b => a * 256 + Z_of_byte b) body acc') mod 2 ^ 64.
Proof.
  revert acc acc'. induction body as [|b body IH]; intros acc acc' E; simpl; [exact E|].
  apply IH. unfold int_shift_or. rewrite int64_wrap_mod, shift_or_add.
  rewrite <- Zplus_mod_idemp_l, <- Zmult_mod_idemp_l, E.
  rewrite Zmult_mod_idemp_l, Zplus_mod_idemp_l. reflexivity.
Qed.

Lemma int64_wrap_range (z : Z) : - 2 ^ 63 <= int64_wrap z < 2 ^ 63.
Proof.
  unfold int64_wrap. pose proof (Z.mod_pos_bound (z + 2 ^ 63) (2 ^ 64)). word.
Qed.

Lemma fold_int_shift_or_range (body : list byte) (acc : Z) :
  - 2 ^ 63 <= acc < 2 ^ 63 -> - 2 ^ 63 <= fold_left int_shift_or body acc < 2 ^ 63.
Proof.
  revert acc. induction body as [|b body IH]; intros acc Ha; simpl; [exact Ha|].
  apply IH. apply int64_wrap_range.
Qed.

Lemma fold_int_shift_or_wrap (body : list byte) :
  fold_left int_shift_or body 0 = int64_wrap (big_endian_unsigned body).
Proof.
  rewrite <- (int64_wrap_small (fold_left int_shift_or body 0)).
  - apply int64_wrap_congr, fold_int_shift_or. reflexivity.
  - apply fold_int_shift_or_range. word.
Qed.

Lemma big_endian_bound (body : list byte) (acc : Z) (k : Z) :
  0 <= k -> 0 <= acc < 256 ^ k ->
  0 <= fold_left (fun a b => a * 256 + Z_of_byte b) body acc
    < 256 ^ (k + Z.of_nat (List.length body)).
Proof.
  revert acc k. induction body as [|b body IH]; intros acc k Hk Ha; simpl List.length.
  - simpl. rewrite Z.add_0_r. exact Ha.
  - simpl fold_left. replace (k + Z.of_nat (S (List.length body)))
      with ((k + 1) + Z.of_nat (List.length body)) by lia.
    apply IH; [lia|]. pose proof (Z_of_byte_range b).
    rewrite Z.pow_add_r by lia. change (256 ^ 1) with 256. nia.
Qed.

End Integers.

Section ReadInt.

Lemma read_exactly_app (n : nat) (short : error) (body rest : list byte) :
  List.length body = n -> read_exactly n short (body ++ rest) = inr (body, rest).
Proof.
  intros <-. unfold read_exactly, Read.
  destruct body as [|b body]; [reflexivity|].
  cbn [List.length app].
  change (b :: body ++ rest) with ((b :: body) ++ rest).
  change (S (List.length body)) with (List.length (b :: body)).
  rewrite take_app_length, drop_app_length, Nat.eqb_refl. reflexivity.
Qed.

(** C9, as the decoder has it.  With a full body of [L] bytes, [0 < L <= 8],
    [readInt] returns the big-endian value of the body wrapped into Go's
    64-bit [int], which is the unsigned value whenever that is below
    [2^63], so for every [L <= 7]; [L = 0] decodes to [0] and reads no
    body; [L > 8] is the error "integer too large". *)
Theorem readInt_value :
  (forall (L : byte) (body rest : list byte),
      0 < Z_of_byte L <= 8 ->
      Z.of_nat (List.length body) = Z_of_byte L ->
      readInt (L :: body ++ rest) = inr (int64_wrap (big_endian_unsigned body), rest)
      /\ (big_endian_unsigned body < 2 ^ 63 ->
          int64_wrap (big_endian_unsigned body) = big_endian_unsigned body)
      /\ (Z_of_byte L <= 7 -> big_endian_unsigned body < 2 ^ 63))
  /\ (forall rest : list byte, readInt (x00 :: rest) = inr (0, rest))
  /\ (forall (L : byte) (rest : list byte),
         8 < Z_of_byte L -> readInt (L :: rest) = inl ErrIntegerTooLarge).
Proof.
  split; [|split].
  - intros L body rest HL Hlen.
    pose proof (big_endian_bound body 0 0 ltac:(lia) ltac:(simpl; lia)) as Hb.
    fold (big_endian_unsigned body) in Hb. rewrite Z.add_0_l in Hb.
    split; [|split].
    + unfold readInt. change (L :: body ++ rest) with ([L] ++ body ++ rest).
      rewrite (read_exactly_app 1) by reflexivity. cbn [nth].
      destruct (Nat.ltb_spec 8 (Z.to_nat (Z_of_byte L))); [lia|].
      destruct (Nat.eqb_spec (Z.to_nat (Z_of_byte L)) 0); [lia|].
      rewrite read_exactly_app by lia.
      rewrite fold_int_shift_or_wrap. reflexivity.
    + intros Hlt. apply int64_wrap_small. pose proof two64. lia.
    + intros H7. apply Z.lt_le_trans with (256 ^ Z.of_nat (List.length body)); [lia|].
      rewrite Hlen. change (2 ^ 63) with (128 * 256 ^ 7).
      assert (256 ^ Z_of_byte L <= 256 ^ 7) by (apply Z.pow_le_mono_r; lia). lia.
  - intros rest. reflexivity.
  - intros L rest HL. unfold readInt.
    change (L :: rest) with ([L] ++ rest).
    rewrite (read_exactly_app 1) by reflexivity. cbn [nth].
    destruct (Nat.ltb_spec 8 (Z.to_nat (Z_of_byte L))); [reflexivity|lia].
Qed.

Lemma readInt_value_witness :
  readInt (Hex.of_text "0201ff") = inr (511, [])
  /\ readInt (Hex.of_text "0042") = inr (0, Hex.of_text "42")
  /\ readInt (Hex.of_text "09") = inl ErrIntegerTooLarge.
Proof.
  destruct readInt_value as (Hbody & Hzero & Hlarge).
  split; [|split].
  - destruct (Hbody x02 (Hex.of_text "01ff") [] ltac:(vm_compute; split; congruence)
                ltac:(reflexivity)) as (Hr & _ & _).
    exact Hr.
  - apply Hzero.
  - apply Hlarge. reflexivity.
Defined.

(** Eight bytes with the top bit set: the decoder returns a negative
    number where the specification reads an unsigned one. *)
Lemma readInt_eight_bytes_wrap :
  readInt (Hex.of_text "08ffffffffffffffff") = inr (-1, [])
  /\ big_endian_unsigned (Hex.of_text "ffffffffffffffff") = 2 ^ 64 - 1.
Proof. split; vm_compute; reflexivity. Qed.

End ReadInt.

Section KDF.

Lemma MD5_Sum_length (data : list byte) : List.length (MD5.Sum data) = 16%nat.
Proof.
  unfold MD5.Sum. destruct (MD5.absorb _ _ _) as [[[a b] c] d]. reflexivity.
Qed.

Lemma block_length (count : nat) (previous P S : list byte) :
  (0 < count)%nat -> List.length (EVP.block count previous P S) = 16%nat.
Proof.
  intros Hc. unfold EVP.block. destruct count as [|c]; [lia|].
  simpl. apply MD5_Sum_length.
Qed.

Lemma count_pos (S : list byte) : (0 < EVP.count S)%nat.
Proof. destruct S; simpl; lia. Qed.

Lemma count_of_salt (S : list byte) :
  (if Nat.ltb 0 (List.length S) then 1000%nat else 1%nat) = EVP.count S.
Proof. destruct S; reflexivity. Qed.

Lemma blocks_for_step (need have : Z) :
  have < need ->
  EVP.blocks_for (need - have) = S (EVP.blocks_for (need - (have + 16))).
Proof.
  intros Hlt. unfold EVP.blocks_for.
  replace (need - have + 15) with ((need - (have + 16) + 15) + 1 * 16) by lia.
  rewrite Z.div_add by lia.
  rewrite Z2Nat.inj_add; [lia| |lia].
  apply Z.div_pos; lia.
Qed.

Lemma blocks_for_done (need have : Z) : need <= have -> EVP.blocks_for (need - have) = O.
Proof.
  intros Hle. unfold EVP.blocks_for.
  assert ((need - have + 15) / 16 <= 0); [|lia].
  apply Z.lt_succ_r. apply Z.div_lt_upper_bound; lia.
Qed.

Lemma blocks_for_fuel (total : Z) : (EVP.blocks_for total <= Z.to_nat total)%nat.
Proof.
  unfold EVP.blocks_for. destruct (Z.le_gt_cases total 0).
  - assert ((total + 15) / 16 <= 0); [|lia].
    apply Z.lt_succ_r. apply Z.div_lt_upper_bound; lia.
  - apply Z2Nat.inj_le; [apply Z.div_pos; lia|lia|].
    apply Z.div_le_upper_bound; lia.
Qed.

(** With enough fuel the loop appends exactly the blocks still needed. *)
Lemma kdf_loop_blocks (fuel count : nat) (P S : list byte) (need : Z)
      (temp fd : list byte) :
  (0 < count)%nat ->
  (EVP.blocks_for (need - Z.of_nat (List.length fd)) <= fuel)%nat ->
  kdf_loop fuel count P S need temp fd
  = fd ++ List.concat
            (EVP.blocks (EVP.blocks_for (need - Z.of_nat (List.length fd))) count temp P S).
Proof.
  intros Hc. revert temp fd.
  induction fuel as [|fuel IH]; intros temp fd Hfuel.
  - simpl. assert (E : EVP.blocks_for (need - Z.of_nat (List.length fd)) = O) by lia.
    rewrite E. simpl. rewrite app_nil_r. reflexivity.
  - simpl. destruct (Z.ltb_spec (Z.of_nat (List.length fd)) need) as [Hlt|Hge].
    + rewrite blocks_for_step in Hfuel |- * by exact Hlt.
      change (Nat.iter count MD5Hash (temp ++ P ++ S)) with (EVP.block count temp P S).
      pose proof (block_length count temp P S Hc) as Hlen.
      rewrite IH.
      * rewrite length_app, Hlen.
        replace (Z.of_nat (List.length fd + 16)) with (Z.of_nat (List.length fd) + 16) by lia.
        simpl. rewrite <- app_assoc. reflexivity.
      * rewrite length_app, Hlen.
        replace (Z.of_nat (List.length fd + 16)) with (Z.of_nat (List.length fd) + 16) by lia.
        lia.
    + rewrite blocks_for_done by exact Hge. simpl. rewrite app_nil_r. reflexivity.
Qed.

Lemma concat_blocks_length (n count : nat) (previous P S : list byte) :
  (0 < count)%nat ->
  List.length (List.concat (EVP.blocks n count previous P S)) = (16 * n)%nat.
Proof.
  intros Hc. revert previous. induction n as [|n IH]; intros previous; simpl; [reflexivity|].
  rewrite length_app, IH, block_length by exact Hc. lia.
Qed.

(** C4.  [OpenSSLKDF] computes the derivation of the specification: MD5
    iterated 1000 times per block with a salt and once without, blocks
    chained from an empty one and concatenated until [keySize + ivSize]
    bytes are there (the least number of blocks that does), the key the
    first [keySize] bytes and the IV the next [ivSize]; being a function,
    its result depends on the four arguments only. *)
Theorem OpenSSLKDF_is_BytesToKey (password salt : list byte) (keySize ivSize : Z) :
  0 <= keySize -> 0 <= ivSize ->
  let n := EVP.blocks_for (keySize + ivSize) in
  OpenSSLKDF password salt keySize ivSize
  = Ret (EVP.BytesToKey password salt (Z.to_nat keySize) (Z.to_nat ivSize))
  /\ EVP.count salt = (if decide (salt = []) then 1%nat else 1000%nat)
  /\ keySize + ivSize <= 16 * Z.of_nat n < keySize + ivSize + 16
  /\ List.length (fst (EVP.BytesToKey password salt (Z.to_nat keySize) (Z.to_nat ivSize)))
     = Z.to_nat keySize
  /\ List.length (snd (EVP.BytesToKey password salt (Z.to_nat keySize) (Z.to_nat ivSize)))
     = Z.to_nat ivSize.
Proof.
  intros Hk Hv n.
  assert (Hn : keySize + ivSize <= 16 * Z.of_nat n < keySize + ivSize + 16).
  { unfold n, EVP.blocks_for. rewrite Z2Nat.id by (apply Z.div_pos; lia).
    pose proof (Z.div_mod (keySize + ivSize + 15) 16 ltac:(lia)).
    pose proof (Z.mod_pos_bound (keySize + ivSize + 15) 16 ltac:(lia)). lia. }
  pose proof (concat_blocks_length n (EVP.count salt) [] password salt (count_pos salt)) as Hlen.
  assert (Hfd : EVP.BytesToKey password salt (Z.to_nat keySize) (Z.to_nat ivSize)
                = (firstn (Z.to_nat keySize)
                     (List.concat (EVP.blocks n (EVP.count salt) [] password salt)),
                   firstn (Z.to_nat ivSize)
                     (skipn (Z.to_nat keySize)
                        (List.concat (EVP.blocks n (EVP.count salt) [] password salt))))).
  { unfold EVP.BytesToKey. rewrite !Z2Nat.id by lia. reflexivity. }
  split; [|split; [|split; [|split]]].
  - unfold OpenSSLKDF. rewrite count_of_salt.
    destruct (Z.ltb_spec keySize 0); [lia|]. destruct (Z.ltb_spec ivSize 0); [lia|].
    simpl orb. cbv iota.
    rewrite kdf_loop_blocks.
    + simpl List.length. rewrite Z.sub_0_r, app_nil_l. rewrite Hfd. reflexivity.
    + apply count_pos.
    + simpl List.length. rewrite Z.sub_0_r. apply blocks_for_fuel.
  - destruct salt; reflexivity.
  - exact Hn.
  - rewrite Hfd. simpl fst. rewrite length_take. lia.
  - rewrite Hfd. simpl snd. rewrite length_take, length_drop. lia.
Qed.

Lemma OpenSSLKDF_is_BytesToKey_witness :
  OpenSSLKDF (bytes_of_string "testpassword") [] 32 16
  = Ret (EVP.BytesToKey (bytes_of_string "testpassword") [] 32 16).
Proof.
  apply (OpenSSLKDF_is_BytesToKey (bytes_of_string "testpassword") [] 32 16); lia.
Defined.

End KDF.

Section DecoderTotal.

Lemma Read_split (n : nat) (input got rest : list byte) :
  Read n input = inr (got, rest) ->
  input = got ++ rest /\ (List.length got <= n)%nat /\ (n = O \/ got <> []).
Proof.
  unfold Read. destruct n as [|n].
  - intros [= <- <-]. auto.
  - destruct input as [|b input]; [discriminate|].
    intros [= <- <-]. split; [symmetry; apply (take_drop (S n) (b :: input))|]. split.
    + pose proof (length_take (b :: input) (S n)). simpl in *. lia.
    + right. discriminate.
Qed.

Lemma read_exactly_split (n : nat) (short : error) (input got rest : list byte) :
  read_exactly n short input = inr (got, rest) ->
  input = got ++ rest /\ List.length got = n.
Proof.
  unfold read_exactly. destruct (Read n input) as [e|[g r]] eqn:E; [discriminate|].
  destruct (Nat.eqb_spec (List.length g) n) as [Hl|]; [|discriminate].
  intros [= <- <-]. apply Read_split in E. tauto.
Qed.

Lemma readBytes_consumes (input : list byte) : consumes 2 input (readBytes input).
Proof.
  unfold readBytes.
  destruct (read_exactly 2 _ input) as [e|[l rest]] eqn:E1; [exact I|].
  apply read_exactly_split in E1 as [-> Hl].
  destruct (read_exactly _ _ rest) as [e|[d rest']] eqn:E2; [exact I|].
  apply read_exactly_split in E2 as [-> _]. simpl. rewrite !length_app. lia.
Qed.

Lemma readString_consumes (input : list byte) : consumes 2 input (readString input).
Proof.
  unfold readString. pose proof (readBytes_consumes input) as Hc.
  destruct (readBytes input) as [e|[d rest]]; [exact I|exact Hc].
Qed.

Lemma readInt_consumes (input : list byte) : consumes 1 input (readInt input).
Proof.
  unfold readInt.
  destruct (read_exactly 1 _ input) as [e|[l rest]] eqn:E1; [exact I|].
  apply read_exactly_split in E1 as [-> Hl].
  destruct (Nat.ltb _ _); [exact I|]. destruct (Nat.eqb _ _).
  - simpl. rewrite length_app. lia.
  - destruct (read_exactly _ _ rest) as [e|[d rest']] eqn:E2; [exact I|].
    apply read_exactly_split in E2 as [-> _]. simpl. rewrite !length_app. lia.
Qed.

Lemma dict_loop_returns (read_object : list byte -> option (decoded Value)) (bound : nat) :
  (forall input, (List.length input < bound)%nat -> returns input (read_object input)) ->
  forall (fuel : nat) (result : gmap string Value) (input : list byte),
    (List.length input < bound)%nat -> (List.length input < fuel)%nat ->
    returns input (dict_loop read_object fuel result input).
Proof.
  intros Hread. induction fuel as [|fuel IH]; intros result input Hb Hf; [lia|].
  simpl. destruct (Hread input Hb) as (r & -> & Hc).
  destruct r as [e|[key rest]]; [eexists; split; [reflexivity|exact I]|].
  simpl in Hc.
  destruct key as [|?|?|keyStr|?];
    try (eexists; split; [reflexivity|simpl; try exact I; lia]).
  destruct (Hread rest ltac:(lia)) as (r & -> & Hc').
  destruct r as [e|[value rest']]; [eexists; split; [reflexivity|exact I]|].
  simpl in Hc'.
  destruct (IH (<[keyStr:=value]> result) rest' ltac:(lia) ltac:(lia)) as (r & -> & Hc'').
  eexists; split; [reflexivity|].
  destruct r as [e|[m rest'']]; [exact I|]. simpl in *. lia.
Qed.

Lemma ReadObject_returns (fuel : nat) (input : list byte) :
  (List.length input < fuel)%nat -> returns input (ReadObject fuel input).
Proof.
  revert input. induction fuel as [|fuel IH]; intros input Hf; [lia|].
  cbn [ReadObject].
  destruct (read_exactly 1 EOF input) as [e|[headerByte rest]] eqn:E1;
    [eexists; split; [reflexivity|exact I]|].
  apply read_exactly_split in E1 as [-> Hl].
  assert (Hrest : (List.length rest < fuel)%nat) by (rewrite length_app in Hf; lia).
  assert (Hdict : returns (headerByte ++ rest)
                    match dict_loop (ReadObject fuel) fuel ∅ rest with
                    | None => None
                    | Some (inl e) => Some (inl e)
                    | Some (inr (m, rest')) => Some (inr (VMap m, rest'))
                    end).
  { destruct (dict_loop_returns (ReadObject fuel) fuel IH fuel ∅ rest Hrest Hrest)
      as (r & -> & Hc).
    destruct r as [e|[m rest']]; (eexists; split; [reflexivity|]); [exact I|].
    simpl in *. rewrite length_app. lia. }
  assert (Hbytes : returns (headerByte ++ rest)
                     (match readBytes rest with
                      | inl e => Some (inl e)
                      | inr (b, rest') => Some (inr (VBytes b, rest'))
                      end)).
  { pose proof (readBytes_consumes rest) as Hc.
    destruct (readBytes rest) as [e|[b rest']]; (eexists; split; [reflexivity|]); [exact I|].
    simpl in *. rewrite length_app. lia. }
  assert (Hstring : returns (headerByte ++ rest)
                     (match readString rest with
                      | inl e => Some (inl e)
                      | inr (s, rest') => Some (inr (VString s, rest'))
                      end)).
  { pose proof (readString_consumes rest) as Hc.
    destruct (readString rest) as [e|[b rest']]; (eexists; split; [reflexivity|]); [exact I|].
    simpl in *. rewrite length_app. lia. }
  assert (Hint : returns (headerByte ++ rest)
                     (match readInt rest with
                      | inl e => Some (inl e)
                      | inr (n, rest') => Some (inr (VInt n, rest'))
                      end)).
  { pose proof (readInt_consumes rest) as Hc.
    destruct (readInt rest) as [e|[b rest']]; (eexists; split; [reflexivity|]); [exact I|].
    simpl in *. rewrite length_app. lia. }
  assert (Hnil : returns (headerByte ++ rest) (Some (inr (VNil, rest)))).
  { eexists; split; [reflexivity|]. simpl. rewrite length_app. lia. }
  destruct (nth 0 headerByte "000"%byte);
    first [exact Hdict | exact Hbytes | exact Hstring | exact Hint | exact Hnil
          | eexists; split; [reflexivity|exact I]].
Qed.

End DecoderTotal.

Section StreamTotal.
Context `{Platform}.

Lemma stream_loop_returns (fuel n : nat) (input : list byte) :
  (List.length input < fuel)%nat -> exists items, stream_loop fuel n input = Some items.
Proof.
  revert n input. induction fuel as [|fuel IH]; intros n input Hf; [lia|].
  cbn [stream_loop].
  destruct (ReadObject_returns (object_fuel input) input) as (r & -> & Hc);
    [unfold object_fuel; lia|].
  destruct r as [e|[obj rest]].
  - destruct e; eauto.
  - simpl in Hc. destruct (emit n obj) as [items continue].
    destruct continue; [|eauto].
    destruct (IH (S n) rest ltac:(lia)) as (more & ->). eauto.
Qed.

Lemma DecodeCSEncStream_returns (input : list byte) :
  exists r, DecodeCSEncStream input = Some r.
Proof.
  unfold DecodeCSEncStream. destruct (ValidateHeader input) as [e|[[] rest]]; [eauto|].
  destruct (stream_loop_returns (S (List.length rest)) 0 rest ltac:(lia)) as (items & ->).
  eauto.
Qed.

(** The model of [DecryptStreamWithFilename] has a result on every input:
    a normal return, an error or a panic. *)
Lemma DecryptStreamWithFilename_returns (input : list byte) (config : DecryptConfig) :
  exists r, DecryptStreamWithFilename input config = Some r.
Proof.
  unfold DecryptStreamWithFilename.
  destruct (DecodeCSEncStream_returns input) as ([e|items] & ->); eauto.
Qed.

End StreamTotal.

Section PlatformIndependence.

Lemma Permutation_filter_bool {A : Type} (f : A -> bool) (l l' : list A) :
  Permutation l l' -> Permutation (List.filter f l) (List.filter f l').
Proof.
  induction 1 as [|x l l' _ IH|x y l|l l' l'' _ IH1 _ IH2]; simpl.
  - constructor.
  - destruct (f x); [constructor|]; exact IH.
  - destruct (f x), (f y); try reflexivity. constructor.
  - etransitivity; eassumption.
Qed.

Lemma Permutation_short {A : Type} (l l' : list A) :
  Permutation l l' -> (List.length l' <= 1)%nat -> l = l'.
Proof.
  intros Hp Hl. destruct l' as [|x [|y l']]; simpl in Hl; [| |lia].
  - apply Permutation_sym, Permutation_nil in Hp. exact Hp.
  - apply Permutation_sym, Permutation_length_1_inv in Hp. exact Hp.
Qed.

(** With one header per map, what is emitted is the same on all
    platforms. *)
Lemma emit_one_header (P P' : Platform) (n : nat) (obj : Value) :
  one_header obj = true -> @emit P n obj = @emit P' n obj.
Proof.
  intros Hone. destruct obj as [| | | |dict]; try reflexivity.
  simpl in *. destruct (dict !! "type"%string) as [[| | |itemType|]|]; try reflexivity.
  destruct (String.eqb itemType "metadata"); [|reflexivity].
  apply Nat.leb_le in Hone.
  set (f := fun kv : string * Value => negb (String.eqb (fst kv) "type")) in *.
  rewrite (Permutation_short _ _ (Permutation_filter_bool f _ _ (@range_order_perm P n dict)) Hone).
  rewrite (Permutation_short _ _ (Permutation_filter_bool f _ _ (@range_order_perm P' n dict)) Hone).
  reflexivity.
Qed.

Lemma stream_loop_one_header (P P' : Platform) (fuel n : nat) (input : list byte) :
  one_header_each fuel input = true ->
  @stream_loop P fuel n input = @stream_loop P' fuel n input.
Proof.
  revert n input. induction fuel as [|fuel IH]; intros n input Hone; [reflexivity|].
  cbn [stream_loop one_header_each] in *.
  destruct (ReadObject (object_fuel input) input) as [[e|[obj rest]]|]; try reflexivity.
  apply andb_true_iff in Hone as [Hobj Hrest].
  rewrite (emit_one_header P P' n obj Hobj).
  destruct (@emit P' n obj) as [items [|]]; [|reflexivity].
  rewrite (IH (S n) rest Hrest). reflexivity.
Qed.

Lemma DecodeCSEncStream_one_header (P P' : Platform) (input : list byte) :
  one_header_per_map input = true ->
  @DecodeCSEncStream P input = @DecodeCSEncStream P' input.
Proof.
  unfold one_header_per_map, DecodeCSEncStream.
  destruct (ValidateHeader input) as [e|[[] rest]]; [reflexivity|].
  intros Hone. rewrite (stream_loop_one_header P P' _ 0 rest Hone). reflexivity.
Qed.

Lemma verify_md5_soft (P : Platform) (st : state) : @verify_md5 P st = Ret tt.
Proof.
  unfold verify_md5. destruct (md5Digestor st && _); [|reflexivity].
  destruct (negb _); reflexivity.
Qed.

(** Without a private key in the configuration the driver does not
    consult the platform. *)
Lemma step_no_private_key (P P' : Platform) (config : DecryptConfig) (st : state)
      (item : StreamItem) :
  PrivateKey config = None -> @step P config st item = @step P' config st item.
Proof.
  intros Hk. unfold step. destruct (Error item); [reflexivity|].
  destruct (negb _); [reflexivity|]. destruct (Data item) as [data|]; [|reflexivity].
  unfold on_data, ensure_decryptor, unwrap_session_key. rewrite Hk. reflexivity.
Qed.

Lemma consume_no_private_key (P P' : Platform) (config : DecryptConfig)
      (items : list StreamItem) (st : state) :
  PrivateKey config = None -> @consume P config items st = @consume P' config items st.
Proof.
  intros Hk. revert st. induction items as [|item items IH]; intros st; [reflexivity|].
  simpl. rewrite (step_no_private_key P P' config st item Hk).
  destruct (@step P' config st item) as [st' [[]| |]]; [apply IH|reflexivity..].
Qed.

Lemma drive_no_private_key (P P' : Platform) (config : DecryptConfig)
      (items : list StreamItem) :
  PrivateKey config = None -> @drive P config items = @drive P' config items.
Proof.
  intros Hk. unfold drive. rewrite (consume_no_private_key P P' config items _ Hk).
  destruct (@consume P' config items initial) as [st [[]| |]]; try reflexivity.
  destruct (flush_last st) as [st' [[]| |]]; try reflexivity.
  rewrite !verify_md5_soft. reflexivity.
Qed.

(** Hence the whole run is the same on every platform for such inputs. *)
Lemma DecryptStreamWithFilename_any_platform (P P' : Platform) (input : list byte)
      (config : DecryptConfig) :
  PrivateKey config = None -> one_header_per_map input = true ->
  @DecryptStreamWithFilename P input config = @DecryptStreamWithFilename P' input config.
Proof.
  intros Hk Hone. unfold DecryptStreamWithFilename.
  rewrite (DecodeCSEncStream_one_header P P' input Hone).
  destruct (@DecodeCSEncStream P' input) as [[e|items]|]; try reflexivity.
  rewrite (drive_no_private_key P P' config items Hk). reflexivity.
Qed.

End PlatformIndependence.

Section DriverFacts.
Context `{Platform}.

Lemma consume_app (config : DecryptConfig) (pre post : list StreamItem) (st : state) :
  consume config (pre ++ post) st
  = match consume config pre st with
    | (st', Ret _) => consume config post st'
    | failure => failure
    end.
Proof.
  revert st. induction pre as [|item pre IH]; intros st; [reflexivity|].
  simpl. destruct (step config st item) as [st' [[]| |]]; [apply IH|reflexivity..].
Qed.

End DriverFacts.

Section Version.
Context `{Platform}.




End Version.


(** Scenario 4, from the bytes: on every platform and for every
    configuration. *)
Example version_2_0_rejected (P : Platform) (config : DecryptConfig) :
  option_map returned (@DecryptStreamWithFilename P sample_version_2_0 config)
  = Some (Err (ErrUnsupportedVersion 2 0)).
Proof.
  unfold DecryptStreamWithFilename.
  rewrite (DecodeCSEncStream_one_header P platform_sorted) by (vm_compute; reflexivity).
  replace (@DecodeCSEncStream platform_sorted sample_version_2_0)
    with (Some (inr (B := list StreamItem) (A := error) [ItemKV "version" (VMap version_2_0)]))
    by (vm_compute; reflexivity).
  reflexivity.
Qed.

Section Digest.
Context `{Platform}.

Lemma same_but_digest_refl (st : state) : same_but_digest st st.
Proof. exists (expectedMD5Digest st). destruct st; reflexivity. Qed.

Lemma same_but_digest_stdin (st1 st2 : state) :
  same_but_digest st1 st2 -> lz4_stdin st2 = lz4_stdin st1.
Proof. intros [d ->]. reflexivity. Qed.

(** The expected digest is never read by a step. *)
Lemma step_frame (config : DecryptConfig) (st : state) (d : string) (item : StreamItem) :
  exists d', step config (set_expectedMD5Digest d st) item
             = (set_expectedMD5Digest d' (fst (step config st item)),
                snd (step config st item)).
Proof.
  destruct st as [sk dec dig exp k1 k2 sa skh chunk fed].
  destruct item as [key value data err].
  unfold step, on_header, on_key1_hash, on_data, ensure_decryptor, unwrap_session_key,
    set_expectedMD5Digest, lift, mbind, outcome_bind, wrap;
    cbn [Error Key Val Data decryptor sessionKey encKey1Bytes encKey2Bytes salt
         sessionKeyHash decryptedChunk md5Digestor expectedMD5Digest lz4_stdin].
  repeat (first
            [ progress cbn
            | match goal with
              | |- context [if ?c then _ else _] =>
                  lazymatch c with
                  | context [if _ then _ else _] => fail
                  | context [match _ with _ => _ end] => fail
                  | _ => destruct c eqn:?
                  end
              | |- context [match ?x with _ => _ end] =>
                  lazymatch x with
                  | context [if _ then _ else _] => fail
                  | context [match _ with _ => _ end] => fail
                  | _ => destruct x eqn:?
                  end
              end ]);
    eexists; reflexivity.
Qed.

End Digest.

Section DigestSoft.
Context `{Platform}.

Lemma consume_frame (config : DecryptConfig) (items : list StreamItem) (st1 st2 : state) :
  same_but_digest st1 st2 ->
  same_but_digest (fst (consume config items st1)) (fst (consume config items st2))
  /\ snd (consume config items st1) = snd (consume config items st2).
Proof.
  revert st1 st2. induction items as [|item items IH]; intros st1 st2 Hs; [auto|].
  destruct Hs as [d ->]. cbn [consume].
  destruct (step_frame config st1 d item) as [d' ->].
  destruct (step config st1 item) as [st' o]. cbn [fst snd].
  destruct o as [[]| |]; cbn [fst snd]; try (split; [eexists|]; reflexivity).
  apply IH. eexists; reflexivity.
Qed.

Lemma flush_last_frame (st1 st2 : state) :
  same_but_digest st1 st2 ->
  same_but_digest (fst (flush_last st1)) (fst (flush_last st2))
  /\ snd (flush_last st1) = snd (flush_last st2).
Proof.
  intros [d ->]. destruct st1 as [sk dec dig exp k1 k2 sa skh chunk fed].
  unfold flush_last, set_expectedMD5Digest, lift, mbind, outcome_bind, wrap; cbn.
  destruct chunk as [c|]; [|split; [eexists|]; reflexivity].
  destruct (StripPKCS7Padding c); cbn; (split; [eexists|]; reflexivity).
Qed.

Lemma file_md5_frame (config : DecryptConfig) (st : state) (value : Value) :
  exists d, step config st (ItemKV "file_md5" value) = (set_expectedMD5Digest d st, Ret tt).
Proof.
  destruct value; try (exists (expectedMD5Digest st); destruct st; reflexivity).
  eexists; reflexivity.
Qed.

Lemma drive_frame (config : DecryptConfig) (items items' : list StreamItem) :
  same_but_digest (fst (consume config items initial)) (fst (consume config items' initial)) ->
  snd (consume config items initial) = snd (consume config items' initial) ->
  returned (drive config items) = returned (drive config items')
  /\ lz4_stdin (at_return (drive config items)) = lz4_stdin (at_return (drive config items')).
Proof.
  unfold drive.
  destruct (consume config items initial) as [st1 o1],
           (consume config items' initial) as [st2 o2]. cbn [fst snd].
  intros Hs <-. destruct o1 as [[]| |].
  - destruct (flush_last_frame st1 st2 Hs) as [Hs' Ho].
    destruct (flush_last st1) as [st1' o1'], (flush_last st2) as [st2' o2']. cbn [fst snd] in *.
    subst o2'. apply same_but_digest_stdin in Hs'.
    destruct o1' as [[]| |]; cbn; rewrite ?verify_md5_soft; auto.
  - apply same_but_digest_stdin in Hs. cbn. auto.
  - apply same_but_digest_stdin in Hs. cbn. auto.
Qed.

(** C6.  A declared [file_md5] that differs from the MD5 of what was
    written is not an error: when the items are consumed and the last
    chunk is stripped without error, the call returns [nil] although the
    digests differ; and replacing the declared value by any other changes
    neither what is returned nor the bytes written. *)
Theorem file_md5_mismatch_is_soft :
  (forall (config : DecryptConfig) (items : list StreamItem) (st st' : state),
      consume config items initial = (st, Ret tt) ->
      flush_last st = (st', Ret tt) ->
      md5Digestor st' = true ->
      expectedMD5Digest st' <> ""%string ->
      Hex.EncodeToString (MD5.Sum (written st')) <> expectedMD5Digest st' ->
      drive config items = mkResult st' (Ret tt))
  /\ (forall (config : DecryptConfig) (pre post : list StreamItem) (declared other : Value),
         let r := drive config (pre ++ ItemKV "file_md5" declared :: post) in
         let r' := drive config (pre ++ ItemKV "file_md5" other :: post) in
         returned r = returned r' /\ written (at_return r) = written (at_return r')).
Proof.
  split.
  - intros config items st st' Hc Hf _ _ _. unfold drive. rewrite Hc, Hf, verify_md5_soft.
    reflexivity.
  - intros config pre post declared other r r'.
    assert (Hd : returned r = returned r'
                 /\ lz4_stdin (at_return r) = lz4_stdin (at_return r')).
    { apply drive_frame; rewrite !consume_app;
        destruct (consume config pre initial) as [st [[]| |]]; cbn [fst snd];
        try reflexivity; try apply same_but_digest_refl; cbn [consume];
        destruct (file_md5_frame config st declared) as [d1 ->];
        destruct (file_md5_frame config st other) as [d2 ->];
        apply consume_frame; exists d2; destruct st; reflexivity. }
    destruct Hd as [Hr Hw]. split; [exact Hr|]. unfold written. rewrite Hw. reflexivity.
Qed.

End DigestSoft.

Lemma file_md5_mismatch_is_soft_witness :
  let items := @items_of platform_sorted sample_v1_wrong_md5 in
  let r := @drive platform_sorted config_pw items in
  md5Digestor (at_return r) = true
  /\ expectedMD5Digest (at_return r) = "5eb63bbbe01eeed093cb22bb8f5acdc4"%string
  /\ Hex.EncodeToString (MD5.Sum (@written platform_sorted (at_return r)))
     = "5eb63bbbe01eeed093cb22bb8f5acdc3"%string
  /\ returned r = Ret tt
  /\ string_of_bytes (@written platform_sorted (at_return r)) = "hello world"%string.
Proof.
  cbv zeta.
  destruct (@consume platform_sorted config_pw (@items_of platform_sorted sample_v1_wrong_md5)
              initial) as [st o] eqn:Hc.
  assert (Ho : o = Ret tt) by (apply (f_equal snd) in Hc; vm_compute in Hc; congruence).
  subst o.
  destruct (flush_last st) as [st' o'] eqn:Hf.
  assert (Hst : st = fst (@consume platform_sorted config_pw
                            (@items_of platform_sorted sample_v1_wrong_md5) initial))
    by (rewrite Hc; reflexivity).
  assert (Ho' : o' = Ret tt)
    by (apply (f_equal snd) in Hf; rewrite Hst in Hf; vm_compute in Hf; congruence).
  subst o'.
  assert (Hst' : st' = fst (flush_last st)) by (rewrite Hf; reflexivity).
  rewrite Hst in Hst'.
  destruct (@file_md5_mismatch_is_soft platform_sorted) as [Hsoft _].
  rewrite (Hsoft config_pw _ st st' Hc Hf);
    [| subst st'; vm_compute; reflexivity
     | subst st'; vm_compute; discriminate
     | subst st'; vm_compute; discriminate ].
  cbn [at_return returned]. subst st'. vm_compute. repeat split.
Defined.

(** Case analysis on what the model branches on. *)
Ltac split_branch :=
  match goal with
  | |- context [if ?c then _ else _] =>
      lazymatch c with
      | context [if _ then _ else _] => fail
      | context [match _ with _ => _ end] => fail
      | _ => destruct c eqn:?
      end
  | |- context [match ?x with _ => _ end] =>
      lazymatch x with
      | context [if _ then _ else _] => fail
      | context [match _ with _ => _ end] => fail
      | _ => destruct x eqn:?
      end
  end.

Ltac unfold_step :=
  unfold step, on_header, on_key1_hash, on_data, ensure_decryptor, unwrap_session_key,
    lift, mbind, outcome_bind, wrap in *.

Section KeyUnwrap.
Context `{Platform}.

Lemma step_no_key_yet (config : DecryptConfig) (st st' : state) (item : StreamItem) :
  no_key_yet st -> step config st item = (st', Ret tt) -> no_key_yet st'.
Proof.
  destruct st as [sk dec dig exp k1 k2 sa skh chunk fed].
  destruct item as [key value data err].
  unfold no_key_yet. unfold_step. cbn.
  intros Hinv Hstep. revert Hstep.
  repeat (first [progress cbn | split_branch]);
    intros [= <-]; cbn; try exact Hinv; try discriminate.
Qed.

Lemma consume_no_key_yet (config : DecryptConfig) (items : list StreamItem) (st st' : state) :
  no_key_yet st -> consume config items st = (st', Ret tt) -> no_key_yet st'.
Proof.
  revert st. induction items as [|item items IH]; intros st Hinv; cbn [consume].
  - intros [= <-]. exact Hinv.
  - destruct (step config st item) as [st1 [[]| |]] eqn:Hstep; try discriminate.
    apply IH. exact (step_no_key_yet config st st1 item Hinv Hstep).
Qed.

End KeyUnwrap.

Section KeyUnwrapPath.

(** C2.  At the first data chunk exactly one unwrap path is taken, chosen
    as the specification says.  By password: the step fails with the
    failure of [DecryptWithPassword] or goes on with its key, and the
    private-key primitives of the platform play no part.  By private key
    (only when the password path does not apply): likewise with
    [DecryptWithPrivateKey].  Otherwise the call returns the error "not
    enough information to decrypt data" and no session key exists.  Once
    a decryptor exists, later data chunks unwrap nothing. *)
Theorem key_unwrap_path_fires (P : Platform) (config : DecryptConfig)
        (items : list StreamItem) (st : state) (data : list byte) :
  @consume P config items initial = (st, Ret tt) ->
  (decryptor st = None ->
   match key_unwrap_path config st with
  | ByPassword =>
      exists password encKey1,
        Password config = Some password /\ encKey1Bytes st = Some encKey1
        /\ match DecryptWithPassword encKey1 password (salt st) with
           | Ret key => forall st', @on_data P config st data = (st', Ret tt) ->
                                    sessionKey st' = Some key
           | Err e => @on_data P config st data = (st, Err (ErrSessionKeyPassword e))
           | Panics p => @on_data P config st data = (st, Panics p)
           end
        /\ forall P' : Platform, @on_data P' config st data = @on_data P config st data
  | ByPrivateKey =>
      exists privateKey encKey2,
        PrivateKey config = Some privateKey /\ encKey2Bytes st = Some encKey2
        /\ (Password config = None \/ encKey1Bytes st = None)
        /\ match @DecryptWithPrivateKey P encKey2 privateKey with
           | Ret key => forall st', @on_data P config st data = (st', Ret tt) ->
                                    sessionKey st' = Some key
           | Err e => @on_data P config st data = (st, Err (ErrSessionKeyPrivateKey e))
           | Panics p => @on_data P config st data = (st, Panics p)
           end
  | NoPath =>
      @on_data P config st data = (st, Err ErrNotEnoughInformation)
      /\ sessionKey st = None
  end)
  /\ (forall blockMode : AES.BlockMode,
         decryptor st = Some blockMode ->
         @ensure_decryptor P config st = Ret (st, blockMode)).
Proof.
  intros Hc. split; [|intros blockMode Hdec; unfold ensure_decryptor; rewrite Hdec; reflexivity].
  intros Hdec.
  assert (Hkey : sessionKey st = None).
  { apply (consume_no_key_yet config items initial st); [intros _; reflexivity|exact Hc|exact Hdec]. }
  unfold key_unwrap_path.
  destruct st as [sk dec dig exp k1 k2 sa skh chunk fed]. cbn in Hdec, Hkey. subst dec sk.
  cbn [encKey1Bytes encKey2Bytes salt sessionKey].
  destruct (Password config) as [password|] eqn:Hpw, k1 as [encKey1|];
    cbn [bool_decide andb]; rewrite ?bool_decide_true, ?bool_decide_false by congruence;
    cbn [andb].
  - exists password, encKey1. split; [reflexivity|]. split; [reflexivity|]. split.
    + unfold_step. cbn. rewrite Hpw.
      destruct (DecryptWithPassword encKey1 password sa) as [key| |]; [|reflexivity..].
      intros st'. repeat (first [progress cbn | split_branch]);
        intros [= <-]; reflexivity.
    + intros P'. unfold_step. cbn. rewrite Hpw. reflexivity.
  - destruct (PrivateKey config) as [privateKey|] eqn:Hk, k2 as [encKey2|];
      rewrite ?bool_decide_true, ?bool_decide_false by congruence; cbn [andb].
    2-4: split; [|reflexivity]; unfold_step; cbn; rewrite Hpw, ?Hk; reflexivity.
    exists privateKey, encKey2. repeat (split; [auto; fail|]).
    unfold_step. cbn. rewrite Hpw, Hk.
    destruct (@DecryptWithPrivateKey P encKey2 privateKey) as [key| |]; [|reflexivity..].
    intros st'. repeat (first [progress cbn | split_branch]); intros [= <-]; reflexivity.
  - destruct (PrivateKey config) as [privateKey|] eqn:Hk, k2 as [encKey2|];
      rewrite ?bool_decide_true, ?bool_decide_false by congruence; cbn [andb].
    2-4: split; [|reflexivity]; unfold_step; cbn; rewrite Hpw, ?Hk; reflexivity.
    exists privateKey, encKey2. repeat (split; [auto; fail|]).
    unfold_step. cbn. rewrite Hpw, Hk.
    destruct (@DecryptWithPrivateKey P encKey2 privateKey) as [key| |]; [|reflexivity..].
    intros st'. repeat (first [progress cbn | split_branch]); intros [= <-]; reflexivity.
  - destruct (PrivateKey config) as [privateKey|] eqn:Hk, k2 as [encKey2|];
      rewrite ?bool_decide_true, ?bool_decide_false by congruence; cbn [andb].
    2-4: split; [|reflexivity]; unfold_step; cbn; rewrite Hpw, ?Hk; reflexivity.
    exists privateKey, encKey2. repeat (split; [auto; fail|]).
    unfold_step. cbn. rewrite Hpw, Hk.
    destruct (@DecryptWithPrivateKey P encKey2 privateKey) as [key| |]; [|reflexivity..].
    intros st'. repeat (first [progress cbn | split_branch]); intros [= <-]; reflexivity.
Qed.

End KeyUnwrapPath.

Lemma key_unwrap_path_fires_witness :
  let items := firstn 5 (@items_of platform_sorted sample_v1) in
  let st := fst (@consume platform_sorted config_pw items initial) in
  let data := Hex.of_text "4d8c42bfd3c4d948f562bd52c683b9c8d0f59f9d46a83c260990678a9045fcec" in
  @consume platform_sorted config_pw items initial = (st, Ret tt)
  /\ decryptor st = None
  /\ key_unwrap_path config_pw st = ByPassword
  /\ forall P' : Platform,
      @on_data P' config_pw st data = @on_data platform_sorted config_pw st data.
Proof.
  cbv zeta.
  set (items := firstn 5 (@items_of platform_sorted sample_v1)).
  set (st := fst (@consume platform_sorted config_pw items initial)).
  set (data := Hex.of_text "4d8c42bfd3c4d948f562bd52c683b9c8d0f59f9d46a83c260990678a9045fcec").
  assert (Hc : @consume platform_sorted config_pw items initial = (st, Ret tt))
    by (vm_compute; reflexivity).
  assert (Hd : decryptor st = None) by (vm_compute; reflexivity).
  assert (Hp : key_unwrap_path config_pw st = ByPassword) by (vm_compute; reflexivity).
  split; [exact Hc|]. split; [exact Hd|]. split; [exact Hp|].
  pose proof (proj1 (key_unwrap_path_fires platform_sorted config_pw items st data Hc) Hd)
    as Hfire.
  rewrite Hp in Hfire. destruct Hfire as (password & encKey1 & _ & _ & _ & Hany).
  exact Hany.
Defined.

Section StreamKey.
Context `{Platform}.

(** C1, as the driver has it.  The bytes fed to
    [OpenSSLKDF(., empty salt, 32, 16)] for the data-stream cipher are
    chosen by the salt decoded so far: with a non-empty salt and a
    session key that is valid hexadecimal text, the hex-decoded bytes;
    in every other case the raw session key.  The [version] header
    changes nothing in the state, so its major plays no part. *)
Theorem stream_key_chosen_by_salt (config : DecryptConfig) (st st' : state)
        (blockMode : AES.BlockMode) :
  decryptor st = None ->
  ensure_decryptor config st = Ret (st', blockMode) ->
  (exists sessionKey' key iv,
      sessionKey st' = Some sessionKey' /\ decryptor st' = Some blockMode
      /\ salt st' = salt st
      /\ OpenSSLKDF
           (match salt st, Hex.Decode sessionKey' with
            | _ :: _, Some decoded => decoded
            | _, _ => sessionKey'
            end) [] 32 16 = Ret (key, iv)
      /\ DecryptorWithKeyIV key iv = Ret blockMode)
  /\ (forall (value : Value) (st1 : state),
         on_header config st "version" value = Ret st1 -> st1 = st).
Proof.
  intros Hdec Hens. split.
  - unfold ensure_decryptor in Hens. rewrite Hdec in Hens.
    unfold mbind, outcome_bind in Hens.
    destruct (unwrap_session_key config st) as [[sessionKey'|]| |]; try discriminate.
    destruct (check_session_key_hash _ _) as [[]| |]; try discriminate.
    unfold DecryptorWithPassword, CSENCPBKDF, wrap, mbind, outcome_bind in Hens.
    change (256 / 8) with 32 in Hens.
    destruct (OpenSSLKDF (stream_key_material (salt st) sessionKey') [] 32 16)
      as [[key iv]| |] eqn:Hkdf; try discriminate.
    destruct (DecryptorWithKeyIV key iv) as [bm| |] eqn:Hbm; try discriminate.
    injection Hens as <- <-.
    exists sessionKey', key, iv. repeat split; try reflexivity; [|exact Hbm].
    rewrite <- Hkdf. f_equal. unfold stream_key_material.
    destruct st as [sk dec dig exp k1 k2 sa skh chunk fed]; cbn.
    destruct sa; cbn; [destruct (Hex.Decode sessionKey')|]; reflexivity.
  - intros value st1. unfold on_header. simpl String.eqb. cbv iota.
    unfold mbind, outcome_bind. destruct (on_version value) as [[]| |]; congruence.
Qed.

End StreamKey.

Lemma stream_key_chosen_by_salt_witness :
  let st := fst (@consume platform_sorted config_pw
                   (firstn 5 (@items_of platform_sorted sample_v3)) initial) in
  exists st' blockMode,
    @ensure_decryptor platform_sorted config_pw st = Ret (st', blockMode)
    /\ exists sessionKey' key iv,
        sessionKey st' = Some sessionKey' /\ decryptor st' = Some blockMode
        /\ salt st' = salt st
        /\ OpenSSLKDF
             (match salt st, Hex.Decode sessionKey' with
              | _ :: _, Some decoded => decoded
              | _, _ => sessionKey'
              end) [] 32 16 = Ret (key, iv)
        /\ DecryptorWithKeyIV key iv = Ret blockMode.
Proof.
  cbv zeta.
  destruct (@ensure_decryptor platform_sorted config_pw
              (fst (@consume platform_sorted config_pw
                      (firstn 5 (@items_of platform_sorted sample_v3)) initial)))
    as [[st' blockMode]| |] eqn:Hens;
    [| exfalso; vm_compute in Hens; discriminate ..].
  exists st', blockMode. split; [reflexivity|].
  apply (@stream_key_chosen_by_salt platform_sorted config_pw _ st' blockMode);
    [vm_compute; reflexivity | exact Hens].
Defined.

(** A container that declares major 3 and carries no salt: the driver
    derives the data-stream key from the raw session key, although the key
    is valid hexadecimal text, and so decrypts a chunk that was encrypted
    under the raw key. *)
Lemma version_3_without_salt_uses_raw_key :
  exists r decoded,
    (forall P : Platform, @DecryptStreamWithFilename P sample_v3 config_pw = Some r)
    /\ In (ItemKV "version"
             (VMap (<["major"%string := VInt 3]> (<["minor"%string := VInt 1]> ∅))))
          (@items_of platform_sorted sample_v3)
    /\ returned r = Ret tt
    /\ sessionKey (at_return r) = Some sample_session_key
    /\ Hex.Decode sample_session_key = Some decoded
    /\ option_map AES.schedule (decryptor (at_return r)) = key_schedule_from sample_session_key
    /\ key_schedule_from sample_session_key <> key_schedule_from decoded
    /\ lz4_stdin (at_return r) = sample_frame.
Proof.
  destruct (@DecryptStreamWithFilename platform_sorted sample_v3 config_pw) as [r|] eqn:Hr;
    [|vm_compute in Hr; discriminate].
  destruct (Hex.Decode sample_session_key) as [decoded|] eqn:Hd;
    [|vm_compute in Hd; discriminate].
  exists r, decoded. split.
  { intros P. rewrite <- Hr.
    apply DecryptStreamWithFilename_any_platform; vm_compute; reflexivity. }
  assert (Er : Some r = @DecryptStreamWithFilename platform_sorted sample_v3 config_pw)
    by (symmetry; exact Hr).
  assert (Ed : Some decoded = Hex.Decode sample_session_key) by (symmetry; exact Hd).
  clear Hr Hd.
  assert (r = match @DecryptStreamWithFilename platform_sorted sample_v3 config_pw with
              | Some r => r | None => r end) as -> by (rewrite <- Er; reflexivity).
  assert (decoded = match Hex.Decode sample_session_key with
                    | Some d => d | None => decoded end) as -> by (rewrite <- Ed; reflexivity).
  clear Er Ed.
  split; [vm_compute; tauto|].
  repeat split; try (vm_compute; reflexivity).
  vm_compute. discriminate.
Qed.

(** C7 fails on the code.  [readOrderedDict] fills a Go map and the
    goroutine ranges over it, so the headers of one metadata map reach the
    driver in an order the input does not fix: two platforms that differ
    only in the order of [range] emit different sequences for the same
    bytes, one of them not in the order of the encoding, and the driver,
    which checks [key1_hash] only once [enc_key1] is decoded, accepts a
    wrong password on one and rejects it on the other. *)
Theorem metadata_order_is_not_the_encoded_order :
  List.map Key (@items_of platform_sorted sample_two_headers)
  = ["key1_hash"; "enc_key1"]%string
  /\ List.map Key (@items_of platform_reversed sample_two_headers)
     = ["enc_key1"; "key1_hash"]%string
  /\ option_map returned
       (@DecryptStreamWithFilename platform_sorted sample_two_headers config_other_password)
     = Some (Ret tt)
  /\ option_map returned
       (@DecryptStreamWithFilename platform_reversed sample_two_headers config_other_password)
     = Some (Err ErrPasswordHashMismatch).
Proof. repeat split; vm_compute; reflexivity. Qed.

(** C10 fails on the code.  With a password configured and [enc_key1]
    decoded, a [key1_hash] shorter than ten characters panics in the slice
    [[:10]], one that is not a text string panics in the type assertion,
    and an empty [enc_key1] panics in [StripPKCS7Padding] at the first data
    chunk: on every platform the call does not return. *)
Theorem malformed_key1_hash_panics (P : Platform) :
  option_map returned (@DecryptStreamWithFilename P sample_short_key1_hash config_pw)
  = Some (Panics PanicSliceBounds)
  /\ option_map returned (@DecryptStreamWithFilename P sample_bytes_key1_hash config_pw)
     = Some (Panics PanicTypeAssertion)
  /\ option_map returned (@DecryptStreamWithFilename P sample_empty_enc_key1 config_pw)
     = Some (Panics PanicIndexOutOfRange).
Proof.
  repeat split;
    rewrite (DecryptStreamWithFilename_any_platform P platform_sorted)
      by (vm_compute; reflexivity);
    vm_compute; reflexivity.
Qed.

Section Cut.








End Cut.

Section CutStream.
Context `{Platform}.






End CutStream.

Section Blocks.

Lemma expand_prefix (fuel nk i : nat) (rcon : Z) (w : list (list Z)) :
  exists more, AES.expand fuel nk i rcon w = w ++ more.
Proof.
  revert i rcon w. induction fuel as [|fuel IH]; intros i rcon w; cbn [AES.expand].
  - exists []. rewrite app_nil_r. reflexivity.
  - match goal with
    | |- exists more, AES.expand fuel nk (S i) ?rc (w ++ [?x]) = _ =>
        destruct (IH (S i) rc (w ++ [x])) as [more ->]
    end.
    eexists. rewrite <- app_assoc. reflexivity.
Qed.







Lemma StripPKCS7Padding_panics (data : list byte) (p : panic) :
  StripPKCS7Padding data = Panics p -> data = [].
Proof.
  unfold StripPKCS7Padding. destruct (negb _); [discriminate|].
  destruct data as [|x data]; [reflexivity|].
  assert (E : exists pad, List.last (List.map Some (x :: data)) None = Some pad).
  { destruct (exists_last (l := x :: data) ltac:(discriminate)) as (l' & pad & ->).
    exists pad. rewrite map_app. cbn. apply last_last. }
  destruct E as [pad ->].
  destruct (16 <? _); [discriminate|].
  destruct (first_bad_padding _ _ _); discriminate.
Qed.

End Blocks.

Section Truncation.
Context `{Platform}.










End Truncation.



(** ** Test vectors of the library models, and the package's own tests *)

Section Vectors.

(** RFC 1321, appendix A.5. *)
Example md5_empty : Hex.EncodeToString (MD5.Sum []) = "d41d8cd98f00b204e9800998ecf8427e"%string.
Proof. vm_compute. reflexivity. Qed.

Example md5_abc :
Hex.EncodeToString (MD5.Sum (bytes_of_string "abc")) = "900150983cd24fb0d6963f7d28e17f72"%string.
Proof. vm_compute. reflexivity. Qed.

Example md5_two_blocks :
Hex.EncodeToString
  (MD5.Sum (bytes_of_string
     "12345678901234567890123456789012345678901234567890123456789012345678901234567890"))
= "57edf4a22be3c955ac49da2e2107b67a"%string.
Proof. vm_compute. reflexivity. Qed.

(** The second half of the preamble. *)
Example md5_magic :
Hex.EncodeToString (MD5.Sum (bytes_of_string MagicHeader))
= "d8d6ba7b9df02ef39a33ef912a91dc56"%string.
Proof. vm_compute. reflexivity. Qed.

(** FIPS-197, appendix C: AES-128, AES-192 and AES-256. *)
Example aes_inverse_cipher :
List.map
  (fun kc => match AES.NewCipher (Hex.of_text (fst kc)) with
             | Some rks => Hex.EncodeToString
                             (of_Zs (AES.InvCipher rks (to_Zs (Hex.of_text (snd kc)))))
             | None => ""%string
             end)
  [("000102030405060708090a0b0c0d0e0f"%string,
    "69c4e0d86a7b0430d8cdb78070b4c55a"%string);
   ("000102030405060708090a0b0c0d0e0f1011121314151617"%string,
    "dda97ca4864cdfe06eaf70a0ec0d7191"%string);
   ("000102030405060708090a0b0c0d0e0f101112131415161718191a1b1c1d1e1f"%string,
    "8ea2b7ca516745bfeafc49904b496089"%string)]
= ["00112233445566778899aabbccddeeff"; "00112233445566778899aabbccddeeff";
   "00112233445566778899aabbccddeeff"]%string.
Proof. vm_compute. reflexivity. Qed.

(** RFC 4648, section 10. *)
Example base64_vectors :
List.map (fun s => option_map string_of_bytes (Base64.DecodeString s))
         ["Zg=="; "Zm8="; "Zm9v"; "Zm9vYmFy"; "Zm9"; "invalid-base64!"]%string
= [Some "f"; Some "fo"; Some "foo"; Some "foobar"; None; None]%string.
Proof. vm_compute. reflexivity. Qed.

(** [TestOpenSSLKDF], without salt: the sizes asked for. *)
Example kdf_without_salt :
match OpenSSLKDF (bytes_of_string "testpassword") [] 32 16 with
| Ret (key, iv) => Some (Hex.EncodeToString key, Hex.EncodeToString iv)
| _ => None
end
= Some ("e16b2ab8d12314bf4efbd6203906ea6cf2141c95d0954ba274780b8a295c7b93"%string,
        "0864f66616192aad0da2d4e6f9abc0a0"%string).
Proof. vm_compute. reflexivity. Qed.

(** [TestStripPKCS7Padding]. *)
Example strip_padding_tests :
StripPKCS7Padding (Hex.of_text "68656c6c6f20776f726c640505050505")
= Ret (bytes_of_string "hello world")
/\ StripPKCS7Padding (Hex.of_text "746573740c0c0c0c0c0c0c0c0c0c0c0c")
   = Ret (bytes_of_string "test")
/\ StripPKCS7Padding (bytes_of_string "invalid") = Err ErrInvalidLength
/\ StripPKCS7Padding (Hex.of_text "746573741010101009") = Err ErrInvalidLength
/\ StripPKCS7Padding (Hex.of_text "746573742020202020202020202020202020202020")
   = Err ErrInvalidLength.
Proof. repeat split; vm_compute; reflexivity. Qed.

(** [TestSaltedHashOf]. *)
Example salted_hash_test :
SaltedHashOf "testsalt" (bytes_of_string "test data")
= "testsalt3d55ae9ad0a9432658b7074b178391bf"%string.
Proof. vm_compute. reflexivity. Qed.

(** The sample container decrypts to the frame of ["hello world"], whose
  MD5 is the declared one. *)
Example sample_v1_decrypts :
option_map (fun r => (returned r, lz4_stdin (at_return r),
                      string_of_bytes (@written platform_sorted (at_return r)),
                      Hex.EncodeToString (MD5.Sum (@written platform_sorted (at_return r)))))
           (@DecryptStreamWithFilename platform_sorted sample_v1 config_pw)
= Some (Ret tt, sample_frame, "hello world"%string,
        "5eb63bbbe01eeed093cb22bb8f5acdc3"%string).
Proof. vm_compute. reflexivity. Qed.

(** Scenario 2: the magic without its hash. *)
Example missing_magic_hash (P : Platform) (config : DecryptConfig) :
option_map returned
  (@DecryptStreamWithFilename P (bytes_of_string MagicHeader) config)
= Some (Err (ErrDecodeStream EOF))
/\ kind_of (ErrDecodeStream EOF) = BadMagic.
Proof. split; reflexivity. Qed.

End Vectors.

(* ================================================================= *)
(** ** Strings and their bytes *)

Section StringFacts.

Lemma string_of_bytes_of_string (s : string) : string_of_bytes (bytes_of_string s) = s.
Proof. apply string_of_list_byte_of_string. Qed.

Lemma bytes_of_string_of_bytes (l : list byte) : bytes_of_string (string_of_bytes l) = l.
Proof. apply list_byte_of_string_of_list_byte. Qed.

Lemma bytes_of_string_length (s : string) :
  List.length (bytes_of_string s) = String.length s.
Proof.
  unfold bytes_of_string, list_byte_of_string. rewrite length_map.
  induction s as [|a s IH]; simpl; [reflexivity|]. now rewrite IH.
Qed.

Lemma string_of_bytes_length (l : list byte) :
  String.length (string_of_bytes l) = List.length l.
Proof. now rewrite <- bytes_of_string_length, bytes_of_string_of_bytes. Qed.

Lemma string_length_append (s t : string) :
  String.length (s +:+ t) = (String.length s + String.length t)%nat.
Proof. induction s as [|a s IH]; simpl; [reflexivity|]. now rewrite IH. Qed.

Lemma string_prefix_append (s t : string) :
  string_prefix (String.length s) (s +:+ t) = s.
Proof.
  unfold string_prefix. induction s as [|a s IH]; simpl.
  - now destruct t.
  - now rewrite IH.
Qed.

Lemma string_prefix_split (n : nat) (s : string) :
  (n <= String.length s)%nat ->
  exists t, s = string_prefix n s +:+ t /\ String.length (string_prefix n s) = n.
Proof.
  unfold string_prefix. revert n. induction s as [|a s IH]; intros n Hn; simpl in *.
  - assert (n = O) as -> by lia. now exists ""%string.
  - destruct n as [|n]; [now exists (String a s)|].
    destruct (IH n ltac:(lia)) as (t & Ht & Hl). exists t. simpl.
    split; [change (String a s = String a (substring 0 n s +:+ t)); now rewrite <- Ht|now rewrite Hl].
Qed.

Lemma string_append_inj (s s' t t' : string) :
  String.length s = String.length s' -> s +:+ t = s' +:+ t' -> s = s' /\ t = t'.
Proof.
  revert s'. induction s as [|a s IH]; intros [|a' s'] Hl; simpl in *; try discriminate.
  - auto.
  - intros [= -> H]. destruct (IH s' ltac:(lia) H) as [-> ->]. auto.
Qed.

Lemma Hex_EncodeToString_length (bs : list byte) :
  String.length (Hex.EncodeToString bs) = (2 * List.length bs)%nat.
Proof.
  unfold Hex.EncodeToString. rewrite string_of_bytes_length.
  induction bs as [|b bs IH]; simpl; [reflexivity|]. rewrite IH. lia.
Qed.

End StringFacts.

(* ================================================================= *)
(** ** The preamble *)

Section Preamble.

Lemma preamble_parts :
  List.length (bytes_of_string MagicHeader) = String.length MagicHeader
  /\ List.length (bytes_of_string (Hex.EncodeToString (MD5.Sum (bytes_of_string MagicHeader))))
     = 32%nat.
Proof.
  split; [apply bytes_of_string_length|].
  now rewrite bytes_of_string_length, Hex_EncodeToString_length, MD5_Sum_length.
Qed.

Lemma ValidateHeader_success (input rest : list byte) :
  ValidateHeader input = inr (tt, rest) -> input = Wire.preamble ++ rest.
Proof.
  unfold Wire.preamble, ValidateHeader.
  destruct (read_exactly _ ErrIncompleteMagicHeader input) as [e|[magic r0]] eqn:E1;
    [discriminate|].
  apply read_exactly_split in E1 as [-> _].
  destruct (String.eqb_spec (string_of_bytes magic) MagicHeader) as [Hmagic|];
    [|discriminate]. cbn [negb].
  destruct (read_exactly 32 ErrIncompleteMagicHash r0) as [e|[hashBytes r1]] eqn:E2;
    [discriminate|].
  apply read_exactly_split in E2 as [-> _].
  destruct (String.eqb_spec (string_of_bytes hashBytes)
              (Hex.EncodeToString (MD5.Sum (bytes_of_string MagicHeader)))) as [Hhash|];
    [|discriminate]. cbn [negb].
  intros [= <-]. rewrite <- Hmagic at 1. rewrite <- Hhash.
  rewrite !bytes_of_string_of_bytes. now rewrite app_assoc.
Qed.

Lemma ValidateHeader_preamble (rest : list byte) :
  ValidateHeader (Wire.preamble ++ rest) = inr (tt, rest).
Proof.
  destruct preamble_parts as [Hm Hh].
  unfold Wire.preamble, ValidateHeader. rewrite <- app_assoc.
  rewrite (read_exactly_app _ _ _ _ Hm).
  rewrite string_of_bytes_of_string, String.eqb_refl. cbn [negb].
  rewrite (read_exactly_app _ _ _ _ Hh).
  rewrite string_of_bytes_of_string, String.eqb_refl. reflexivity.
Qed.

(** X1.  [ValidateHeader] succeeds on exactly the inputs that begin with
    the seventeen bytes of [MagicHeader] followed by the thirty-two
    lower-case hexadecimal digits of its MD5, and it leaves everything
    after these forty-nine bytes unread. *)
Theorem ValidateHeader_accepts_exactly_the_preamble (input rest : list byte) :
  ValidateHeader input = inr (tt, rest) <-> input = Wire.preamble ++ rest.
Proof.
  split; [apply ValidateHeader_success|]. intros ->. apply ValidateHeader_preamble.
Qed.

End Preamble.

(* ================================================================= *)
(** ** Decoding what was encoded *)

Section RoundTrip.
Import Encoded.

Lemma Uint16_be16 (n : nat) :
  Z.of_nat n < 65536 -> Z.to_nat (Uint16 (Wire.be16 n)) = n.
Proof.
  intros Hn. unfold Wire.be16, Uint16. rewrite !Z_of_byte_of_Z.
  pose proof (Z.div_mod (Z.of_nat n) 256 ltac:(lia)) as Hd.
  pose proof (Z.mod_pos_bound (Z.of_nat n) 256 ltac:(lia)) as Hm.
  assert (0 <= Z.of_nat n / 256 < 256) as Hq
      by (split; [apply Z.div_pos; lia|apply Z.div_lt_upper_bound; lia]).
  rewrite (Z.mod_small (Z.of_nat n / 256)) by exact Hq. lia.
Qed.

Lemma readBytes_blob (b rest : list byte) :
  Z.of_nat (List.length b) < 65536 ->
  readBytes (Wire.be16 (List.length b) ++ b ++ rest) = inr (b, rest).
Proof.
  intros Hb. unfold readBytes.
  rewrite (read_exactly_app 2 _ (Wire.be16 (List.length b))) by reflexivity.
  rewrite (Uint16_be16 _ Hb). now apply read_exactly_app.
Qed.

Lemma readString_text (s : string) (rest : list byte) :
  Z.of_nat (String.length s) < 65536 ->
  readString (Wire.be16 (String.length s) ++ bytes_of_string s ++ rest) = inr (s, rest).
Proof.
  intros Hs. unfold readString. rewrite <- (bytes_of_string_length s) at 1.
  rewrite readBytes_blob by (now rewrite bytes_of_string_length).
  now rewrite string_of_bytes_of_string.
Qed.

Lemma readInt_int (body rest : list byte) :
  Z.of_nat (List.length body) <= 8 ->
  readInt (byte_of_Z (Z.of_nat (List.length body)) :: body ++ rest)
  = inr (fold_left int_shift_or body 0, rest).
Proof.
  intros Hb. unfold readInt.
  rewrite (read_exactly_app 1 _ [byte_of_Z (Z.of_nat (List.length body))] (body ++ rest))
    by reflexivity.
  cbn [nth]. rewrite Z_of_byte_of_Z, Z.mod_small by lia. rewrite Nat2Z.id.
  destruct (Nat.ltb_spec 8 (List.length body)) as [|_]; [lia|].
  destruct (Nat.eqb_spec (List.length body) 0) as [H0|_].
  - destruct body; [reflexivity|discriminate].
  - now rewrite read_exactly_app.
Qed.

Lemma encode_map (entries : list (string * obj)) :
  encode (OMap entries) = x42 :: encode_pairs entries.
Proof. reflexivity. Qed.

Lemma value_of_map (entries : list (string * obj)) :
  value_of (OMap entries) = VMap (fill entries ∅).
Proof. reflexivity. Qed.

Lemma fits_map (entries : list (string * obj)) :
  fits (OMap entries) = fit_pairs entries.
Proof. reflexivity. Qed.

Lemma encode_pairs_length (entries : list (string * obj)) :
  (List.length entries < List.length (encode_pairs entries))%nat.
Proof.
  induction entries as [|[k v] l IH]; simpl; [lia|].
  rewrite !length_app. lia.
Qed.

Lemma pairs_decode (f : nat) :
  (forall (o : obj) (rest : list byte),
      fits o -> (List.length (encode o) < f)%nat ->
      ReadObject f (encode o ++ rest) = Some (inr (value_of o, rest))) ->
  forall (entries : list (string * obj)) (fuel : nat) (result : gmap string Value)
         (rest : list byte),
    fit_pairs entries ->
    (List.length (encode_pairs entries) < f)%nat ->
    (List.length entries < fuel)%nat ->
    dict_loop (ReadObject f) fuel result (encode_pairs entries ++ rest)
    = Some (inr (fill entries result, rest)).
Proof.
  intros IH. induction entries as [|[k v] l IHl]; intros fuel result rest Hfit Hf Hfuel;
    (destruct fuel as [|fuel]; [simpl in Hfuel; lia|]).
  - cbn [dict_loop encode_pairs fill].
    pose proof (IH ONull rest I Hf) as E.
    change (encode ONull ++ rest) with ([x40] ++ rest) in E. now rewrite E.
  - cbn [dict_loop encode_pairs fill]. destruct Hfit as (Hk & Hv & Hl).
    cbn [encode_pairs] in Hf. rewrite !length_app in Hf.
    rewrite <- app_assoc.
    rewrite (IH (OText k) _ Hk) by (cbn [encode]; lia). cbn [value_of].
    rewrite <- app_assoc. rewrite (IH v _ Hv) by lia.
    apply IHl; [exact Hl|lia|simpl in Hfuel; lia].
Qed.

Lemma ReadObject_encode (fuel : nat) (o : obj) (rest : list byte) :
  fits o -> (List.length (encode o) < fuel)%nat ->
  ReadObject fuel (encode o ++ rest) = Some (inr (value_of o, rest)).
Proof.
  revert o rest. induction fuel as [|f IH]; intros o rest Hfit Hf; [lia|].
  destruct o as [|body|b|s|entries].
  - reflexivity.
  - change (ReadObject (S f) (encode (OInt body) ++ rest))
      with (match readInt (byte_of_Z (Z.of_nat (List.length body)) :: body ++ rest) with
            | inl e => Some (inl e)
            | inr (n, rest') => Some (inr (VInt n, rest'))
            end).
    now rewrite (readInt_int body rest Hfit).
  - change (ReadObject (S f) (encode (OBytes b) ++ rest))
      with (match readBytes (Wire.be16 (List.length b) ++ b ++ rest) with
            | inl e => Some (inl e)
            | inr (b, rest') => Some (inr (VBytes b, rest'))
            end).
    now rewrite (readBytes_blob b rest Hfit).
  - change (ReadObject (S f) (encode (OText s) ++ rest))
      with (match readString (Wire.be16 (String.length s) ++ bytes_of_string s ++ rest) with
            | inl e => Some (inl e)
            | inr (s, rest') => Some (inr (VString s, rest'))
            end).
    now rewrite (readString_text s rest Hfit).
  - rewrite encode_map in Hf |- *. rewrite value_of_map. rewrite fits_map in Hfit.
    change (ReadObject (S f) ((x42 :: encode_pairs entries) ++ rest))
      with (match dict_loop (ReadObject f) f ∅ (encode_pairs entries ++ rest) with
            | None => None
            | Some (inl e) => Some (inl e)
            | Some (inr (m, rest')) => Some (inr (VMap m, rest'))
            end).
    cbn [List.length] in Hf. pose proof (encode_pairs_length entries).
    rewrite (pairs_decode f IH entries f ∅ rest Hfit) by lia. reflexivity.
Qed.

End RoundTrip.

(* ================================================================= *)
(** ** What the decoder accepts *)

Section Accepted.
Import Encoded.

Lemma be16_Uint16 (lengthBytes : list byte) :
  List.length lengthBytes = 2%nat ->
  Wire.be16 (Z.to_nat (Uint16 lengthBytes)) = lengthBytes
  /\ 0 <= Uint16 lengthBytes < 65536.
Proof.
  destruct lengthBytes as [|hi [|lo [|]]]; try discriminate. intros _.
  unfold Uint16, Wire.be16.
  pose proof (Z_of_byte_range hi). pose proof (Z_of_byte_range lo).
  rewrite Z2Nat.id by lia. split; [|lia].
  replace ((Z_of_byte hi * 256 + Z_of_byte lo) / 256) with (Z_of_byte hi)
    by (apply Z.div_unique with (r := Z_of_byte lo); lia).
  rewrite byte_of_Z_of_byte. f_equal. f_equal.
  rewrite <- (byte_of_Z_of_byte lo) at 2. unfold byte_of_Z. f_equal. f_equal. f_equal.
  rewrite Z.add_comm, Z.mod_add by lia. reflexivity.
Qed.

Lemma readBytes_success (input b rest : list byte) :
  readBytes input = inr (b, rest) ->
  input = Wire.be16 (List.length b) ++ b ++ rest /\ Z.of_nat (List.length b) < 65536.
Proof.
  unfold readBytes.
  destruct (read_exactly 2 _ input) as [e|[lengthBytes r0]] eqn:E1; [discriminate|].
  apply read_exactly_split in E1 as [-> Hl]. intros E2.
  apply read_exactly_split in E2 as [-> Hb].
  destruct (be16_Uint16 lengthBytes Hl) as [Hbe Hr].
  rewrite Hb, Hbe. split; [reflexivity|]. lia.
Qed.

Lemma readString_success (input : list byte) (s : string) (rest : list byte) :
  readString input = inr (s, rest) ->
  input = Wire.be16 (String.length s) ++ bytes_of_string s ++ rest
  /\ Z.of_nat (String.length s) < 65536.
Proof.
  unfold readString. destruct (readBytes input) as [e|[d r]] eqn:E; [discriminate|].
  intros [= <- <-]. apply readBytes_success in E as [-> Hd].
  now rewrite bytes_of_string_of_bytes, string_of_bytes_length.
Qed.

Lemma readInt_success (input : list byte) (n : Z) (rest : list byte) :
  readInt input = inr (n, rest) ->
  exists body, input = byte_of_Z (Z.of_nat (List.length body)) :: body ++ rest
               /\ Z.of_nat (List.length body) <= 8
               /\ n = fold_left int_shift_or body 0.
Proof.
  unfold readInt.
  destruct (read_exactly 1 _ input) as [e|[lengthByte r0]] eqn:E1; [discriminate|].
  apply read_exactly_split in E1 as [-> Hl].
  destruct lengthByte as [|L [|]]; try discriminate. cbn [nth].
  pose proof (Z_of_byte_range L) as HL.
  destruct (Nat.ltb_spec 8 (Z.to_nat (Z_of_byte L))) as [|Hle]; [discriminate|].
  destruct (Nat.eqb_spec (Z.to_nat (Z_of_byte L)) 0) as [H0|_].
  - intros [= <- <-]. exists []. cbn [List.length app fold_left].
    replace (Z.of_nat 0) with (Z_of_byte L) by lia.
    rewrite byte_of_Z_of_byte. split; [reflexivity|]. split; [lia|reflexivity].
  - destruct (read_exactly _ _ r0) as [e|[data r1]] eqn:E2; [discriminate|].
    intros [= <- <-]. apply read_exactly_split in E2 as [-> Hd]. exists data.
    rewrite Hd, Z2Nat.id, byte_of_Z_of_byte by lia. split; [reflexivity|]. split; [lia|reflexivity].
Qed.

Lemma ReadObject_success (f : nat) (input : list byte) (v : Value) (rest : list byte) :
  ReadObject (S f) input = Some (inr (v, rest)) ->
  (input = x40 :: rest /\ v = VNil)
  \/ (exists i b, input = x11 :: i /\ readBytes i = inr (b, rest) /\ v = VBytes b)
  \/ (exists i s, input = x10 :: i /\ readString i = inr (s, rest) /\ v = VString s)
  \/ (exists i n, input = x01 :: i /\ readInt i = inr (n, rest) /\ v = VInt n)
  \/ (exists i m, input = x42 :: i
                  /\ dict_loop (ReadObject f) f ∅ i = Some (inr (m, rest)) /\ v = VMap m).
Proof.
  cbn [ReadObject].
  destruct (read_exactly 1 EOF input) as [e|[headerByte r0]] eqn:E1; [discriminate|].
  apply read_exactly_split in E1 as [-> Hl].
  destruct headerByte as [|h [|]]; try discriminate. cbn [nth].
  destruct h; try discriminate.
  - destruct (readInt r0) as [e|[n r1]] eqn:E; [discriminate|]. intros [= <- <-].
    right; right; right; left. eauto.
  - destruct (readString r0) as [e|[s r1]] eqn:E; [discriminate|]. intros [= <- <-].
    right; right; left. eauto.
  - destruct (readBytes r0) as [e|[b r1]] eqn:E; [discriminate|]. intros [= <- <-].
    right; left. eauto.
  - intros [= <- <-]. left. auto.
  - destruct (dict_loop (ReadObject f) f ∅ r0) as [[e|[m r1]]|] eqn:E; try discriminate.
    intros [= <- <-]. right; right; right; right. eauto.
Qed.

Lemma pairs_accepted (f : nat) :
  (forall (input : list byte) (v : Value) (rest : list byte),
      ReadObject f input = Some (inr (v, rest)) ->
      exists o, fits o /\ input = encode o ++ rest /\ v = value_of o) ->
  forall (fuel : nat) (result : gmap string Value) (input : list byte)
         (m : gmap string Value) (rest : list byte),
    dict_loop (ReadObject f) fuel result input = Some (inr (m, rest)) ->
    exists entries, fit_pairs entries /\ input = encode_pairs entries ++ rest
                    /\ m = fill entries result.
Proof.
  intros IH. induction fuel as [|fuel IHf]; intros result input m rest; [discriminate|].
  cbn [dict_loop].
  destruct (ReadObject f input) as [[e|[key r0]]|] eqn:Ekey; try discriminate.
  destruct (IH _ _ _ Ekey) as (ok & Hfk & -> & Hk).
  destruct key as [|?|?|keyStr|?]; try discriminate.
  - intros [= <- <-]. exists []. split; [exact I|].
    destruct ok; try discriminate. auto.
  - destruct (ReadObject f r0) as [[e|[value r1]]|] eqn:Eval; try discriminate.
    destruct (IH _ _ _ Eval) as (ov & Hfv & -> & ->). intros Hloop.
    destruct (IHf _ _ _ _ Hloop) as (l & Hfl & -> & ->).
    destruct ok as [| | |s|]; try discriminate. injection Hk as ->.
    exists ((s, ov) :: l). cbn [fit_pairs encode_pairs fill].
    split; [exact (conj Hfk (conj Hfv Hfl))|]. split; [|reflexivity].
    cbn [encode]. now rewrite <- !app_assoc.
Qed.

Lemma ReadObject_accepted (fuel : nat) (input : list byte) (v : Value) (rest : list byte) :
  ReadObject fuel input = Some (inr (v, rest)) ->
  exists o, fits o /\ input = encode o ++ rest /\ v = value_of o.
Proof.
  revert input v rest. induction fuel as [|f IH]; intros input v rest; [discriminate|].
  intros Hr. apply ReadObject_success in Hr
    as [[-> ->]|[(i & b & -> & Hb & ->)|[(i & s & -> & Hs & ->)|[(i & n & -> & Hn & ->)
                                                                |(i & m & -> & Hm & ->)]]]].
  - now exists ONull.
  - apply readBytes_success in Hb as [-> Hb]. now exists (OBytes b).
  - apply readString_success in Hs as [-> Hs]. now exists (OText s).
  - apply readInt_success in Hn as (body & -> & Hb & ->). now exists (OInt body).
  - destruct (pairs_accepted f IH _ _ _ _ _ Hm) as (entries & Hf & -> & ->).
    now exists (OMap entries).
Qed.

(** X2.  With fuel for the whole input, [ReadObject] succeeds on exactly
    the inputs that begin with the encoding of an object whose lengths
    fit their fields: it returns the value of that object, a map being
    filled in the order of its pairs, and leaves what follows the
    encoding. *)
Theorem ReadObject_accepts_exactly_the_encodings
        (fuel : nat) (input : list byte) (v : Value) (rest : list byte) :
  (List.length input < fuel)%nat ->
  ReadObject fuel input = Some (inr (v, rest))
  <-> exists o, fits o /\ input = encode o ++ rest /\ v = value_of o.
Proof.
  intros Hfuel. split; [apply ReadObject_accepted|].
  intros (o & Hfit & -> & ->). apply ReadObject_encode; [exact Hfit|].
  rewrite length_app in Hfuel. lia.
Qed.

Lemma ReadObject_accepts_exactly_the_encodings_witness :
  ReadObject (object_fuel (encode version_3_1 ++ [x40])) (encode version_3_1 ++ [x40])
  = Some (inr (value_of version_3_1, [x40])).
Proof.
  set (o := version_3_1).
  apply (ReadObject_accepts_exactly_the_encodings
           (object_fuel (encode o ++ [x40])) (encode o ++ [x40]) (value_of o) [x40]).
  - unfold object_fuel. lia.
  - exists o. split; [|split; reflexivity]. vm_compute. intuition discriminate.
Defined.

End Accepted.

(* ================================================================= *)
(** ** The items of the channel *)

Section Items.
Import Encoded.
Context (P : Platform).

Lemma filter_all {A : Type} (f : A -> bool) (l : list A) :
  (forall x, In x l -> f x = true) -> List.filter f l = l.
Proof.
  induction l as [|a l IH]; intros Hall; simpl; [reflexivity|].
  rewrite (Hall a (or_introl eq_refl)), IH; [reflexivity|].
  intros x Hx. apply Hall. now right.
Qed.

Lemma headers_of_map (n : nat) (dict : gmap string Value) (itemType : Value) :
  dict !! "type"%string = Some itemType ->
  Permutation
    (List.filter (fun kv => negb (String.eqb (fst kv) "type")) (range_order n dict))
    (map_to_list (delete "type"%string dict)).
Proof.
  intros Htype.
  rewrite (Permutation_filter_bool _ _ _ (range_order_perm n dict)).
  rewrite (Permutation_filter_bool _ _ _
             (Permutation_sym (map_to_list_delete dict "type"%string itemType Htype))).
  cbn [List.filter fst]. rewrite String.eqb_refl. cbn [negb].
  rewrite filter_all; [reflexivity|].
  intros [k v] Hin. cbn [fst].
  apply list_elem_of_In, elem_of_map_to_list in Hin.
  destruct (String.eqb_spec k "type") as [->|]; [|reflexivity].
  rewrite lookup_delete_eq in Hin. discriminate.
Qed.

(** X3.  A map whose [type] is ["metadata"] puts one item on the channel
    for each of its other entries, with the key and the value of that
    entry, in some order; none for [type] itself; and the goroutine goes
    on to the next object. *)
Theorem emit_metadata_sends_each_header_once (n : nat) (dict : gmap string Value) :
  dict !! "type"%string = Some (VString "metadata") ->
  snd (emit n (VMap dict)) = true
  /\ Permutation (fst (emit n (VMap dict)))
       (List.map (fun kv => ItemKV (fst kv) (snd kv))
                 (map_to_list (delete "type"%string dict))).
Proof.
  intros Htype. unfold emit. rewrite Htype. cbn [String.eqb Ascii.eqb Bool.eqb fst snd].
  split; [reflexivity|]. apply Permutation_map. exact (headers_of_map n dict _ Htype).
Qed.

Lemma emit_metadata_record (n : nat) (key : string) (value : Value) :
  key <> "type"%string ->
  emit n (VMap (<[key := value]> (<["type"%string := VString "metadata"]> ∅)))
  = ([ItemKV key value], true).
Proof.
  intros Hkey. set (dict := <[key := value]> _).
  assert (Htype : dict !! "type"%string = Some (VString "metadata")).
  { unfold dict. rewrite lookup_insert_ne by exact Hkey. apply lookup_insert_eq. }
  pose proof (headers_of_map n dict _ Htype) as Hperm.
  assert (Hdel : delete "type"%string dict = {[key := value]}).
  { unfold dict. rewrite delete_insert_ne by congruence.
    now rewrite delete_insert_eq, delete_empty. }
  rewrite Hdel, map_to_list_singleton in Hperm.
  apply Permutation_sym, Permutation_length_1_inv in Hperm.
  unfold emit. rewrite Htype. cbn [String.eqb Ascii.eqb Bool.eqb].
  now rewrite Hperm.
Qed.

Lemma emit_data_record (n : nat) (data : list byte) :
  emit n (VMap (<["data"%string := VBytes data]> (<["type"%string := VString "data"]> ∅)))
  = ([ItemData data], true).
Proof.
  unfold emit. rewrite lookup_insert_ne by discriminate. rewrite lookup_insert_eq.
  cbn [String.eqb Ascii.eqb Bool.eqb]. now rewrite lookup_insert_eq.
Qed.

Lemma encode_object_of (r : record) : encode (object_of r) = encode_record r.
Proof.
  destruct r as [key value|data]; cbn -[Wire.text Wire.blob encode];
    unfold Wire.metadata, Wire.data, Wire.map; cbn [flat_map fst snd];
    rewrite ?app_nil_r, <- ?app_assoc; reflexivity.
Qed.

Lemma fits_object_of (r : record) : fits_record r -> fits (object_of r).
Proof.
  destruct r as [key value|data]; cbn [fits_record object_of].
  - intros (_ & Hk & Hv). rewrite fits_map. cbn [fit_pairs fits].
    repeat split; try assumption; cbn; lia.
  - intros Hd. rewrite fits_map. cbn [fit_pairs fits].
    repeat split; try assumption; cbn; lia.
Qed.

Lemma emit_object_of (n : nat) (r : record) :
  fits_record r -> emit n (value_of (object_of r)) = ([item_of r], true).
Proof.
  destruct r as [key value|data]; cbn [fits_record object_of item_of]; rewrite value_of_map;
    cbn [fill value_of].
  - intros (Hkey & _). now apply emit_metadata_record.
  - intros _. apply emit_data_record.
Qed.

Lemma stream_loop_records (records : list record) (fuel n : nat) :
  Forall fits_record records -> (List.length records < fuel)%nat ->
  stream_loop fuel n (flat_map encode_record records) = Some (List.map item_of records).
Proof.
  intros Hfit. revert fuel n. induction Hfit as [|r l Hr _ IH]; intros fuel n Hfuel;
    (destruct fuel as [|fuel]; [simpl in Hfuel; lia|]).
  - reflexivity.
  - cbn [stream_loop flat_map List.map]. rewrite <- encode_object_of.
    rewrite ReadObject_encode;
      [|now apply fits_object_of|unfold object_fuel; rewrite length_app; lia].
    rewrite (emit_object_of n r Hr). rewrite IH by (simpl in Hfuel; lia). reflexivity.
Qed.

Lemma encode_record_length (records : list record) :
  (List.length records <= List.length (flat_map encode_record records))%nat.
Proof.
  induction records as [|r l IH]; [reflexivity|]. cbn [flat_map List.length].
  rewrite length_app. destruct r; simpl; lia.
Qed.

(** X4.  A container written as the preamble followed by metadata maps of
    one header each and data maps is decoded into exactly its records, in
    the order written and on every platform: one item with the key and the
    value of each header, one item with the bytes of each chunk, and no
    error item. *)
Theorem DecodeCSEncStream_returns_the_records (records : list record) :
  Forall fits_record records ->
  DecodeCSEncStream (Wire.preamble ++ flat_map encode_record records)
  = Some (inr (List.map item_of records)).
Proof.
  intros Hfit. unfold DecodeCSEncStream. rewrite ValidateHeader_preamble.
  pose proof (encode_record_length records).
  rewrite stream_loop_records; [reflexivity|exact Hfit|lia].
Qed.

End Items.

Lemma emit_metadata_sends_each_header_once_witness :
  snd (@emit platform_reversed 0 (VMap sample_headers)) = true
  /\ Permutation (fst (@emit platform_reversed 0 (VMap sample_headers)))
       (List.map (fun kv => ItemKV (fst kv) (snd kv))
                 (map_to_list (delete "type"%string sample_headers))).
Proof.
  apply (emit_metadata_sends_each_header_once platform_reversed 0 sample_headers).
  reflexivity.
Defined.

Lemma DecodeCSEncStream_returns_the_records_witness :
  @DecodeCSEncStream platform_reversed
    (Wire.preamble ++ flat_map Encoded.encode_record sample_records)
  = Some (inr (List.map Encoded.item_of sample_records)).
Proof.
  apply (DecodeCSEncStream_returns_the_records platform_reversed sample_records).
  repeat constructor; try discriminate; vm_compute; intuition discriminate.
Defined.

(* ================================================================= *)
(** ** What [StripPKCS7Padding] accepts *)

Section Stripping.

Lemma first_bad_padding_none (pad : byte) (i : nat) (tail : list byte) :
  first_bad_padding pad i tail = None -> tail = repeat pad (List.length tail).
Proof.
  revert i. induction tail as [|b t IH]; intros i; simpl; [reflexivity|].
  destruct (Byte.eqb b pad) eqn:E; [|discriminate].
  apply Byte.byte_dec_bl in E as ->. intros Hn. now rewrite <- (IH _ Hn).
Qed.

Lemma last_some (body : list byte) (pad : byte) :
  List.last (List.map Some (body ++ [pad])) None = Some pad.
Proof. rewrite map_app. apply last_last. Qed.

Lemma whole_blocks_nonempty (data : list byte) :
  data <> [] -> (List.length data mod 16 = 0)%nat -> (16 <= List.length data)%nat.
Proof.
  intros Hne Hmod. destruct data as [|b data]; [congruence|].
  pose proof (Nat.div_mod_eq (List.length (b :: data)) 16) as Hd.
  rewrite Hmod in Hd. simpl in *. lia.
Qed.

Lemma StripPKCS7Padding_success (data out : list byte) :
  StripPKCS7Padding data = Ret out ->
  exists body pad,
    data = body ++ [pad] /\ (List.length data mod 16 = 0)%nat /\ Z_of_byte pad <= 16
    /\ data = out ++ repeat pad (Z.to_nat (Z_of_byte pad)).
Proof.
  intros Hret. assert (Hne : data <> []) by (intros ->; discriminate Hret).
  revert Hret. unfold StripPKCS7Padding.
  destruct (Nat.eqb_spec (List.length data mod 16) 0) as [Hmod|]; [|discriminate].
  cbn [negb].
  destruct (exists_last Hne) as (body & pad & Hdata).
  pose proof (whole_blocks_nonempty data Hne Hmod) as H16.
  rewrite Hdata at 1. rewrite last_some.
  destruct (Z.ltb_spec 16 (Z_of_byte pad)) as [|Hpad]; [discriminate|].
  pose proof (Z_of_byte_range pad) as Hr.
  set (k := Z.to_nat (Z_of_byte pad)). assert (Hk : (k <= 16)%nat) by (unfold k; lia).
  destruct (first_bad_padding _ _ _) eqn:Ebad; [discriminate|]. intros [= <-].
  apply first_bad_padding_none in Ebad. rewrite length_skipn in Ebad.
  replace (List.length data - (List.length data - k))%nat with k in Ebad by lia.
  exists body, pad. repeat split; try assumption.
  subst k. rewrite <- Ebad. symmetry. apply firstn_skipn.
Qed.

Lemma StripPKCS7Padding_padded (out : list byte) (pad : byte) :
  out ++ repeat pad (Z.to_nat (Z_of_byte pad)) <> [] ->
  (List.length (out ++ repeat pad (Z.to_nat (Z_of_byte pad))) mod 16 = 0)%nat ->
  Z_of_byte pad <= 16 ->
  List.last (List.map Some (out ++ repeat pad (Z.to_nat (Z_of_byte pad)))) None = Some pad ->
  StripPKCS7Padding (out ++ repeat pad (Z.to_nat (Z_of_byte pad))) = Ret out.
Proof.
  intros Hne Hmod Hpad Hlast. unfold StripPKCS7Padding.
  rewrite Hmod, Hlast. cbn [Nat.eqb negb].
  destruct (Z.ltb_spec 16 (Z_of_byte pad)) as [|_]; [lia|].
  rewrite length_app, repeat_length.
  replace (List.length out + Z.to_nat (Z_of_byte pad) - Z.to_nat (Z_of_byte pad))%nat
    with (List.length out) by lia.
  rewrite drop_app_length, take_app_length, first_bad_padding_repeat. reflexivity.
Qed.

(** X5.  [StripPKCS7Padding] returns [out] exactly when its input is a
    whole number of 16-byte blocks, not empty, whose last byte [pad] is
    at most 16 and which is [out] followed by [pad] bytes equal to
    [pad]; a last byte of zero is accepted and strips nothing.  It
    panics (index out of range) exactly on the empty input. *)
Theorem StripPKCS7Padding_outcomes (data : list byte) :
  (forall out : list byte,
      StripPKCS7Padding data = Ret out
      <-> exists body pad,
          data = body ++ [pad] /\ (List.length data mod 16 = 0)%nat /\ Z_of_byte pad <= 16
          /\ data = out ++ repeat pad (Z.to_nat (Z_of_byte pad)))
  /\ (forall p : panic, StripPKCS7Padding data = Panics p <-> data = [] /\ p = PanicIndexOutOfRange)
  /\ StripPKCS7Padding (repeat x00 16) = Ret (repeat x00 16).
Proof.
  split; [|split].
  - intros out. split; [apply StripPKCS7Padding_success|].
    intros (body & pad & Hlast & Hmod & Hpad & Hdata).
    assert (Hl : List.last (List.map Some data) None = Some pad)
      by (rewrite Hlast; apply last_some).
    assert (Hne : data <> []) by (rewrite Hlast; now destruct body).
    rewrite Hdata in Hl, Hne, Hmod |- *. now apply StripPKCS7Padding_padded.
  - intros p. split.
    + intros Hp. pose proof (StripPKCS7Padding_panics data p Hp) as ->.
      split; [reflexivity|]. now injection Hp.
    + intros [-> ->]. reflexivity.
  - reflexivity.
Qed.

End Stripping.

(* ================================================================= *)
(** ** The decryptor of a password *)

Section Keys.

Lemma CSENCPBKDF_sizes (password salt : list byte) :
  exists key iv,
    CSENCPBKDF password salt = Ret (key, iv)
    /\ List.length key = 32%nat /\ List.length iv = 16%nat.
Proof.
  unfold CSENCPBKDF, OpenSSLKDF. change (256 / 8) with 32. cbn [Z.ltb Z.compare orb].
  set (count := if Nat.ltb 0 (List.length salt) then 1000%nat else 1%nat).
  assert (Hc : (0 < count)%nat) by (unfold count; destruct (Nat.ltb _ _); lia).
  rewrite (kdf_loop_blocks _ count password salt (32 + 16) [] [] Hc)
    by (apply blocks_for_fuel).
  cbn [app List.length]. change (EVP.blocks_for (32 + 16 - Z.of_nat 0)) with 3%nat.
  pose proof (concat_blocks_length 3 count [] password salt Hc) as Hl.
  set (fd := List.concat _) in *.
  exists (firstn (Z.to_nat 32) fd), (firstn (Z.to_nat 16) (skipn (Z.to_nat 32) fd)).
  split; [reflexivity|].
  rewrite !length_take, length_drop, Hl. split; reflexivity.
Qed.

Lemma expand_length (fuel nk i : nat) (rcon : Z) (w : list (list Z)) :
  List.length (AES.expand fuel nk i rcon w) = (List.length w + fuel)%nat.
Proof.
  revert i rcon w. induction fuel as [|f IH]; intros i rcon w; cbn [AES.expand]; [lia|].
  rewrite IH, length_app. simpl. lia.
Qed.

Lemma round_keys_length (fuel : nat) (w : list (list Z)) :
  (4 * fuel <= List.length w)%nat -> List.length (AES.round_keys fuel w) = fuel.
Proof.
  revert w. induction fuel as [|f IH]; intros w Hw; [reflexivity|].
  destruct w as [|a [|b [|c [|d rest]]]]; simpl in Hw; try lia.
  cbn [AES.round_keys List.length]. rewrite IH; [reflexivity|lia].
Qed.

Lemma key_words_length (n : nat) (key : list Z) :
  (4 * n <= List.length key)%nat -> List.length (AES.key_words n key) = n.
Proof.
  revert key. induction n as [|n IH]; intros key Hk; [reflexivity|].
  destruct key as [|a [|b [|c [|d rest]]]]; simpl in Hk; try lia.
  cbn [AES.key_words List.length]. rewrite IH; [reflexivity|lia].
Qed.

Lemma DecryptorWithPassword_ret (password salt : list byte) :
  exists blockMode,
    DecryptorWithPassword password salt = Ret blockMode
    /\ List.length (AES.schedule blockMode) = 15%nat
    /\ List.length (AES.iv blockMode) = 16%nat.
Proof.
  destruct (CSENCPBKDF_sizes password salt) as (key & iv & Hkdf & Hkey & Hiv).
  unfold DecryptorWithPassword. rewrite Hkdf. cbn [mbind outcome_bind].
  unfold DecryptorWithKeyIV, AES.NewCipher. rewrite Hkey, Hiv.
  cbn [Nat.eqb orb]. eexists. split; [reflexivity|]. cbn [AES.schedule AES.iv].
  split.
  - change (32 / 4)%nat with 8%nat. apply round_keys_length.
    rewrite expand_length, key_words_length; [lia|].
    unfold to_Zs. rewrite length_map, Hkey. lia.
  - unfold to_Zs. now rewrite length_map.
Qed.

(** X6.  [DecryptorWithPassword] returns a decryptor for every password
    and salt: the key derivation yields 32 bytes of key and 16 of IV, so
    the key has a size AES accepts (the schedule is that of AES-256, with
    fifteen round keys) and the IV is one block.  Its two error returns
    are never taken. *)
Theorem DecryptorWithPassword_always_returns (password salt : list byte) :
  (exists key iv,
      CSENCPBKDF password salt = Ret (key, iv)
      /\ List.length key = 32%nat /\ List.length iv = 16%nat)
  /\ exists blockMode,
      DecryptorWithPassword password salt = Ret blockMode
      /\ List.length (AES.schedule blockMode) = 15%nat
      /\ List.length (AES.iv blockMode) = 16%nat.
Proof. split; [apply CSENCPBKDF_sizes|apply DecryptorWithPassword_ret]. Qed.

End Keys.

(* ================================================================= *)
(** ** Salted hashes *)

Section SaltedHashes.

Lemma SaltedHashOf_length (salt : string) (data : list byte) :
  String.length (SaltedHashOf salt data) = (String.length salt + 32)%nat.
Proof.
  unfold SaltedHashOf.
  now rewrite string_length_append, Hex_EncodeToString_length, MD5_Sum_length.
Qed.

Lemma SaltedHashOf_prefix (salt : string) (data : list byte) :
  string_prefix (String.length salt) (SaltedHashOf salt data) = salt.
Proof. apply string_prefix_append. Qed.

Lemma salted_hash_of_prefix (n : nat) (h : string) (data : list byte) :
  (n <= String.length h)%nat ->
  SaltedHashOf (string_prefix n h) data = h ->
  String.length h = (n + 32)%nat.
Proof.
  intros Hn Heq. destruct (string_prefix_split n h Hn) as (t & _ & Hl).
  rewrite <- Heq at 1. now rewrite SaltedHashOf_length, Hl.
Qed.

Lemma IsSaltedHashCorrect_true (saltedHash : string) (data : list byte) :
  IsSaltedHashCorrect saltedHash data = true
  <-> String.length saltedHash = 42%nat
      /\ SaltedHashOf (string_prefix 10 saltedHash) data = saltedHash.
Proof.
  unfold IsSaltedHashCorrect.
  destruct (Nat.ltb_spec (String.length saltedHash) 10) as [H10|H10].
  { split; [discriminate|]. intros [Hl _]. lia. }
  destruct (Nat.ltb_spec (String.length saltedHash) (10 + 32)) as [H42|H42].
  { split; [discriminate|]. intros [Hl _]. lia. }
  cbv zeta.
  destruct (Nat.ltb_spec 10 (String.length saltedHash - 32)) as [Hlong|Hshort].
  - rewrite String.eqb_eq. split.
    + intros Heq. split; [|exact Heq].
      apply salted_hash_of_prefix in Heq; lia.
    + intros [Hl _]. lia.
  - assert (Hl : (String.length saltedHash - 32 = 10)%nat) by lia. rewrite Hl.
    rewrite String.eqb_eq. split.
    + intros Heq. split; [lia|exact Heq].
    + intros [_ Heq]. exact Heq.
Qed.

(** X7.  [IsSaltedHashCorrect] accepts exactly the salted hashes made
    with a salt of ten characters: it returns true for [saltedHash] and
    [data] exactly when [saltedHash] is [SaltedHashOf salt data] for some
    [salt] of length ten.  [SaltedHashOf] itself puts the salt first and
    adds thirty-two characters, so a hash made with a salt of another
    length is never accepted. *)
Theorem IsSaltedHashCorrect_accepts_ten_character_salts (saltedHash : string) (data : list byte) :
  (IsSaltedHashCorrect saltedHash data = true
   <-> exists salt, String.length salt = 10%nat /\ saltedHash = SaltedHashOf salt data)
  /\ (forall salt,
         String.length (SaltedHashOf salt data) = (String.length salt + 32)%nat
         /\ string_prefix (String.length salt) (SaltedHashOf salt data) = salt
         /\ (IsSaltedHashCorrect (SaltedHashOf salt data) data = true
             <-> String.length salt = 10%nat)).
Proof.
  split.
  - rewrite IsSaltedHashCorrect_true. split.
    + intros [Hl Heq]. exists (string_prefix 10 saltedHash). split; [|now symmetry].
      destruct (string_prefix_split 10 saltedHash ltac:(lia)) as (t & _ & H10). exact H10.
    + intros (salt & Hl & ->). rewrite SaltedHashOf_length. split; [lia|].
      rewrite <- Hl at 1. now rewrite SaltedHashOf_prefix.
  - intros salt. split; [apply SaltedHashOf_length|]. split; [apply SaltedHashOf_prefix|].
    rewrite IsSaltedHashCorrect_true, SaltedHashOf_length. split.
    + intros [Hl _]. lia.
    + intros Hl. split; [lia|]. rewrite <- Hl at 1. now rewrite SaltedHashOf_prefix.
Qed.

End SaltedHashes.

(* ================================================================= *)
(** ** The hash checks of the driver *)

Section HashChecks.

Lemma IsSaltedHashCorrect_false (saltedHash : string) (data : list byte) :
  IsSaltedHashCorrect saltedHash data = false
  <-> ~ (String.length saltedHash = 42%nat
         /\ SaltedHashOf (string_prefix 10 saltedHash) data = saltedHash).
Proof.
  rewrite <- IsSaltedHashCorrect_true. destruct (IsSaltedHashCorrect _ _); split.
  - discriminate.
  - intros Hn. now contradiction Hn.
  - intros _ [=].
  - reflexivity.
Qed.

Lemma check_session_key_hash_eq (sessionKeyHash : string) (sessionKey : list byte) :
  check_session_key_hash sessionKeyHash sessionKey
  = if String.eqb sessionKeyHash "" || IsSaltedHashCorrect sessionKeyHash sessionKey
    then Ret tt else Err ErrSessionKeyHashMismatch.
Proof.
  unfold check_session_key_hash.
  destruct (String.eqb_spec sessionKeyHash "") as [->|Hne]; [reflexivity|].
  cbn [negb orb].
  assert (Hpos : (0 < String.length sessionKeyHash)%nat)
    by (destruct sessionKeyHash; [congruence|simpl; lia]).
  destruct (Nat.ltb_spec 10 (String.length sessionKeyHash)) as [Hlong|Hshort].
  - cbn [Nat.ltb Nat.leb].
    destruct (String.eqb_spec sessionKeyHash
                (SaltedHashOf (string_prefix 10 sessionKeyHash) sessionKey)) as [Heq|Hneq];
      cbn [negb].
    + symmetry in Heq. pose proof (salted_hash_of_prefix 10 sessionKeyHash sessionKey ltac:(lia) Heq) as Hl.
      now rewrite (proj2 (IsSaltedHashCorrect_true _ _) (conj Hl Heq)).
    + rewrite (proj2 (IsSaltedHashCorrect_false _ _)); [reflexivity|].
      intros [_ Heq]. now apply Hneq.
  - destruct (Nat.ltb_spec 0 (String.length sessionKeyHash)) as [_|]; [|lia].
    destruct (String.eqb_spec sessionKeyHash
                (SaltedHashOf (string_prefix (String.length sessionKeyHash) sessionKeyHash)
                              sessionKey)) as [Heq|Hneq];
      cbn [negb].
    + symmetry in Heq. pose proof (salted_hash_of_prefix _ _ _ (Nat.le_refl _) Heq). lia.
    + rewrite (proj2 (IsSaltedHashCorrect_false _ _)); [reflexivity|].
      intros [Hl _]. lia.
Qed.

Lemma on_key1_hash_eq (config : DecryptConfig) (st : state) (password encKey1 : list byte)
      (s : string) :
  Password config = Some password -> encKey1Bytes st = Some encKey1 ->
  on_key1_hash config st (VString s)
  = if Nat.ltb (String.length s) 10 then Panics PanicSliceBounds
    else if IsSaltedHashCorrect s password then Ret tt
    else Err ErrPasswordHashMismatch.
Proof.
  intros Hp Hk. unfold on_key1_hash. rewrite Hp, Hk.
  destruct (Nat.ltb_spec (String.length s) 10) as [|Hlen]; [reflexivity|].
  destruct (String.eqb_spec (SaltedHashOf (string_prefix 10 s) password) s) as [Heq|Hneq];
    cbn [negb].
  - pose proof (salted_hash_of_prefix 10 _ _ Hlen Heq) as Hl.
    now rewrite (proj2 (IsSaltedHashCorrect_true _ _) (conj Hl Heq)).
  - rewrite (proj2 (IsSaltedHashCorrect_false _ _)); [reflexivity|].
    intros [_ Heq]. now apply Hneq.
Qed.

(** X8.  The two hash checks written out in [DecryptStreamWithFilename]
    decide what [IsSaltedHashCorrect] decides.  The session key passes
    exactly when [session_key_hash] is empty or is a correct salted hash
    of it; a hash of ten characters or fewer is compared and never
    matches.  With a password and [enc_key1] at hand, a [key1_hash]
    string of at least ten characters passes exactly when it is a correct
    salted hash of the password, and a shorter one panics on the slice
    [[:10]]. *)
Theorem hash_checks_decide_IsSaltedHashCorrect
        (config : DecryptConfig) (st : state) (password encKey1 : list byte) :
  Password config = Some password -> encKey1Bytes st = Some encKey1 ->
  (forall (sessionKeyHash : string) (sessionKey : list byte),
      check_session_key_hash sessionKeyHash sessionKey
      = if String.eqb sessionKeyHash "" || IsSaltedHashCorrect sessionKeyHash sessionKey
        then Ret tt else Err ErrSessionKeyHashMismatch)
  /\ (forall s : string,
         on_key1_hash config st (VString s)
         = if Nat.ltb (String.length s) 10 then Panics PanicSliceBounds
           else if IsSaltedHashCorrect s password then Ret tt
           else Err ErrPasswordHashMismatch)
  /\ (forall (sessionKeyHash : string) (sessionKey : list byte),
         (0 < String.length sessionKeyHash <= 10)%nat ->
         check_session_key_hash sessionKeyHash sessionKey = Err ErrSessionKeyHashMismatch).
Proof.
  intros Hp Hk. split; [exact check_session_key_hash_eq|].
  split; [intros s; now apply (on_key1_hash_eq config st password encKey1)|].
  intros h key [Hpos Hle]. rewrite check_session_key_hash_eq.
  destruct (String.eqb_spec h "") as [->|_]; [simpl in Hpos; lia|]. cbn [orb].
  rewrite (proj2 (IsSaltedHashCorrect_false _ _)); [reflexivity|]. intros [Hl _]. lia.
Qed.

Lemma hash_checks_decide_IsSaltedHashCorrect_witness :
  check_session_key_hash "abcdefghij7863c1bb6c2468f2a68053c0e1b424ae" sample_session_key
  = Ret tt
  /\ on_key1_hash config_pw (set_encKey1Bytes [] initial)
       (VString "0123456789e02608cd2b6dc077e53a2090f1c35397") = Ret tt
  /\ check_session_key_hash "abcdefghij" sample_session_key = Err ErrSessionKeyHashMismatch.
Proof.
  destruct (hash_checks_decide_IsSaltedHashCorrect
              config_pw (set_encKey1Bytes [] initial) (bytes_of_string "pw") []
              eq_refl eq_refl) as (Hkey & Hpw & Hshort).
  split; [|split].
  - rewrite Hkey. reflexivity.
  - rewrite Hpw. reflexivity.
  - apply Hshort. simpl. lia.
Defined.

End HashChecks.

(* ================================================================= *)
(** ** Block decryption keeps lengths and composes *)

Section Chaining.

Lemma NewCipher_first_key_length (key : list byte) (rks : list (list Z)) :
  AES.NewCipher key = Some rks -> rks <> [] /\ List.length (nth 0 rks []) = 16%nat.
Proof.
  unfold AES.NewCipher. set (nk := (List.length key / 4)%nat).
  destruct (Nat.eqb (List.length key) 16 || Nat.eqb (List.length key) 24
            || Nat.eqb (List.length key) 32) eqn:El; [|discriminate].
  intros [= <-].
  assert (Hl : (16 <= List.length key)%nat).
  { apply orb_true_iff in El as [El|El]; [apply orb_true_iff in El as [El|El]|];
      apply Nat.eqb_eq in El; lia. }
  assert (Hnk : exists m, (nk = 4 + m)%nat).
  { exists (nk - 4)%nat.
    assert (4 <= nk)%nat by (apply Nat.div_le_lower_bound; lia). lia. }
  clearbody nk. destruct Hnk as [m ->].
  do 16 (destruct key as [|? key]; [simpl in Hl; lia|]).
  cbn [to_Zs List.map AES.key_words Nat.add].
  match goal with
  | |- context [AES.expand ?f ?nk ?i ?rc ?w] =>
      destruct (expand_prefix f nk i rc w) as [more ->]
  end.
  cbn. split; [discriminate|reflexivity].
Qed.

Lemma DecryptorWithPassword_block_sized (password salt : list byte) (blockMode : AES.BlockMode) :
  DecryptorWithPassword password salt = Ret blockMode -> block_sized blockMode.
Proof.
  unfold DecryptorWithPassword, mbind, outcome_bind.
  destruct (CSENCPBKDF password salt) as [[key iv]| |]; try discriminate.
  unfold DecryptorWithKeyIV.
  destruct (AES.NewCipher key) as [block|] eqn:Eb; [|discriminate].
  destruct (Nat.eqb_spec (List.length iv) 16) as [Hiv|]; [|discriminate].
  intros [= <-]. destruct (NewCipher_first_key_length key block Eb) as [Hne Hl].
  repeat split; cbn; [exact Hne|exact Hl|]. unfold to_Zs. now rewrite length_map.
Qed.

Lemma xor_bytes_length (a b : list Z) :
  List.length (AES.xor_bytes a b) = Nat.min (List.length a) (List.length b).
Proof.
  revert b. induction a as [|x a IH]; intros [|y b]; simpl; try reflexivity.
  now rewrite IH.
Qed.

Lemma InvCipher_length (rks : list (list Z)) (block : list Z) :
  rks <> [] -> List.length (nth 0 rks []) = 16%nat ->
  List.length (AES.InvCipher rks block) = 16%nat.
Proof.
  intros Hne Hl. unfold AES.InvCipher.
  destruct (rev rks) as [|last middle] eqn:Er.
  - apply (f_equal (@rev _)) in Er. rewrite rev_involutive in Er. now subst.
  - rewrite xor_bytes_length, length_map, Hl. reflexivity.
Qed.

Lemma cbc_nil (fuel : nat) (rks : list (list Z)) (prev : list Z) :
  AES.cbc fuel rks prev [] = ([], prev).
Proof. now destruct fuel. Qed.

Lemma cbc_cons (fuel : nat) (rks : list (list Z)) (prev : list Z) (x : Z) (src : list Z) :
  AES.cbc (S fuel) rks prev (x :: src)
  = (AES.xor_bytes (AES.InvCipher rks (firstn 16 (x :: src))) prev
       ++ fst (AES.cbc fuel rks (firstn 16 (x :: src)) (skipn 16 (x :: src))),
     snd (AES.cbc fuel rks (firstn 16 (x :: src)) (skipn 16 (x :: src)))).
Proof.
  cbn [AES.cbc]. now destruct (AES.cbc fuel rks _ _).
Qed.

Lemma cbc_fuel (fuel fuel' : nat) (rks : list (list Z)) (prev src : list Z) :
  (List.length src <= fuel)%nat -> (List.length src <= fuel')%nat ->
  AES.cbc fuel rks prev src = AES.cbc fuel' rks prev src.
Proof.
  revert fuel' prev src. induction fuel as [|f IH]; intros fuel' prev src Hf Hf'.
  - destruct src; [|simpl in Hf; lia]. now rewrite !cbc_nil.
  - destruct src as [|x src]; [now rewrite !cbc_nil|].
    destruct fuel' as [|f']; [simpl in Hf'; lia|].
    rewrite !cbc_cons.
    assert (Hs : (List.length (skipn 16 (x :: src)) <= List.length src)%nat)
      by (rewrite length_skipn; simpl; lia).
    simpl in Hf, Hf'.
    now rewrite (IH f' _ (skipn 16 (x :: src))) by lia.
Qed.

Lemma cbc_app (k : nat) :
  forall (fuel fa fb : nat) (rks : list (list Z)) (prev a b : list Z),
    List.length a = (16 * k)%nat ->
    (List.length (a ++ b) <= fuel)%nat -> (List.length a <= fa)%nat ->
    (List.length b <= fb)%nat ->
    AES.cbc fuel rks prev (a ++ b)
    = (fst (AES.cbc fa rks prev a) ++ fst (AES.cbc fb rks (snd (AES.cbc fa rks prev a)) b),
       snd (AES.cbc fb rks (snd (AES.cbc fa rks prev a)) b)).
Proof.
  induction k as [|k IH]; intros fuel fa fb rks prev a b Ha Hfuel Hfa Hfb.
  - destruct a; [|simpl in Ha; lia]. rewrite cbc_nil. cbn [app fst snd].
    rewrite (cbc_fuel fuel fb) by (simpl in Hfuel; lia).
    now destruct (AES.cbc fb rks prev b).
  - destruct a as [|x a]; [simpl in Ha; lia|].
    destruct fuel as [|fuel]; [simpl in Hfuel; lia|].
    destruct fa as [|fa]; [simpl in Hfa; lia|].
    change ((x :: a) ++ b) with (x :: (a ++ b)). rewrite !cbc_cons.
    change (x :: (a ++ b)) with ((x :: a) ++ b).
    rewrite (take_app_le (x :: a) b 16) by lia.
    rewrite (drop_app_le (x :: a) b 16) by lia.
    assert (Hd : List.length (skipn 16 (x :: a)) = (16 * k)%nat)
      by (rewrite length_skipn; lia).
    rewrite (IH fuel fa fb rks _ (skipn 16 (x :: a)) b Hd);
      [|rewrite length_app in *; simpl in *; lia|simpl in *; lia|lia].
    cbn [fst snd]. now rewrite <- app_assoc.
Qed.

Lemma cbc_length (k : nat) :
  forall (fuel : nat) (rks : list (list Z)) (prev src : list Z),
    rks <> [] -> List.length (nth 0 rks []) = 16%nat ->
    List.length prev = 16%nat -> List.length src = (16 * k)%nat ->
    (List.length src <= fuel)%nat ->
    List.length (fst (AES.cbc fuel rks prev src)) = List.length src
    /\ List.length (snd (AES.cbc fuel rks prev src)) = 16%nat.
Proof.
  induction k as [|k IH]; intros fuel rks prev src Hne Hrk Hprev Hsrc Hfuel.
  - destruct src; [|simpl in Hsrc; lia]. rewrite cbc_nil. auto.
  - destruct src as [|x src]; [simpl in Hsrc; lia|].
    destruct fuel as [|fuel]; [simpl in Hfuel; lia|].
    rewrite cbc_cons. cbn [fst snd].
    assert (Hc : List.length (firstn 16 (x :: src)) = 16%nat)
      by (rewrite length_take; lia).
    assert (Hd : List.length (skipn 16 (x :: src)) = (16 * k)%nat)
      by (rewrite length_skipn; lia).
    destruct (IH fuel rks (firstn 16 (x :: src)) (skipn 16 (x :: src)) Hne Hrk Hc Hd)
      as [Ho Hl]; [simpl in *; lia|].
    split; [|exact Hl].
    rewrite length_app, xor_bytes_length, (InvCipher_length _ _ Hne Hrk), Hprev, Ho, Hd.
    rewrite Hsrc. simpl. lia.
Qed.

Lemma whole_blocks (n : nat) : (n mod 16 = 0)%nat -> exists k, n = (16 * k)%nat.
Proof.
  intros Hm. exists (n / 16)%nat. pose proof (Nat.div_mod_eq n 16). lia.
Qed.

Lemma CryptBlocks_ret (blockMode : AES.BlockMode) (src : list byte) :
  (List.length src mod 16 = 0)%nat ->
  CryptBlocks blockMode src
  = Ret (of_Zs (fst (AES.cbc (List.length src) (AES.schedule blockMode)
                             (AES.iv blockMode) (to_Zs src))),
         AES.mkBlockMode (AES.schedule blockMode)
           (snd (AES.cbc (List.length src) (AES.schedule blockMode)
                         (AES.iv blockMode) (to_Zs src)))).
Proof.
  intros Hm. unfold CryptBlocks, AES.CryptBlocks. rewrite Hm. cbn [Nat.eqb].
  now destruct (AES.cbc _ _ _ _).
Qed.

Lemma CryptBlocks_panics (blockMode : AES.BlockMode) (src : list byte) :
  (List.length src mod 16 <> 0)%nat ->
  CryptBlocks blockMode src = Panics PanicInputNotFullBlocks.
Proof.
  intros Hm. unfold CryptBlocks, AES.CryptBlocks.
  now destruct (Nat.eqb_spec (List.length src mod 16) 0).
Qed.

Lemma CryptBlocks_whole (blockMode blockMode' : AES.BlockMode) (src out : list byte) :
  CryptBlocks blockMode src = Ret (out, blockMode') -> (List.length src mod 16 = 0)%nat.
Proof.
  intros Hr. destruct (Nat.eq_dec (List.length src mod 16)%nat 0%nat) as [|Hn]; [assumption|].
  rewrite (CryptBlocks_panics _ _ Hn) in Hr. discriminate.
Qed.

Lemma CryptBlocks_length (blockMode blockMode' : AES.BlockMode) (src out : list byte) :
  block_sized blockMode -> CryptBlocks blockMode src = Ret (out, blockMode') ->
  List.length out = List.length src /\ block_sized blockMode'.
Proof.
  intros (Hne & Hrk & Hiv) Hr. pose proof (CryptBlocks_whole _ _ _ _ Hr) as Hm.
  rewrite (CryptBlocks_ret _ _ Hm) in Hr. injection Hr as <- <-.
  destruct (whole_blocks _ Hm) as [k Hk].
  destruct (cbc_length k (List.length src) (AES.schedule blockMode) (AES.iv blockMode)
                       (to_Zs src) Hne Hrk Hiv) as [Ho Hl];
    [unfold to_Zs; now rewrite length_map|unfold to_Zs; rewrite length_map; lia|].
  unfold of_Zs, to_Zs in *. rewrite length_map in *. split; [exact Ho|].
  repeat split; assumption.
Qed.

Lemma CryptBlocks_app (blockMode : AES.BlockMode) (a b : list byte) :
  (List.length a mod 16 = 0)%nat -> (List.length b mod 16 = 0)%nat ->
  CryptBlocks blockMode (a ++ b)
  = '(plain, blockMode') ← CryptBlocks blockMode a;
    '(plain', blockMode'') ← CryptBlocks blockMode' b;
    Ret (plain ++ plain', blockMode'').
Proof.
  intros Ha Hb.
  assert (Hab : (List.length (a ++ b) mod 16 = 0)%nat).
  { rewrite length_app. destruct (whole_blocks _ Ha) as [k ->].
    destruct (whole_blocks _ Hb) as [k' ->].
    replace (16 * k + 16 * k')%nat with ((k + k') * 16)%nat by lia.
    apply Nat.Div0.mod_mul. }
  rewrite (CryptBlocks_ret _ _ Hab), (CryptBlocks_ret _ _ Ha).
  cbn [mbind outcome_bind]. rewrite (CryptBlocks_ret _ _ Hb).
  cbn [mbind outcome_bind mret outcome_ret AES.schedule AES.iv].
  destruct (whole_blocks _ Ha) as [k Hk].
  unfold to_Zs. rewrite map_app.
  rewrite (cbc_app k (List.length (a ++ b)) (List.length a) (List.length b));
    rewrite ?length_app, ?length_map; try lia.
  cbn [fst snd]. unfold of_Zs. now rewrite map_app.
Qed.

End Chaining.

(* ================================================================= *)
(** ** What [DecryptWithPassword] returns *)

Section WithPassword.

Lemma whole_blocksb_spec (b : list byte) :
  whole_blocksb b = true <-> b <> [] /\ (List.length b mod 16 = 0)%nat.
Proof.
  unfold whole_blocksb. rewrite andb_true_iff, negb_true_iff, Nat.eqb_neq, Nat.eqb_eq.
  destruct b; simpl; intuition (try lia; try congruence).
Qed.

Lemma StripPKCS7Padding_err (data : list byte) (e : error) :
  StripPKCS7Padding data = Err e ->
  (e = ErrInvalidLength /\ (List.length data mod 16 <> 0)%nat)
  \/ (exists pad, e = ErrInvalidPaddingByte pad /\ 16 < Z_of_byte pad)
  \/ (exists i, e = ErrInvalidPaddingAt i).
Proof.
  unfold StripPKCS7Padding.
  destruct (Nat.eqb_spec (List.length data mod 16) 0) as [Hm|Hm]; cbn [negb].
  - destruct (List.last _ _) as [pad|]; [|discriminate].
    destruct (Z.ltb_spec 16 (Z_of_byte pad)).
    + intros [= <-]. right; left. eauto.
    + destruct (first_bad_padding _ _ _) as [i|]; [|discriminate].
      intros [= <-]. right; right. eauto.
  - intros [= <-]. left. auto.
Qed.

Lemma DecryptWithPassword_whole (ciphertext password salt : list byte) :
  ciphertext <> [] -> (List.length ciphertext mod 16 = 0)%nat ->
  exists blockMode plain blockMode',
    DecryptorWithPassword password salt = Ret blockMode
    /\ CryptBlocks blockMode ciphertext = Ret (plain, blockMode')
    /\ List.length plain = List.length ciphertext
    /\ DecryptWithPassword ciphertext password salt = StripPKCS7Padding plain.
Proof.
  intros Hne Hm.
  destruct (DecryptorWithPassword_ret password salt) as (bm & Hbm & _).
  pose proof (DecryptorWithPassword_block_sized _ _ _ Hbm) as Hsized.
  pose proof (CryptBlocks_ret bm ciphertext Hm) as Hc.
  destruct (CryptBlocks_length _ _ _ _ Hsized Hc) as [Hl _].
  eexists bm, _, _. split; [exact Hbm|]. split; [exact Hc|]. split; [exact Hl|].
  unfold DecryptWithPassword. rewrite Hbm. cbn [mbind outcome_bind]. rewrite Hc.
  reflexivity.
Qed.

Lemma DecryptWithPassword_no_panic (ciphertext password salt : list byte) (p : panic) :
  whole_blocksb ciphertext = true ->
  DecryptWithPassword ciphertext password salt <> Panics p.
Proof.
  rewrite whole_blocksb_spec. intros [Hne Hm].
  destruct (DecryptWithPassword_whole ciphertext password salt Hne Hm)
    as (bm & plain & bm' & _ & _ & Hl & ->).
  intros Hp. apply StripPKCS7Padding_panics in Hp. subst plain.
  destruct ciphertext; [congruence|discriminate].
Qed.

(** X9.  [DecryptWithPassword] panics exactly when the ciphertext is
    empty (index out of range in [StripPKCS7Padding]) or is not a whole
    number of blocks (in [CryptBlocks]).  On any other ciphertext it
    returns what [StripPKCS7Padding] makes of a plaintext of the same
    length, so its only errors are the two padding errors: neither
    ["invalid length"] nor a key size error can come out of it. *)
Theorem DecryptWithPassword_outcomes (ciphertext password salt : list byte) :
  (forall p : panic,
      DecryptWithPassword ciphertext password salt = Panics p
      <-> (ciphertext = [] /\ p = PanicIndexOutOfRange)
          \/ ((List.length ciphertext mod 16 <> 0)%nat /\ p = PanicInputNotFullBlocks))
  /\ (ciphertext <> [] -> (List.length ciphertext mod 16 = 0)%nat ->
      exists blockMode plain blockMode',
        DecryptorWithPassword password salt = Ret blockMode
        /\ CryptBlocks blockMode ciphertext = Ret (plain, blockMode')
        /\ List.length plain = List.length ciphertext
        /\ DecryptWithPassword ciphertext password salt = StripPKCS7Padding plain)
  /\ (forall e : error,
         DecryptWithPassword ciphertext password salt = Err e ->
         (exists pad, e = ErrInvalidPaddingByte pad /\ 16 < Z_of_byte pad)
         \/ (exists i, e = ErrInvalidPaddingAt i)).
Proof.
  destruct (DecryptorWithPassword_ret password salt) as (bm & Hbm & _).
  assert (Hempty : DecryptWithPassword [] password salt = Panics PanicIndexOutOfRange).
  { unfold DecryptWithPassword. rewrite Hbm. cbn [mbind outcome_bind].
    rewrite (CryptBlocks_ret bm [] eq_refl). reflexivity. }
  assert (Hpartial : (List.length ciphertext mod 16 <> 0)%nat ->
                     DecryptWithPassword ciphertext password salt
                     = Panics PanicInputNotFullBlocks).
  { intros Hm. unfold DecryptWithPassword. rewrite Hbm. cbn [mbind outcome_bind].
    now rewrite (CryptBlocks_panics bm ciphertext Hm). }
  split; [|split].
  - intros p. split.
    + intros Hp. destruct (Nat.eq_dec (List.length ciphertext mod 16)%nat 0%nat) as [Hm|Hm].
      * destruct ciphertext as [|x c].
        -- left. rewrite Hempty in Hp. split; [reflexivity|]. now injection Hp.
        -- exfalso. apply (DecryptWithPassword_no_panic (x :: c) password salt p); [|exact Hp].
           apply whole_blocksb_spec. split; [discriminate|exact Hm].
      * right. rewrite (Hpartial Hm) in Hp. split; [exact Hm|]. now injection Hp.
    + intros [[-> ->]|[Hm ->]]; [exact Hempty|exact (Hpartial Hm)].
  - apply DecryptWithPassword_whole.
  - intros e He.
    destruct (Nat.eq_dec (List.length ciphertext mod 16)%nat 0%nat) as [Hm|Hm];
      [|rewrite (Hpartial Hm) in He; discriminate].
    destruct ciphertext as [|x c]; [rewrite Hempty in He; discriminate|].
    destruct (DecryptWithPassword_whole (x :: c) password salt ltac:(discriminate) Hm)
      as (bm0 & plain & bm' & _ & _ & Hl & Heq).
    rewrite Heq in He. apply StripPKCS7Padding_err in He as [[_ Hbad]|He]; [|exact He].
    rewrite Hl in Hbad. contradiction.
Qed.

End WithPassword.

(* ================================================================= *)
(** ** The driver on well-formed items *)

Section Tame.
Context `{Platform}.

Lemma kept_initial : kept initial.
Proof. split; [|split]; intros x Hx; discriminate Hx. Qed.

Lemma on_header_fields (config : DecryptConfig) (st st' : state) (key : string)
      (value : Value) :
  on_header config st key value = Ret st' ->
  decryptor st' = decryptor st /\ decryptedChunk st' = decryptedChunk st
  /\ sessionKey st' = sessionKey st /\ lz4_stdin st' = lz4_stdin st.
Proof.
  destruct st as [sk dec dig exp k1 k2 sa skh chunk fed].
  unfold on_header, on_key1_hash, mbind, outcome_bind.
  repeat (first [progress cbn | split_branch]); intros [= <-]; auto.
Qed.

Lemma on_header_enc_key1 (config : DecryptConfig) (st st' : state) (key : string)
      (value : Value) :
  on_header config st key value = Ret st' ->
  encKey1Bytes st' = encKey1Bytes st
  \/ exists s b, key = "enc_key1"%string /\ value = VString s
                 /\ Base64.DecodeString s = Some b /\ encKey1Bytes st' = Some b.
Proof.
  unfold on_header.
  destruct (String.eqb key "digest").
  { destruct value as [| | |s|]; try discriminate.
    destruct (String.eqb s "md5"); [|discriminate]. intros [= <-]. now left. }
  destruct (String.eqb_spec key "enc_key1") as [->|_].
  { destruct value as [| | |s|]; try (intros [= <-]; now left).
    destruct (Base64.DecodeString s) as [b|] eqn:Eb; [|discriminate].
    intros [= <-]. right. exists s, b. auto. }
  destruct (String.eqb key "enc_key2").
  { destruct value as [| | |s|]; try (intros [= <-]; now left).
    destruct (Base64.DecodeString s) as [b|]; [|discriminate]. intros [= <-]. now left. }
  destruct (String.eqb key "key1_hash").
  { unfold mbind, outcome_bind. destruct (on_key1_hash config st value); try discriminate.
    intros [= <-]. now left. }
  destruct (String.eqb key "salt").
  { destruct value; intros [= <-]; now left. }
  destruct (String.eqb key "session_key_hash").
  { destruct value; intros [= <-]; now left. }
  destruct (String.eqb key "version").
  { unfold mbind, outcome_bind. destruct (on_version value); try discriminate.
    intros [= <-]. now left. }
  destruct (String.eqb key "file_md5").
  { destruct value; intros [= <-]; now left. }
  intros [= <-]. now left.
Qed.

Lemma on_header_no_panic (config : DecryptConfig) (st : state) (item : StreamItem)
      (p : panic) :
  tame item = true -> on_header config st (Key item) (Val item) <> Panics p.
Proof.
  unfold tame. rewrite !andb_true_iff. intros [[Hhash _] _]. unfold on_header.
  destruct (String.eqb (Key item) "digest").
  { destruct (Val item) as [| | |s|]; try discriminate. now destruct (String.eqb s "md5"). }
  destruct (String.eqb (Key item) "enc_key1").
  { destruct (Val item) as [| | |s|]; try discriminate. now destruct (Base64.DecodeString s). }
  destruct (String.eqb (Key item) "enc_key2").
  { destruct (Val item) as [| | |s|]; try discriminate. now destruct (Base64.DecodeString s). }
  destruct (String.eqb (Key item) "key1_hash").
  { unfold on_key1_hash, mbind, outcome_bind.
    destruct (Password config); [|discriminate].
    destruct (encKey1Bytes st); [|discriminate].
    destruct (Val item) as [| | |s|]; try discriminate.
    apply Nat.leb_le in Hhash.
    destruct (Nat.ltb_spec (String.length s) 10); [lia|].
    now destruct (negb _). }
  destruct (String.eqb (Key item) "salt"); [now destruct (Val item)|].
  destruct (String.eqb (Key item) "session_key_hash"); [now destruct (Val item)|].
  destruct (String.eqb (Key item) "version").
  { unfold on_version, mbind, outcome_bind.
    destruct (Val item) as [| | | |version]; try discriminate.
    destruct (version !! "major"%string) as [[]|]; try discriminate.
    destruct (version !! "minor"%string) as [[]|]; try discriminate.
    now destruct (_ && _). }
  destruct (String.eqb (Key item) "file_md5"); [now destruct (Val item)|].
  discriminate.
Qed.

Lemma on_header_kept (config : DecryptConfig) (st st' : state) (item : StreamItem) :
  kept st -> tame item = true ->
  on_header config st (Key item) (Val item) = Ret st' -> kept st'.
Proof.
  intros (Hk1 & Hdec & Hchunk) Htame Hr.
  destruct (on_header_fields _ _ _ _ _ Hr) as (E1 & E2 & _ & _).
  split; [|split; intros x; rewrite ?E1, ?E2; auto].
  intros b Hb.
  destruct (on_header_enc_key1 _ _ _ _ _ Hr) as [E|(s & b' & Ekey & Eval & Edec & E)].
  - rewrite E in Hb. auto.
  - rewrite E in Hb. injection Hb as <-.
    unfold tame in Htame. rewrite !andb_true_iff in Htame. destruct Htame as [[_ Ht] _].
    now rewrite Ekey, Eval, Edec in Ht.
Qed.

Lemma check_session_key_hash_no_panic (h : string) (key : list byte) (p : panic) :
  check_session_key_hash h key <> Panics p.
Proof. rewrite check_session_key_hash_eq. now destruct (_ || _). Qed.

Lemma DecryptWithPrivateKey_no_panic (ciphertext privateKey : list byte) (p : panic) :
  DecryptWithPrivateKey ciphertext privateKey <> Panics p.
Proof.
  unfold DecryptWithPrivateKey.
  destruct (ParsePKCS1PrivateKey privateKey) as [k|].
  - now destruct (DecryptOAEP k ciphertext).
  - destruct (ParsePKCS8PrivateKey privateKey) as [[k|]|]; try discriminate.
    now destruct (DecryptOAEP k ciphertext).
Qed.

Lemma unwrap_session_key_no_panic (config : DecryptConfig) (st : state) (p : panic) :
  kept st -> unwrap_session_key config st <> Panics p.
Proof.
  intros (Hk1 & _ & _). unfold unwrap_session_key, mbind, outcome_bind, wrap.
  destruct (Password config) as [password|];
    [destruct (encKey1Bytes st) as [encKey1|] eqn:Ek|].
  1: { pose proof (fun q => DecryptWithPassword_no_panic encKey1 password (salt st) q
                              (Hk1 encKey1 eq_refl)) as Hn.
       destruct (DecryptWithPassword encKey1 password (salt st)) as [a|e|q];
         try discriminate.
       now contradiction (Hn q). }
  all: destruct (PrivateKey config) as [privateKey|]; try discriminate;
    destruct (encKey2Bytes st) as [encKey2|]; try discriminate;
    pose proof (DecryptWithPrivateKey_no_panic encKey2 privateKey) as Hn;
    destruct (DecryptWithPrivateKey encKey2 privateKey) as [a|e|q]; try discriminate;
    now contradiction (Hn q).
Qed.

Lemma ensure_decryptor_tame (config : DecryptConfig) (st : state) :
  kept st ->
  match ensure_decryptor config st with
  | Ret (st', blockMode) =>
      block_sized blockMode /\ decryptedChunk st' = decryptedChunk st
      /\ encKey1Bytes st' = encKey1Bytes st
  | Err _ => True
  | Panics _ => False
  end.
Proof.
  intros Hkept. pose proof Hkept as (Hk1 & Hdec & Hchunk). unfold ensure_decryptor.
  destruct (decryptor st) as [bm|] eqn:Ed; [auto|].
  unfold mbind, outcome_bind, wrap.
  pose proof (unwrap_session_key_no_panic config st) as Hu.
  destruct (unwrap_session_key config st) as [[key|]|e|q]; try exact I;
    [|now apply (Hu q)].
  pose proof (check_session_key_hash_no_panic (sessionKeyHash st) key) as Hc.
  destruct (check_session_key_hash (sessionKeyHash st) key) as [[]|e|q]; try exact I;
    [|now apply (Hc q)].
  destruct (DecryptorWithPassword_ret (stream_key_material (salt st) key) [])
    as (bm & Hbm & _).
  rewrite Hbm. split; [exact (DecryptorWithPassword_block_sized _ _ _ Hbm)|]. auto.
Qed.

Lemma step_tame (config : DecryptConfig) (st : state) (item : StreamItem) :
  kept st -> tame item = true ->
  match step config st item with
  | (st', Ret _) => kept st'
  | (_, Err _) => True
  | (_, Panics _) => False
  end.
Proof.
  intros Hkept Htame. unfold step.
  destruct (Error item); [exact I|].
  destruct (negb _).
  - unfold lift.
    pose proof (on_header_no_panic config st item) as Hn.
    pose proof (fun st' => on_header_kept config st st' item Hkept Htame) as Hk.
    destruct (on_header config st (Key item) (Val item)) as [st1|e|q]; auto.
    now apply (Hn q).
  - destruct (Data item) as [data|] eqn:Edata; [|exact Hkept].
    assert (Hd : whole_blocksb data = true).
    { unfold tame in Htame. rewrite !andb_true_iff, Edata in Htame. tauto. }
    apply whole_blocksb_spec in Hd as [Hne Hm].
    unfold on_data. pose proof (ensure_decryptor_tame config st Hkept) as He.
    destruct (ensure_decryptor config st) as [[st1 bm]|e|q]; auto.
    destruct He as (Hbm & Ec & Ek).
    unfold lift, mbind, outcome_bind.
    pose proof (CryptBlocks_ret bm data Hm) as Hc.
    destruct (CryptBlocks_length _ _ _ _ Hbm Hc) as [Hl Hbm'].
    rewrite Hc. destruct Hkept as (Hk1 & _ & _).
    split; [|split].
    + intros b. destruct (decryptedChunk st1); cbn; rewrite Ek; auto.
    + intros x. destruct (decryptedChunk st1); cbn; intros [= <-]; exact Hbm'.
    + intros c. destruct (decryptedChunk st1); cbn; intros [= <-] Hnil;
        rewrite Hnil in Hl; destruct data; simpl in Hl; congruence.
Qed.

Lemma consume_tame (config : DecryptConfig) (items : list StreamItem) (st : state) :
  kept st -> forallb tame items = true ->
  match consume config items st with
  | (st', Ret _) => kept st'
  | (_, Err _) => True
  | (_, Panics _) => False
  end.
Proof.
  revert st. induction items as [|item rest IH]; intros st Hkept Htame; [exact Hkept|].
  cbn [forallb] in Htame. apply andb_true_iff in Htame as [Hitem Hrest].
  cbn [consume]. pose proof (step_tame config st item Hkept Hitem) as Hs.
  destruct (step config st item) as [st1 [[]|e|q]];
    [now apply IH|exact I|contradiction].
Qed.

(** X10.  On items that are well formed where the driver indexes and
    slices (every [key1_hash] a string of at least ten characters, every
    [enc_key1] decoding to a non-empty whole number of blocks, every data
    chunk a non-empty whole number of blocks) [DecryptStreamWithFilename]
    does not panic, whatever the configuration and the other headers: it
    returns nil or an error. *)
Theorem drive_does_not_panic_on_tame_items
        (config : DecryptConfig) (items : list StreamItem) :
  forallb tame items = true ->
  returned (drive config items) = Ret tt
  \/ exists e, returned (drive config items) = Err e.
Proof.
  intros Htame. unfold drive.
  pose proof (consume_tame config items initial kept_initial Htame) as Hc.
  destruct (consume config items initial) as [st [[]|e|q]]; [|right; eauto|contradiction].
  unfold flush_last, lift, mbind, outcome_bind, wrap.
  destruct Hc as (_ & _ & Hchunk).
  destruct (decryptedChunk st) as [chunk|].
  - pose proof (StripPKCS7Padding_panics chunk) as Hp.
    destruct (StripPKCS7Padding chunk) as [padded|e|q]; cbn [returned].
    + left. apply verify_md5_soft.
    + right. eauto.
    + exfalso. apply (Hchunk chunk eq_refl). exact (Hp q eq_refl).
  - left. apply verify_md5_soft.
Qed.

End Tame.

Lemma drive_does_not_panic_on_tame_items_witness :
  returned (@drive platform_sorted config_pw (@items_of platform_sorted sample_v1)) = Ret tt
  \/ exists e,
      returned (@drive platform_sorted config_pw (@items_of platform_sorted sample_v1)) = Err e.
Proof.
  apply (@drive_does_not_panic_on_tame_items platform_sorted config_pw
           (@items_of platform_sorted sample_v1)).
  vm_compute. reflexivity.
Defined.

(* ================================================================= *)
(** ** The data chunks as one stream *)

Section OneStream.
Context `{Platform}.

Lemma CryptBlocks_nil (blockMode : AES.BlockMode) :
  CryptBlocks blockMode [] = Ret ([], blockMode).
Proof. rewrite (CryptBlocks_ret blockMode [] eq_refl). now destruct blockMode. Qed.

Lemma on_data_keyed (config : DecryptConfig) (st st' : state) (blockMode : AES.BlockMode)
      (data : list byte) :
  decryptor st = Some blockMode ->
  on_data config st data = (st', Ret tt) ->
  exists plain blockMode',
    CryptBlocks blockMode data = Ret (plain, blockMode')
    /\ decryptor st' = Some blockMode' /\ sessionKey st' = sessionKey st
    /\ lz4_stdin st' = lz4_stdin st ++ pending st /\ pending st' = plain.
Proof.
  intros Hdec. unfold on_data, ensure_decryptor. rewrite Hdec.
  unfold lift, mbind, outcome_bind.
  destruct (CryptBlocks blockMode data) as [[plain bm']|e|q]; try discriminate.
  intros [= <-]. exists plain, bm'. split; [reflexivity|].
  unfold pending. destruct (decryptedChunk st); cbn; rewrite ?app_nil_r; auto.
Qed.

Lemma consume_one_stream (config : DecryptConfig) (items : list StreamItem) :
  forall (st0 st1 : state) (blockMode0 : AES.BlockMode),
    decryptor st0 = Some blockMode0 ->
    consume config items st0 = (st1, Ret tt) ->
    exists plain blockMode1,
      CryptBlocks blockMode0 (List.concat (chunks_of items)) = Ret (plain, blockMode1)
      /\ decryptor st1 = Some blockMode1 /\ sessionKey st1 = sessionKey st0
      /\ lz4_stdin st1 ++ pending st1 = lz4_stdin st0 ++ pending st0 ++ plain.
Proof.
  induction items as [|item rest IH]; intros st0 st1 bm0 Hdec.
  - intros [= <-]. exists [], bm0. rewrite CryptBlocks_nil, app_nil_r. auto.
  - cbn [consume chunks_of flat_map]. fold (chunks_of rest). unfold step.
    destruct (Error item); [discriminate|].
    destruct (String.eqb (Key item) ""); cbn [negb].
    + destruct (Data item) as [data|].
      * destruct (on_data config st0 data) as [st' [[]|e|q]] eqn:Ed; try discriminate.
        destruct (on_data_keyed _ _ _ _ _ Hdec Ed) as (p0 & bm' & Hc & Hdec' & Hk & Hin & Hp).
        intros Hrest.
        destruct (IH st' st1 bm' Hdec' Hrest) as (p1 & bm1 & Hc1 & Hdec1 & Hk1 & Hout).
        exists (p0 ++ p1), bm1. cbn [List.concat app].
        rewrite CryptBlocks_app, Hc;
          [|exact (CryptBlocks_whole _ _ _ _ Hc)|exact (CryptBlocks_whole _ _ _ _ Hc1)].
        cbn [mbind outcome_bind]. rewrite Hc1. cbn [mbind outcome_bind mret outcome_ret].
        split; [reflexivity|]. split; [exact Hdec1|]. split; [congruence|].
        rewrite Hout, Hin, Hp. now rewrite <- !app_assoc.
      * intros Hrest. cbn [app]. exact (IH st0 st1 bm0 Hdec Hrest).
    + unfold lift.
      destruct (on_header config st0 (Key item) (Val item)) as [st'|e|q] eqn:Eh;
        try discriminate.
      destruct (on_header_fields _ _ _ _ _ Eh) as (E1 & E2 & E3 & E4).
      intros Hrest. destruct (Data item); cbn [app];
        (destruct (IH st' st1 bm0 ltac:(congruence) Hrest)
          as (p1 & bm1 & Hc1 & Hdec1 & Hk1 & Hout);
         exists p1, bm1; split; [exact Hc1|]; split; [exact Hdec1|]; split; [congruence|];
         rewrite Hout, E4; unfold pending; now rewrite E2).
Qed.

(** X11.  Once the decryptor exists, the loop treats the data chunks as
    one stream: when it gets through [items], the bytes it has given to
    the decompressor, followed by the chunk it holds back, have grown by
    exactly the CBC decryption, under the decryptor it started with, of
    the concatenation of the data chunks.  How the ciphertext is cut into
    chunks and which headers stand between them makes no difference, and
    the session key stays what it was. *)
Theorem data_chunks_decrypt_as_one_stream
        (config : DecryptConfig) (items : list StreamItem) (st0 st1 : state)
        (blockMode0 : AES.BlockMode) :
  decryptor st0 = Some blockMode0 ->
  consume config items st0 = (st1, Ret tt) ->
  (exists plain blockMode1,
      CryptBlocks blockMode0 (List.concat (chunks_of items)) = Ret (plain, blockMode1)
      /\ decryptor st1 = Some blockMode1 /\ sessionKey st1 = sessionKey st0
      /\ lz4_stdin st1 ++ pending st1 = lz4_stdin st0 ++ pending st0 ++ plain)
  /\ (forall (items' : list StreamItem) (st1' : state),
         consume config items' st0 = (st1', Ret tt) ->
         List.concat (chunks_of items') = List.concat (chunks_of items) ->
         lz4_stdin st1' ++ pending st1' = lz4_stdin st1 ++ pending st1
         /\ decryptor st1' = decryptor st1).
Proof.
  intros Hdec Hc. split; [exact (consume_one_stream config items st0 st1 blockMode0 Hdec Hc)|].
  intros items' st1' Hc' Hsame.
  destruct (consume_one_stream config items st0 st1 blockMode0 Hdec Hc)
    as (p & bm & Hp & Hd & _ & Hout).
  destruct (consume_one_stream config items' st0 st1' blockMode0 Hdec Hc')
    as (p' & bm' & Hp' & Hd' & _ & Hout').
  rewrite Hsame, Hp in Hp'. injection Hp' as <- <-.
  split; congruence.
Qed.

End OneStream.

Lemma data_chunks_decrypt_as_one_stream_witness :
  exists plain blockMode1,
    CryptBlocks sample_decryptor (List.concat (chunks_of sample_chunks))
    = Ret (plain, blockMode1)
    /\ decryptor (fst (@consume platform_sorted config_pw sample_chunks sample_keyed))
       = Some blockMode1
    /\ sessionKey (fst (@consume platform_sorted config_pw sample_chunks sample_keyed))
       = sessionKey sample_keyed
    /\ lz4_stdin (fst (@consume platform_sorted config_pw sample_chunks sample_keyed))
         ++ pending (fst (@consume platform_sorted config_pw sample_chunks sample_keyed))
       = lz4_stdin sample_keyed ++ pending sample_keyed ++ plain.
Proof.
  apply (@data_chunks_decrypt_as_one_stream platform_sorted config_pw sample_chunks
           sample_keyed (fst (@consume platform_sorted config_pw sample_chunks sample_keyed))
           sample_decryptor).
  - reflexivity.
  - rewrite (surjective_pairing (@consume platform_sorted config_pw sample_chunks sample_keyed))
      at 1.
    apply f_equal. vm_compute. reflexivity.
Defined.

(* ================================================================= *)
(** ** What a successful run has given to the decompressor *)

Section Output.
Context `{Platform}.

Lemma on_data_first (config : DecryptConfig) (st st' : state) (data : list byte) :
  decryptor st = None ->
  on_data config st data = (st', Ret tt) ->
  exists key blockMode0 plain blockMode',
    DecryptorWithPassword (stream_key_material (salt st) key) [] = Ret blockMode0
    /\ sessionKey st' = Some key
    /\ CryptBlocks blockMode0 data = Ret (plain, blockMode')
    /\ decryptor st' = Some blockMode'
    /\ lz4_stdin st' = lz4_stdin st ++ pending st /\ decryptedChunk st' = Some plain.
Proof.
  intros Hdec. unfold on_data, ensure_decryptor. rewrite Hdec.
  unfold mbind, outcome_bind, wrap.
  destruct (unwrap_session_key config st) as [[key|]|e|q]; try discriminate.
  destruct (check_session_key_hash (sessionKeyHash st) key) as [[]|e|q]; try discriminate.
  destruct (DecryptorWithPassword (stream_key_material (salt st) key) [])
    as [bm0|e|q] eqn:Ebm; try discriminate.
  unfold lift.
  destruct (CryptBlocks bm0 data) as [[plain bm']|e|q] eqn:Ec.
  - intros [= <-]. exists key, bm0, plain, bm'. unfold pending.
    destruct st as [sk dec dig exp k1 k2 sa skh [chunk|] fed]; cbn in *;
      rewrite ?app_nil_r; auto 10.
  - destruct (decryptedChunk (set_keys key bm0 st)); discriminate.
  - destruct (decryptedChunk (set_keys key bm0 st)); discriminate.
Qed.

Lemma consume_no_chunks (config : DecryptConfig) (items : list StreamItem) :
  forall st0 st1 : state,
    chunks_of items = [] ->
    consume config items st0 = (st1, Ret tt) ->
    decryptor st1 = decryptor st0 /\ decryptedChunk st1 = decryptedChunk st0
    /\ lz4_stdin st1 = lz4_stdin st0.
Proof.
  induction items as [|item rest IH]; intros st0 st1.
  - intros _ [= <-]. auto.
  - cbn [consume chunks_of flat_map]. fold (chunks_of rest). unfold step.
    destruct (Error item); [discriminate|].
    destruct (String.eqb (Key item) ""); cbn [negb].
    + destruct (Data item) as [data|]; [discriminate|]. cbn [app]. apply IH.
    + unfold lift.
      destruct (on_header config st0 (Key item) (Val item)) as [st'|e|q] eqn:Eh;
        try discriminate.
      destruct (on_header_fields _ _ _ _ _ Eh) as (E1 & E2 & E3 & E4).
      intros Hnone Hrest.
      assert (Hn : chunks_of rest = []) by (destruct (Data item); exact Hnone).
      destruct (IH st' st1 Hn Hrest) as (F1 & F2 & F3). repeat split; congruence.
Qed.

Lemma consume_from_start (config : DecryptConfig) (items : list StreamItem) :
  forall st0 st1 : state,
    decryptor st0 = None ->
    chunks_of items <> [] ->
    consume config items st0 = (st1, Ret tt) ->
    exists material blockMode0 plain blockMode1,
      DecryptorWithPassword material [] = Ret blockMode0
      /\ CryptBlocks blockMode0 (List.concat (chunks_of items)) = Ret (plain, blockMode1)
      /\ decryptor st1 = Some blockMode1
      /\ lz4_stdin st1 ++ pending st1 = lz4_stdin st0 ++ pending st0 ++ plain
      /\ decryptedChunk st1 <> None.
Proof.
  induction items as [|item rest IH]; intros st0 st1 Hdec; [intros Hne; now contradiction Hne|].
  cbn [consume chunks_of flat_map]. fold (chunks_of rest). unfold step.
  destruct (Error item); [intros _; discriminate|].
  destruct (String.eqb (Key item) ""); cbn [negb].
  - destruct (Data item) as [data|]; [|cbn [app]; now apply IH].
    intros _.
    destruct (on_data config st0 data) as [st' [[]|e|q]] eqn:Ed; try discriminate.
    destruct (on_data_first _ _ _ _ Hdec Ed)
      as (key & bm0 & p0 & bm' & Hbm & _ & Hc & Hdec' & Hin & Hchunk).
    intros Hrest.
    destruct (consume_one_stream config rest st' st1 bm' Hdec' Hrest)
      as (p1 & bm1 & Hc1 & Hdec1 & _ & Hout).
    exists (stream_key_material (salt st0) key), bm0, (p0 ++ p1), bm1.
    split; [exact Hbm|]. cbn [List.concat app].
    rewrite CryptBlocks_app, Hc;
      [|exact (CryptBlocks_whole _ _ _ _ Hc)|exact (CryptBlocks_whole _ _ _ _ Hc1)].
    cbn [mbind outcome_bind]. rewrite Hc1. cbn [mbind outcome_bind mret outcome_ret].
    split; [reflexivity|]. split; [exact Hdec1|]. split.
    + rewrite Hout, Hin. unfold pending at 2. rewrite Hchunk. now rewrite <- !app_assoc.
    + destruct (list_eq_nil_dec (chunks_of rest)) as [Hn|Hn].
      * destruct (consume_no_chunks config rest st' st1 Hn Hrest) as (_ & E & _).
        rewrite E, Hchunk. discriminate.
      * assert (Hkeyed : forall items st st2 bm,
                   decryptor st = Some bm -> chunks_of items <> [] ->
                   consume config items st = (st2, Ret tt) -> decryptedChunk st2 <> None).
        { clear. induction items as [|it l IHl]; intros st st2 bm Hd; [intros Hne; now contradiction Hne|].
          cbn [consume chunks_of flat_map]. fold (chunks_of l). unfold step.
          destruct (Error it); [intros _; discriminate|].
          destruct (String.eqb (Key it) ""); cbn [negb].
          - destruct (Data it) as [d|]; [|cbn [app]; now apply (IHl st st2 bm)].
            intros _.
            destruct (on_data config st d) as [st' [[]|e|q]] eqn:Ed; try discriminate.
            destruct (on_data_keyed _ _ _ _ _ Hd Ed) as (p0 & bm' & Hc & Hd' & _ & _ & Hp).
            intros Hrest.
            destruct (list_eq_nil_dec (chunks_of l)) as [Hn|Hn].
            + destruct (consume_no_chunks config l st' st2 Hn Hrest) as (_ & E & _).
              rewrite E. revert Ed. unfold on_data, ensure_decryptor. rewrite Hd.
              unfold lift, mbind, outcome_bind.
              destruct (CryptBlocks bm d) as [[pl b2]|e|q]; try discriminate.
              intros [= <-]. destruct (decryptedChunk st); discriminate.
            + exact (IHl st' st2 bm' Hd' Hn Hrest).
          - unfold lift.
            destruct (on_header config st (Key it) (Val it)) as [st'|e|q] eqn:Eh;
              try discriminate.
            destruct (on_header_fields _ _ _ _ _ Eh) as (E1 & _).
            intros Hne Hrest.
            assert (Hn : chunks_of l <> []) by (destruct (Data it); exact Hne).
            apply (IHl st' st2 bm); [congruence|exact Hn|exact Hrest]. }
        exact (Hkeyed rest st' st1 bm' Hdec' Hn Hrest).
  - unfold lift.
    destruct (on_header config st0 (Key item) (Val item)) as [st'|e|q] eqn:Eh;
      try (intros _; discriminate).
    destruct (on_header_fields _ _ _ _ _ Eh) as (E1 & E2 & E3 & E4).
    intros Hne Hrest.
    assert (Hn : chunks_of rest <> []) by (destruct (Data item); exact Hne).
    destruct (IH st' st1 ltac:(congruence) Hn Hrest)
      as (material & bm0 & plain & bm1 & Hbm & Hc & Hd & Hout & Hsome).
    exists material, bm0, plain, bm1. repeat split; try assumption.
    rewrite Hout, E4. unfold pending. now rewrite E2.
Qed.

(** X12.  When [DecryptStreamWithFilename] returns nil, what it has
    given to the decompressor is the plaintext of the whole stream
    without its padding: either the items held no data chunk and nothing
    was written, or the CBC decryption of the concatenated data chunks,
    under a decryptor derived by [DecryptorWithPassword] with an empty
    salt, is exactly the bytes written followed by [pad] bytes of
    padding, [pad] being at most 16. *)
Theorem drive_success_writes_the_unpadded_plaintext
        (config : DecryptConfig) (items : list StreamItem) :
  returned (drive config items) = Ret tt ->
  (chunks_of items = [] /\ lz4_stdin (at_return (drive config items)) = [])
  \/ exists material blockMode0 plain blockMode1 pad,
      DecryptorWithPassword material [] = Ret blockMode0
      /\ CryptBlocks blockMode0 (List.concat (chunks_of items)) = Ret (plain, blockMode1)
      /\ Z_of_byte pad <= 16
      /\ plain = lz4_stdin (at_return (drive config items))
                   ++ repeat pad (Z.to_nat (Z_of_byte pad)).
Proof.
  unfold drive.
  destruct (consume config items initial) as [st [[]|e|q]] eqn:Ec;
    try (cbn [returned]; discriminate).
  destruct (list_eq_nil_dec (chunks_of items)) as [Hn|Hn].
  - destruct (consume_no_chunks config items initial st Hn Ec) as (_ & E & F).
    unfold flush_last. rewrite E. cbn [decryptedChunk initial at_return].
    intros _. left. split; [exact Hn|exact F].
  - destruct (consume_from_start config items initial st eq_refl Hn Ec)
      as (material & bm0 & plain & bm1 & Hbm & Hc & _ & Hout & Hsome).
    unfold flush_last, pending in *.
    destruct (decryptedChunk st) as [chunk|]; [|congruence].
    unfold lift, mbind, outcome_bind, wrap.
    destruct (StripPKCS7Padding chunk) as [padded|e|q] eqn:Es;
      try (cbn [returned]; discriminate).
    cbn [at_return]. intros _. right.
    apply StripPKCS7Padding_success in Es as (body & pad & _ & _ & Hpad & Hchunk).
    exists material, bm0, plain, bm1, pad. repeat split; try assumption.
    change (lz4_stdin st ++ chunk = plain) in Hout.
    cbn [lz4_stdin decompressor_Write]. rewrite <- Hout, Hchunk. now rewrite app_assoc.
Qed.

End Output.

Lemma drive_success_writes_the_unpadded_plaintext_witness :
  (chunks_of (@items_of platform_sorted sample_v1) = []
   /\ lz4_stdin (at_return (@drive platform_sorted config_pw
                              (@items_of platform_sorted sample_v1))) = [])
  \/ exists material blockMode0 plain blockMode1 pad,
      DecryptorWithPassword material [] = Ret blockMode0
      /\ CryptBlocks blockMode0 (List.concat (chunks_of (@items_of platform_sorted sample_v1)))
         = Ret (plain, blockMode1)
      /\ Z_of_byte pad <= 16
      /\ plain = lz4_stdin (at_return (@drive platform_sorted config_pw
                                         (@items_of platform_sorted sample_v1)))
                   ++ repeat pad (Z.to_nat (Z_of_byte pad)).
Proof.
  apply (@drive_success_writes_the_unpadded_plaintext platform_sorted config_pw
           (@items_of platform_sorted sample_v1)).
  vm_compute. reflexivity.
Defined.

(* ================================================================= *)
(** ** The shape of the channel *)

Section Shape.
Context `{Platform}.

Lemma emit_shape (n : nat) (obj : Value) :
  match emit n obj with
  | (items, true) => Forall payload_item items
  | (items, false) => exists e, items = [ItemError e] /\ e <> EOF
  end.
Proof.
  unfold emit. destruct obj as [| | | |dict]; try (eexists; split; [reflexivity|discriminate]).
  - constructor.
  - destruct (dict !! "type"%string) as [[| | |itemType|]|];
      try (eexists; split; [reflexivity|discriminate]).
    destruct (String.eqb itemType "metadata").
    + apply Forall_forall. intros item Hin.
      apply list_elem_of_In, in_map_iff in Hin as ([k v] & <- & Hin).
      apply filter_In in Hin as [_ Hk]. cbn [fst snd] in *.
      left. exists k, v. split; [reflexivity|].
      apply negb_true_iff, String.eqb_neq in Hk. exact Hk.
    + destruct (String.eqb itemType "data"); [|constructor].
      destruct (dict !! "data"%string) as [[| |data| |]|]; try constructor.
      * right. now exists data.
      * constructor.
Qed.

Lemma stream_loop_shape (fuel n : nat) (input : list byte) (items : list StreamItem) :
  stream_loop fuel n input = Some items ->
  exists sent failure,
    items = sent ++ failure /\ Forall payload_item sent
    /\ (failure = [] \/ exists e, failure = [ItemError e] /\ e <> EOF).
Proof.
  revert n input items. induction fuel as [|f IH]; intros n input items; [discriminate|].
  cbn [stream_loop].
  destruct (ReadObject (object_fuel input) input) as [[err|[obj rest]]|]; [| |discriminate].
  - destruct err; intros [= <-];
      first [ now exists [], []; repeat split; auto
            | eexists [], [_]; split; [reflexivity|]; split; [constructor|];
              right; eexists; split; [reflexivity|discriminate] ].
  - pose proof (emit_shape n obj) as Hs.
    destruct (emit n obj) as [sent [|]].
    + destruct (stream_loop f (S n) rest) as [more|] eqn:Em; [|discriminate].
      intros [= <-]. destruct (IH _ _ _ Em) as (sent' & failure & -> & Hsent & Hfail).
      exists (sent ++ sent'), failure. rewrite app_assoc. split; [reflexivity|].
      split; [now apply Forall_app|exact Hfail].
    + intros [= <-]. exists [], sent. split; [reflexivity|]. split; [constructor|now right].
Qed.

(** X13.  The channel of [DecodeCSEncStream] carries headers and data
    chunks, then at most one error, and nothing after it: every item
    before the error is a header whose key is not [type] or a data chunk,
    and the error is never [io.EOF], which ends the stream silently. *)
Theorem DecodeCSEncStream_sends_at_most_one_error_last
        (input : list byte) (items : list StreamItem) :
  DecodeCSEncStream input = Some (inr items) ->
  exists sent failure,
    items = sent ++ failure /\ Forall payload_item sent
    /\ (failure = [] \/ exists e, failure = [ItemError e] /\ e <> EOF).
Proof.
  unfold DecodeCSEncStream. destruct (ValidateHeader input) as [e|[[] rest]]; [discriminate|].
  destruct (stream_loop _ 0 rest) as [its|] eqn:Es; [|discriminate].
  intros [= <-]. exact (stream_loop_shape _ _ _ _ Es).
Qed.

End Shape.

Lemma DecodeCSEncStream_sends_at_most_one_error_last_witness :
  exists sent failure,
    @items_of platform_sorted (firstn 120 sample_v1) = sent ++ failure
    /\ Forall payload_item sent
    /\ (failure = [] \/ exists e, failure = [ItemError e] /\ e <> EOF).
Proof.
  apply (@DecodeCSEncStream_sends_at_most_one_error_last platform_sorted
           (firstn 120 sample_v1)).
  vm_compute. reflexivity.
Defined.

(* ================================================================= *)
(** ** pkg/files: the counters of [DecryptResults] *)

Section Counters.
Import files.

Lemma count_app (success : bool) (results : list DecryptResult) (result : DecryptResult) :
  count success (results ++ [result])
  = count success results + (if Bool.eqb (Success result) success then 1 else 0).
Proof.
  unfold count. rewrite List.filter_app, length_app. cbn [List.filter].
  destruct (Bool.eqb (Success result) success); simpl; lia.
Qed.

Lemma count_total (results : list DecryptResult) :
  count true results + count false results = Z.of_nat (List.length results).
Proof.
  induction results as [|r l IH] using rev_ind; [reflexivity|].
  rewrite !count_app, length_app. cbn [List.length].
  destruct (Success r); cbn [Bool.eqb]; lia.
Qed.

Lemma count_bounds (success : bool) (results : list DecryptResult) :
  0 <= count success results <= Z.of_nat (List.length results).
Proof.
  pose proof (count_total results). unfold count in *.
  destruct success; lia.
Qed.

Lemma AddResult_counts (dr : DecryptResults) (result : DecryptResult) :
  Z.of_nat (List.length (Results dr)) + 1 < 2 ^ 63 ->
  TotalFiles dr = Z.of_nat (List.length (Results dr)) ->
  SuccessCount dr = count true (Results dr) ->
  FailedCount dr = count false (Results dr) ->
  Results (AddResult dr result) = Results dr ++ [result]
  /\ TotalFiles (AddResult dr result) = Z.of_nat (List.length (Results dr ++ [result]))
  /\ SuccessCount (AddResult dr result) = count true (Results dr ++ [result])
  /\ FailedCount (AddResult dr result) = count false (Results dr ++ [result]).
Proof.
  intros Hlen Ht Hs Hf.
  pose proof (count_bounds true (Results dr)). pose proof (count_bounds false (Results dr)).
  unfold AddResult. rewrite !count_app, length_app. cbn [List.length].
  destruct (Success result); cbn [Results TotalFiles SuccessCount FailedCount Bool.eqb];
    pose proof two64; rewrite !int64_wrap_small by lia; repeat split; lia.
Qed.

Lemma AddResult_fold (results : list DecryptResult) :
  forall dr : DecryptResults,
    Z.of_nat (List.length (Results dr) + List.length results) < 2 ^ 63 ->
    TotalFiles dr = Z.of_nat (List.length (Results dr)) ->
    SuccessCount dr = count true (Results dr) ->
    FailedCount dr = count false (Results dr) ->
    let dr' := fold_left AddResult results dr in
    Results dr' = Results dr ++ results
    /\ TotalFiles dr' = Z.of_nat (List.length (Results dr'))
    /\ SuccessCount dr' = count true (Results dr')
    /\ FailedCount dr' = count false (Results dr').
Proof.
  induction results as [|r l IH]; intros dr Hlen Ht Hs Hf; cbn [fold_left].
  - rewrite app_nil_r. auto.
  - cbn [List.length] in Hlen.
    destruct (AddResult_counts dr r ltac:(lia) Ht Hs Hf) as (Hr & Ht' & Hs' & Hf').
    rewrite <- Hr in Ht', Hs', Hf'.
    assert (Hlen' : Z.of_nat (List.length (Results (AddResult dr r)) + List.length l)
                    < 2 ^ 63)
      by (rewrite Hr, length_app; cbn [List.length]; lia).
    destruct (IH (AddResult dr r) Hlen' Ht' Hs' Hf') as (E & Et & Es & Ef).
    cbv zeta. rewrite E in *. rewrite Hr, <- app_assoc in *. cbn [app]. auto.
Qed.

(** X14.  After any sequence of [AddResult] calls on a fresh
    [DecryptResults] (fewer than 2^63 of them), [Results] holds the
    results in the order added, [SuccessCount] and [FailedCount] are the
    numbers of results with and without [Success], and [TotalFiles] is
    their sum and the length of [Results]. *)
Theorem AddResult_keeps_the_counters (results : list DecryptResult) :
  Z.of_nat (List.length results) < 2 ^ 63 ->
  let dr := fold_left AddResult results NewDecryptResults in
  Results dr = results
  /\ TotalFiles dr = Z.of_nat (List.length results)
  /\ SuccessCount dr = count true results
  /\ FailedCount dr = count false results
  /\ TotalFiles dr = SuccessCount dr + FailedCount dr.
Proof.
  intros Hlen.
  destruct (AddResult_fold results NewDecryptResults Hlen eq_refl eq_refl eq_refl)
    as (Hr & Ht & Hs & Hf).
  cbn [Results NewDecryptResults app] in Hr. cbv zeta. rewrite Hr in *.
  repeat split; try assumption. rewrite Ht, Hs, Hf. symmetry. apply count_total.
Qed.

End Counters.

Lemma AddResult_keeps_the_counters_witness :
  files.TotalFiles (fold_left files.AddResult files.sample_results files.NewDecryptResults) = 3
  /\ files.SuccessCount (fold_left files.AddResult files.sample_results files.NewDecryptResults)
     = 2
  /\ files.FailedCount (fold_left files.AddResult files.sample_results files.NewDecryptResults)
     = 1.
Proof.
  pose proof (AddResult_keeps_the_counters files.sample_results eq_refl)
    as (_ & Ht & Hs & Hf & _).
  cbv zeta in *. rewrite Ht, Hs, Hf. repeat split.
Defined.

(* ================================================================= *)
(** ** pkg/files: output file names *)

Section FileNames.
Import files.

Lemma string_of_list_ascii_app (a b : list Ascii.ascii) :
  string_of_list_ascii (a ++ b) = string_of_list_ascii a +:+ string_of_list_ascii b.
Proof. induction a as [|c a IH]; simpl; [reflexivity|]. now rewrite IH. Qed.

Lemma ext_scan_found (reversed : list Ascii.ascii) :
  forall acc : list Ascii.ascii,
    ext_scan reversed acc <> [] ->
    exists t before,
      reversed = t ++ dot :: before /\ Forall plain t
      /\ ext_scan reversed acc = dot :: (rev t ++ acc).
Proof.
  induction reversed as [|c r IH]; intros acc; cbn [ext_scan]; [congruence|].
  destruct (IsPathSeparator c) eqn:Es; [congruence|].
  destruct (Ascii.eqb c (Ascii.ascii_of_byte "."%byte)) eqn:Ed.
  - intros _. apply Ascii.eqb_eq in Ed as ->. exists [], r. repeat split. constructor.
  - intros Hne. destruct (IH (c :: acc) Hne) as (t & before & -> & Ht & ->).
    exists (c :: t), before. split; [reflexivity|]. split.
    + constructor; [split; assumption|exact Ht].
    + cbn [rev]. now rewrite <- app_assoc.
Qed.

Lemma ext_scan_app (t before : list Ascii.ascii) :
  Forall plain t ->
  forall acc, ext_scan (t ++ dot :: before) acc = dot :: (rev t ++ acc).
Proof.
  induction 1 as [|c t [Hs Hd] _ IH]; intros acc; [reflexivity|].
  cbn [app ext_scan]. rewrite Hs. fold dot. rewrite Hd, IH. cbn [rev].
  now rewrite <- app_assoc.
Qed.

Lemma last_element_app (u rest : list Ascii.ascii) :
  Forall (fun c => IsPathSeparator c = false) u ->
  forall acc, last_element (u ++ rest) acc = last_element rest (rev u ++ acc).
Proof.
  induction 1 as [|c u Hc _ IH]; intros acc; [reflexivity|].
  cbn [app last_element]. rewrite Hc, IH. cbn [rev]. now rewrite <- app_assoc.
Qed.

Lemma last_element_spec (reversed : list Ascii.ascii) :
  forall acc, exists u, last_element reversed acc = rev u ++ acc.
Proof.
  induction reversed as [|c r IH]; intros acc; cbn [last_element]; [now exists []|].
  destruct (IsPathSeparator c); [now exists []|].
  destruct (IH (c :: acc)) as [u ->]. exists (c :: u). cbn [rev]. now rewrite <- app_assoc.
Qed.

(** Every path is something followed by its extension. *)
Lemma Ext_suffix (path : string) : exists stem, path = stem +:+ Ext path.
Proof.
  unfold Ext. set (r := rev (list_ascii_of_string path)).
  destruct (ext_scan r []) as [|c e] eqn:Ee.
  - exists path. cbn [string_of_list_ascii]. clear.
    induction path as [|a s IH]; [reflexivity|].
    change (String a s = String a (s +:+ "")). now rewrite <- IH.
  - destruct (ext_scan_found r [] ltac:(congruence)) as (t & before & Hr & _ & He).
    rewrite <- Ee, He. exists (string_of_list_ascii (rev before)).
    rewrite <- string_of_list_ascii_app, app_nil_r.
    rewrite <- (string_of_list_ascii_of_string path) at 1. f_equal.
    rewrite <- (rev_involutive (list_ascii_of_string path)). fold r. rewrite Hr.
    rewrite rev_app_distr. cbn [rev]. now rewrite <- app_assoc.
Qed.

Lemma string_length_of_list_ascii (l : list Ascii.ascii) :
  String.length (string_of_list_ascii l) = List.length l.
Proof. induction l as [|c l IH]; simpl; [reflexivity|]. now rewrite IH. Qed.

Lemma prefix_of_stem (stem ext : string) :
  string_prefix (String.length (stem +:+ ext) - String.length ext) (stem +:+ ext) = stem.
Proof.
  rewrite string_length_append.
  replace (String.length stem + String.length ext - String.length ext)%nat
    with (String.length stem) by lia.
  apply string_prefix_append.
Qed.

(** A path with an extension has it in its last element. *)
Lemma Base_with_extension (path : string) :
  Ext path <> ""%string ->
  Ext (Base path) = Ext path /\ Base path <> ""%string.
Proof.
  unfold Ext at 1. set (r := rev (list_ascii_of_string path)). intros Hne.
  assert (Hscan : ext_scan r [] <> []).
  { intros Hnil. apply Hne. unfold Ext. fold r. now rewrite Hnil. }
  destruct (ext_scan_found r [] Hscan) as (t & before & Hr & Ht & He).
  assert (Hu : Forall (fun c => IsPathSeparator c = false) (t ++ [dot])).
  { apply Forall_app. split; [|now repeat constructor].
    eapply Forall_impl; [exact Ht|]. now intros c [Hc _]. }
  assert (Hstrip : strip_trailing r = r).
  { rewrite Hr. destruct Ht as [|c t [Hc _] _]; cbn [app strip_trailing]; [reflexivity|].
    now rewrite Hc. }
  unfold Base.
  destruct (String.eqb_spec path "") as [->|_]; [now contradiction Hscan|].
  fold r. rewrite Hstrip.
  replace r with ((t ++ [dot]) ++ before) by (now rewrite Hr, <- app_assoc).
  rewrite (last_element_app _ _ Hu), app_nil_r.
  destruct (last_element_spec before (rev (t ++ [dot]))) as [u ->].
  rewrite rev_app_distr. cbn [rev app].
  destruct (rev u ++ dot :: rev t) as [|c l] eqn:El.
  { now destruct (rev u). }
  rewrite <- El. split.
  - unfold Ext. rewrite list_ascii_of_string_of_list_ascii.
    rewrite rev_app_distr. cbn [rev]. rewrite !rev_involutive, <- app_assoc. cbn [app].
    rewrite (ext_scan_app t u Ht). fold r. now rewrite He.
  - rewrite El. discriminate.
Qed.

Lemma encrypted_extension (ext : string) :
  String.eqb ext ".cse" || String.eqb ext ".enc" || String.eqb ext ".cloudsync" = true ->
  (0 < String.length ext)%nat.
Proof.
  rewrite !orb_true_iff, !String.eqb_eq. intros [[->| ->]| ->]; simpl; lia.
Qed.

(** X15.  [GenerateOutputFilename] never returns the base name of its
    input: it returns a shorter name, the base name without its
    extension, or a longer one, the base name followed by
    [".decrypted"]; the slice it takes is within bounds.  For a file
    [IsEncryptedFile] accepts it is the first: the name it returns,
    followed by the extension of the file, is the base name. *)
Theorem GenerateOutputFilename_changes_the_name :
  (forall inputFile : string,
      (String.length (GenerateOutputFilename inputFile) < String.length (Base inputFile))%nat
      /\ GenerateOutputFilename inputFile +:+ Ext (Base inputFile) = Base inputFile
      \/ GenerateOutputFilename inputFile = Base inputFile +:+ ".decrypted")
  /\ (forall inputFile : string,
         IsEncryptedFile inputFile = true ->
         GenerateOutputFilename inputFile +:+ Ext inputFile = Base inputFile
         /\ (String.length (GenerateOutputFilename inputFile)
             < String.length (Base inputFile))%nat).
Proof.
  assert (Hstrip : forall inputFile,
             String.eqb (Ext (Base inputFile)) ".cse"
             || String.eqb (Ext (Base inputFile)) ".enc"
             || String.eqb (Ext (Base inputFile)) ".cloudsync" = true ->
             (String.length (GenerateOutputFilename inputFile)
              < String.length (Base inputFile))%nat
             /\ GenerateOutputFilename inputFile +:+ Ext (Base inputFile) = Base inputFile).
  { intros inputFile Hext. unfold GenerateOutputFilename. cbv zeta. rewrite Hext.
    pose proof (encrypted_extension _ Hext) as Hpos.
    destruct (Ext_suffix (Base inputFile)) as [stem Hstem].
    set (baseName := Base inputFile) in *. set (ext := Ext baseName) in *.
    clearbody ext. clearbody baseName. subst baseName.
    rewrite prefix_of_stem, string_length_append. split; [lia|reflexivity]. }
  split.
  - intros inputFile.
    destruct (String.eqb (Ext (Base inputFile)) ".cse"
              || String.eqb (Ext (Base inputFile)) ".enc"
              || String.eqb (Ext (Base inputFile)) ".cloudsync") eqn:Hext.
    + left. now apply Hstrip.
    + right. unfold GenerateOutputFilename. cbv zeta. now rewrite Hext.
  - intros inputFile Henc. unfold IsEncryptedFile in Henc. cbv zeta in Henc.
    pose proof (encrypted_extension _ Henc) as Hpos.
    assert (Hne : Ext inputFile <> ""%string)
      by (intros Hnil; rewrite Hnil in Hpos; simpl in Hpos; lia).
    destruct (Base_with_extension inputFile Hne) as [Hsame _].
    rewrite <- Hsame in Henc. destruct (Hstrip inputFile Henc) as [Hlen Heq].
    rewrite <- Hsame. auto.
Qed.

End FileNames.

